(** * StorageLog: the Log table engine (dbms/src/Storages/StorageLog.cpp)

    A shallow embedding of the table descriptor, the marks index, the block
    writer and the scan planner, and the properties of the marks and the
    files they keep.

    Conventions.
    - [size_t] values that come from data (row counts, byte offsets, the
      product [stream * marks_size]) are [Z] with the wrap-around at 2^64
      written out ([wrap64]).  [size_t] values that count the entries of a
      container held in memory ([file_count], [column_index], vector
      sizes) are [nat]: such a counter cannot reach 2^64.
    - An exception is a [Throw] outcome that keeps the state reached so far;
      undefined behaviour of the C++ code (a vector indexed out of range,
      a division by zero) is the outcome [Undefined].
    - [std::map] and [std::set] are [gmap] and [gset]; [operator[]] on a map
      inserts a value-initialised entry when the key is missing, as in C++. *)

From Stdlib Require Import ZArith Lia.
From Stdlib.Strings Require Import Byte Ascii.
From stdpp Require Import gmap strings list fin_maps sorting.


(** ** Machine integers and bytes *)

Definition wrap64 (z : Z) : Z := (z mod 2 ^ 64)%Z.
Definition wrap32 (z : Z) : Z := (z mod 2 ^ 32)%Z.

Definition byte_of_Z (z : Z) : byte :=
  match Byte.of_N (Z.to_N (z mod 256)) with
  | Some b => b
  | None => x00
  end.

Definition Z_of_byte (b : byte) : Z := Z.of_N (Byte.to_N b).

(** [writeIntBinary] / [readIntBinary] on a [UInt64]: eight bytes, least
    significant first. *)
Fixpoint le_bytes (n : nat) (z : Z) : list byte :=
  match n with
  | O => []
  | S k => byte_of_Z z :: le_bytes k (z / 256)
  end.

Fixpoint le_value (bs : list byte) : Z :=
  match bs with
  | [] => 0%Z
  | b :: r => (Z_of_byte b + 256 * le_value r)%Z
  end.

(** ** Exceptions and outcomes *)

(** The error codes the file declares, and the two of the IO layer that the
    buffers it uses can raise. *)
Inductive ErrorCode :=
  | LOGICAL_ERROR
  | EMPTY_LIST_OF_COLUMNS_PASSED
  | NO_SUCH_COLUMN_IN_TABLE
  | DUPLICATE_COLUMN
  | SIZES_OF_MARKS_FILES_ARE_INCONSISTENT
  | CANNOT_OPEN_FILE
  | CANNOT_READ_ALL_DATA.

Global Instance ErrorCode_eq_dec : EqDecision ErrorCode.
Proof. solve_decision. Defined.

Inductive Outcome (S A : Type) :=
  | Done (a : A) (s : S)
  | Throw (e : ErrorCode) (s : S)
  | Undefined.
Arguments Done {S A} a s.
Arguments Throw {S A} e s.
Arguments Undefined {S A}.

Definition M (S A : Type) : Type := S → Outcome S A.

Definition mret {S A} (a : A) : M S A := λ s, Done a s.
Definition mbind {S A B} (m : M S A) (k : A → M S B) : M S B :=
  λ s, match m s with
       | Done a s' => k a s'
       | Throw e s' => Throw e s'
       | Undefined => Undefined
       end.
Definition throw {S A} (e : ErrorCode) : M S A := λ s, Throw e s.
Definition undefined {S A} : M S A := λ _, Undefined.
Definition get {S} : M S S := λ s, Done s s.
Definition modify {S} (f : S → S) : M S unit := λ s, Done tt (f s).

Notation "'let*' x := m 'in' k" := (mbind m (λ x, k))
  (at level 10, x pattern, m at level 100, k at level 200, only parsing).
Notation "m ;; k" := (mbind m (λ _, k))
  (at level 100, k at level 200, right associativity, only parsing).

(** A [for] loop over a list, threading an accumulator. *)
Fixpoint mfold {S A B} (f : B → A → M S B) (b : B) (l : list A) : M S B :=
  match l with
  | [] => mret b
  | x :: r => let* b' := f b x in mfold f b' r
  end.

(** What a call leaves of a relation between the state before and the state
    after, whether it returns or raises. *)
Definition keeps {S A} (R : S → S → Prop) (s : S) (o : Outcome S A) : Prop :=
  match o with
  | Done _ s' | Throw _ s' => R s s'
  | Undefined => True
  end.

(** An outcome that is neither undefined behaviour nor the exception [e]. *)
Definition never_raises {S A} (e : ErrorCode) (o : Outcome S A) : Prop :=
  match o with
  | Done _ _ => True
  | Throw e' _ => e' ≠ e
  | Undefined => False
  end.

(** ** Marks and the data-type interface *)

Record Mark := mkMark { rows : Z; offset : Z }.

Global Instance Mark_eq_dec : EqDecision Mark.
Proof. solve_decision. Defined.

(** [sizeof(Mark)]: two [size_t]. *)
Definition sizeof_Mark : nat := 16.

Definition write_mark (m : Mark) : list byte :=
  le_bytes 8 (rows m) ++ le_bytes 8 (offset m).

Definition read_mark (bs : list byte) : Mark :=
  mkMark (le_value (take 8 bs)) (le_value (take 8 (drop 8 bs))).

Inductive Substream := ArrayElements | ArraySizes | NullableElements | NullMap.

Global Instance Substream_eq_dec : EqDecision Substream.
Proof. solve_decision. Defined.

Definition SubstreamPath := list Substream.

(** The capabilities of [IDataType] and [IColumn] that the engine uses.
    The data types themselves are not part of this file, so the engine is
    stated over any implementation of the interface.

    [serializeBinaryBulkWithMultipleStreams] is given by the requests the
    serializer makes, in order: each is a substream path handed to the
    stream getter, with the bytes it writes to the buffer if the getter
    returns one (and skips if the getter returns null). *)
Class IDataType (DataType Column : Type) := {
  enumerateStreams : DataType → list SubstreamPath;
  getFileNameForStream : string → SubstreamPath → string;
  serializeBinaryBulkWithMultipleStreams :
    DataType → Column → list (SubstreamPath * list byte);
  isNullable : DataType → bool;
  getNestedType : DataType → DataType;
  column_size : Column → nat;
}.

(** The LZ4 frame encoder behind [CompressedWriteBuffer]. *)
Class Codec := { compress : list byte → list byte }.

Section StorageLog.

Context {DataType Column : Type}.
Context `{!IDataType DataType Column} `{!EqDecision DataType} `{!Codec}.

(** The file names of the substreams of a column, in enumeration order. *)
Definition stream_names (name : string) (type : DataType) : list string :=
  getFileNameForStream name <$> enumerateStreams type.

(** ** The table descriptor *)

Record ColumnData := mkColumnData {
  column_index : nat;
  data_file : string;
  marks : list Mark;
}.

(** What [operator[]] inserts for a missing key. *)
Definition default_ColumnData : ColumnData := mkColumnData 0 EmptyString [].

Record StorageLog := mkStorageLog {
  path : string;
  name : string;
  columns : list (string * DataType);
  max_compress_block_size : nat;
  files : gmap string ColumnData;
  column_names : list string;
  file_count : nat;
  marks_file : string;
  loaded_marks : bool;
}.

Definition set_files (f : gmap string ColumnData) (st : StorageLog) : StorageLog :=
  mkStorageLog (path st) (name st) (columns st) (max_compress_block_size st)
    f (column_names st) (file_count st) (marks_file st) (loaded_marks st).

Definition set_loaded_marks (b : bool) (st : StorageLog) : StorageLog :=
  mkStorageLog (path st) (name st) (columns st) (max_compress_block_size st)
    (files st) (column_names st) (file_count st) (marks_file st) b.

Definition set_marks_file (p : string) (st : StorageLog) : StorageLog :=
  mkStorageLog (path st) (name st) (columns st) (max_compress_block_size st)
    (files st) (column_names st) (file_count st) p (loaded_marks st).

(** [files[stream_name]], the entry and the map after the access. *)
Definition files_at (stream_name : string) (f : gmap string ColumnData)
  : ColumnData * gmap string ColumnData :=
  match f !! stream_name with
  | Some cd => (cd, f)
  | None => (default_ColumnData, <[stream_name := default_ColumnData]> f)
  end.

(** [path + escapeForFileName(name) + '/']; the escaping of the table name
    is not part of this file, the table name is taken as already escaped. *)
Definition table_dir (st : StorageLog) : string := path st +:+ name st +:+ "/"%string.

Definition DBMS_STORAGE_LOG_DATA_FILE_EXTENSION : string := ".bin"%string.
Definition DBMS_STORAGE_LOG_MARKS_FILE_NAME : string := "__marks.mrk"%string.

(** The callback of [addFiles], run on every substream of the column. *)
Definition stream_callback (column_name : string) (st : StorageLog)
    (substream_path : SubstreamPath) : StorageLog :=
  let stream_name := getFileNameForStream column_name substream_path in
  match files st !! stream_name with
  | Some _ => st
  | None =>
      mkStorageLog (path st) (name st) (columns st) (max_compress_block_size st)
        (<[stream_name :=
            mkColumnData (file_count st)
              (table_dir st +:+ stream_name +:+ DBMS_STORAGE_LOG_DATA_FILE_EXTENSION)
              []]> (files st))
        (column_names st ++ [stream_name])
        (S (file_count st))
        (marks_file st) (loaded_marks st)
  end.

Definition addFiles (column_name : string) (type : DataType) (st : StorageLog)
  : ErrorCode + StorageLog :=
  match files st !! column_name with
  | Some _ => inl DUPLICATE_COLUMN
  | None => inr (foldl (stream_callback column_name) st (enumerateStreams type))
  end.

Fixpoint addFiles_each (cols : list (string * DataType)) (st : StorageLog)
  : ErrorCode + StorageLog :=
  match cols with
  | [] => inr st
  | (column_name, type) :: rest =>
      match addFiles column_name type st with
      | inl e => inl e
      | inr st' => addFiles_each rest st'
      end
  end.

(** Modelled from the spec: [getColumnsList], declared with the storage
    interface and not in this file, is the descriptor's ordered column
    list. *)
Definition getColumnsList (st : StorageLog) : list (string * DataType) :=
  columns st.

(** The constructor.  The object exists only when no exception leaves it. *)
Definition new_StorageLog (path_ name_ : string)
    (columns_ : list (string * DataType)) (max_compress_block_size_ : nat)
  : ErrorCode + StorageLog :=
  match columns_ with
  | [] => inl EMPTY_LIST_OF_COLUMNS_PASSED
  | _ =>
      let st0 := mkStorageLog path_ name_ columns_ max_compress_block_size_
                   ∅ [] 0 EmptyString false in
      match addFiles_each (getColumnsList st0) st0 with
      | inl e => inl e
      | inr st =>
          inr (set_marks_file (table_dir st +:+ DBMS_STORAGE_LOG_MARKS_FILE_NAME) st)
      end
  end.

(** ** Loading the marks *)

Definition push_back_mark (m : Mark) (cd : ColumnData) : ColumnData :=
  mkColumnData (column_index cd) (data_file cd) (marks cd ++ [m]).

(** [std::map] iterates in the order of its keys. *)
Definition key_le (a b : string * ColumnData) : Prop := String.leb a.1 b.1 = true.

Global Instance key_le_dec a b : Decision (key_le a b).
Proof. unfold key_le. apply _. Defined.

Definition files_in_key_order (f : gmap string ColumnData)
  : list (string * ColumnData) :=
  merge_sort key_le (map_to_list f).

(** [files_by_index]: a vector of [file_count] iterators, the one at
    [column_index] set for every entry of [files]; an entry never set stays
    a singular iterator ([None]).  Assigning past the end is undefined, and
    so is going through a singular iterator, as the loop that reserves the
    vectors and the loop that reads the marks do. *)
Definition files_by_index_step (acc : option (list (option string)))
    (kv : string * ColumnData) : option (list (option string)) :=
  match acc with
  | None => None
  | Some v =>
      if decide (column_index kv.2 < length v)
      then Some (<[column_index kv.2 := Some kv.1]> v)
      else None
  end.

Definition files_by_index (st : StorageLog) : option (list (option string)) :=
  foldl files_by_index_step (Some (replicate (file_count st) None))
    (files_in_key_order (files st)).

(** The inner [for] of [loadMarks]: one record for every entry of
    [files_by_index], read from the front of what is left of the file. *)
Fixpoint read_group (fbi : list (option string)) (rb : list byte)
  : M StorageLog (list byte) :=
  match fbi with
  | [] => mret rb
  | it :: rest =>
      if decide (length rb < sizeof_Mark) then throw CANNOT_READ_ALL_DATA
      else
        match it with
        | None => undefined
        | Some stream_name =>
            modify (λ st, set_files
                      (alter (push_back_mark (read_mark (take sizeof_Mark rb)))
                         stream_name (files st)) st) ;;
            read_group rest (drop sizeof_Mark rb)
        end
  end.

(** [while (!marks_rb.eof())].  Every pass takes [16 * file_count] bytes off
    the file, so the length of the file bounds the number of passes; the
    fuel runs out only when [files_by_index] is empty and the loop would
    not end. *)
Fixpoint read_marks_file (fuel : nat) (fbi : list (option string))
    (rb : list byte) : M StorageLog unit :=
  match rb with
  | [] => mret tt
  | _ =>
      match fuel with
      | O => undefined
      | S k => let* rb' := read_group fbi rb in read_marks_file k fbi rb'
      end
  end.

Definition loadMarks (disk : gmap string (list byte)) : M StorageLog unit :=
  λ st,
    if loaded_marks st then Done tt st
    else
      match files_by_index st with
      | None => Undefined
      | Some fbi =>
          match disk !! marks_file st with
          | Some content =>
              let file_size := length content in
              if decide (file_count st * sizeof_Mark = 0) then Undefined
              else if decide (file_size mod (file_count st * sizeof_Mark) ≠ 0)
              then Throw SIZES_OF_MARKS_FILES_ARE_INCONSISTENT st
              else if decide (None ∈ fbi) then Undefined
              else
                (read_marks_file file_size fbi content ;;
                 modify (set_loaded_marks true)) st
          | None => Done tt (set_loaded_marks true st)
          end
      end.

(** ** Planning a scan *)

Record LogBlockInputStream := mkLogBlockInputStream {
  block_size : Z;
  in_column_names : list string;
  mark_number : Z;
  rows_limit : Z;
  rows_read : Z;
  max_read_buffer_size : Z;
}.

Definition getMarksWithRealRowCount : M StorageLog (list Mark) :=
  λ st,
    match columns st with
    | [] => Undefined
    | (column_name, type) :: _ =>
        let column_type := if isNullable type then getNestedType type else type in
        let filename :=
          foldl (λ filename substream_path,
                   if decide (filename = EmptyString)
                   then getFileNameForStream column_name substream_path
                   else filename)
            EmptyString (enumerateStreams column_type) in
        match files st !! filename with
        | None => Throw LOGICAL_ERROR st
        | Some cd => Done (marks cd) st
        end
    end.

(** [marks[i]] on the vector: out of range is undefined. *)
Definition marks_at (marks : list Mark) (i : Z) : option Mark :=
  if decide (0 ≤ i)%Z then marks !! Z.to_nat i else None.

(** The body of the [for] of [read], for one value of [stream]. *)
Definition plan_stream (column_names : list string) (max_block_size : Z)
    (max_read_buffer_size : Z) (marks : list Mark) (num_streams : Z)
    (stream : Z) : option LogBlockInputStream :=
  let marks_size := Z.of_nat (length marks) in
  let mark_begin := (wrap64 (stream * marks_size) / num_streams)%Z in
  let mark_end := (wrap64 ((stream + 1) * marks_size) / num_streams)%Z in
  rows_begin ← (if decide (mark_begin = 0%Z) then Some 0%Z
                else rows <$> marks_at marks (mark_begin - 1));
  rows_end ← (if decide (mark_end = 0%Z) then Some 0%Z
              else rows <$> marks_at marks (mark_end - 1));
  Some (mkLogBlockInputStream max_block_size column_names mark_begin
          (wrap64 (rows_end - rows_begin)) 0 max_read_buffer_size).

(** [num_streams] is an [unsigned]; the assignment from [marks_size]
    converts to 32 bits. *)
Definition clamp_num_streams (marks_size : Z) (num_streams : Z) : Z :=
  if decide (marks_size < num_streams)%Z then wrap32 marks_size else num_streams.

Definition plan_streams (column_names : list string) (max_block_size : Z)
    (max_read_buffer_size : Z) (marks : list Mark) (num_streams : Z)
  : option (list LogBlockInputStream) :=
  mapM (plan_stream column_names max_block_size max_read_buffer_size marks num_streams)
    (Z.of_nat <$> seq 0 (Z.to_nat num_streams)).

(** Modelled from the spec: [check(column_names)] of the storage interface,
    not in this file; a requested name that is not a column of the table
    is refused with NoSuchColumn. *)
Definition check_names (column_names : list string) : M StorageLog unit :=
  λ st,
    if decide (Forall (λ n, n ∈ (getColumnsList st).*1) column_names)
    then Done tt st
    else Throw NO_SUCH_COLUMN_IN_TABLE st.

Definition read (disk : gmap string (list byte)) (column_names : list string)
    (max_block_size : Z) (num_streams : Z) (max_read_buffer_size : Z)
  : M StorageLog (list LogBlockInputStream) :=
  check_names column_names ;;
  loadMarks disk ;;
  let* marks := getMarksWithRealRowCount in
  let marks_size := Z.of_nat (length marks) in
  let num_streams := clamp_num_streams marks_size num_streams in
  match plan_streams column_names max_block_size max_read_buffer_size marks
          num_streams with
  | Some res => mret res
  | None => undefined
  end.

(** ** The reader's stream getter *)



(** ** The writer *)

(** Modelled from the spec: the write buffers of the IO layer, not in this
    file.  A [WriteBufferFromFile] opened for append keeps the bytes it was
    given until [next] moves them to the end of the file; [count] is the
    number of bytes it was given so far. *)
Record WriteBufferFromFile := mkWriteBufferFromFile {
  wb_path : string;
  wb_count : nat;
  wb_pending : list byte;
}.

Definition wb_write (data : list byte) (b : WriteBufferFromFile)
  : WriteBufferFromFile :=
  mkWriteBufferFromFile (wb_path b) (wb_count b + length data) (wb_pending b ++ data).

Definition file_content (disk : gmap string (list byte)) (p : string) : list byte :=
  default [] (disk !! p).

Definition wb_next (b : WriteBufferFromFile) (disk : gmap string (list byte))
  : WriteBufferFromFile * gmap string (list byte) :=
  (mkWriteBufferFromFile (wb_path b) (wb_count b) [],
   <[wb_path b := file_content disk (wb_path b) ++ wb_pending b]> disk).

(** [O_APPEND | O_CREAT | O_WRONLY]: a missing file is created empty. *)
Definition open_append (p : string) (disk : gmap string (list byte))
  : gmap string (list byte) :=
  match disk !! p with
  | Some _ => disk
  | None => <[p := []]> disk
  end.

(** Modelled from the spec: the block-oriented compressed buffer over a file
    buffer.  It collects up to [cap] bytes; when a byte arrives and the
    buffer is full, the buffer is compressed into one frame that goes to the
    file buffer.  The result is the frames emitted and the bytes left. *)
Fixpoint compressed_write (cap : nat) (pending data : list byte)
  : list byte * list byte :=
  match data with
  | [] => ([], pending)
  | b :: rest =>
      if decide (cap ≤ length pending)
      then let '(emitted, pending') := compressed_write cap [b] rest in
           (compress pending ++ emitted, pending')
      else compressed_write cap (pending ++ [b]) rest
  end.

Record Stream := mkStream {
  plain : WriteBufferFromFile;
  compressed : list byte;
  plain_offset : Z;
}.

(** [compressed.next()]: the bytes collected so far leave as one frame;
    nothing happens on an empty buffer. *)
Definition compressed_next (s : Stream) : Stream :=
  match compressed s with
  | [] => s
  | pending => mkStream (wb_write (compress pending) (plain s)) [] (plain_offset s)
  end.

Definition stream_write (cap : nat) (data : list byte) (s : Stream) : Stream :=
  let '(emitted, pending) := compressed_write cap (compressed s) data in
  mkStream (wb_write emitted (plain s)) pending (plain_offset s).

(** The writer together with what it refers to: the table descriptor and
    the file system. *)
Record LogBlockOutputStream := mkLogBlockOutputStream {
  storage : StorageLog;
  done : bool;
  streams : gmap string Stream;
  marks_stream : WriteBufferFromFile;
  disk : gmap string (list byte);
}.

Definition set_storage (st : StorageLog) (w : LogBlockOutputStream) :=
  mkLogBlockOutputStream st (done w) (streams w) (marks_stream w) (disk w).
Definition set_streams (ss : gmap string Stream) (w : LogBlockOutputStream) :=
  mkLogBlockOutputStream (storage w) (done w) ss (marks_stream w) (disk w).
Definition set_marks_stream (b : WriteBufferFromFile) (w : LogBlockOutputStream) :=
  mkLogBlockOutputStream (storage w) (done w) (streams w) b (disk w).
Definition set_disk (d : gmap string (list byte)) (w : LogBlockOutputStream) :=
  mkLogBlockOutputStream (storage w) (done w) (streams w) (marks_stream w) d.

Definition new_LogBlockOutputStream (st : StorageLog)
    (disk_ : gmap string (list byte)) : LogBlockOutputStream :=
  mkLogBlockOutputStream st false ∅
    (mkWriteBufferFromFile (marks_file st) 0 [])
    (open_append (marks_file st) disk_).

(** [streams.try_emplace(stream_name, data_path, max_compress_block_size)]:
    the [Stream] is constructed only when the key is new; its constructor
    opens the file and takes its size as [plain_offset]. *)
Definition try_emplace_stream (stream_name data_path : string)
  : M LogBlockOutputStream Stream :=
  λ w,
    match streams w !! stream_name with
    | Some s => Done s w
    | None =>
        if decide (data_path = EmptyString) then Throw CANNOT_OPEN_FILE w
        else
          let disk' := open_append data_path (disk w) in
          let s := mkStream (mkWriteBufferFromFile data_path 0 []) []
                     (Z.of_nat (length (file_content disk' data_path))) in
          Done s (set_disk disk' (set_streams (<[stream_name := s]> (streams w)) w))
    end.

(** *** Blocks *)

Record ColumnWithTypeAndName := mkColumnWithTypeAndName {
  c_name : string;
  c_type : DataType;
  c_column : Column;
}.

Definition Block := list ColumnWithTypeAndName.

(** [Block::rows]: the size of the first column. *)
Definition block_rows (block : Block) : nat :=
  match block with
  | [] => 0
  | c :: _ => column_size (c_column c)
  end.

(** Modelled from the spec: [check(block, need_all = true)] of the storage
    interface, not in this file.  The block is validated against the column
    list: its columns have equal row counts, no name comes twice, every
    column of the block is a column of the table with the table's type, and
    every column of the table is in the block. *)
Definition block_valid (st : StorageLog) (block : Block) : Prop :=
  Forall (λ c, column_size (c_column c) = block_rows block) block
  ∧ NoDup (c_name <$> block)
  ∧ Forall (λ c, (c_name c, c_type c) ∈ getColumnsList st) block
  ∧ Forall (λ nt, nt.1 ∈ c_name <$> block) (getColumnsList st).

Global Instance block_valid_dec st block : Decision (block_valid st block).
Proof. unfold block_valid. apply _. Defined.

Definition check_block (block : Block) : M LogBlockOutputStream unit :=
  λ w,
    if decide (block_valid (storage w) block) then Done tt w
    else Throw NO_SUCH_COLUMN_IN_TABLE w.

(** *** writeData *)

Definition MarksForColumns := list (nat * Mark).
Definition WrittenStreams := gset string.

Definition last_rows (ms : list Mark) : Z :=
  match last ms with
  | None => 0%Z
  | Some m => rows m
  end.

(** The first callback of [writeData]: the mark of a substream that was not
    written in this block yet. *)
Definition mark_callback (name : string) (column : Column)
    (written_streams : WrittenStreams) (out_marks : MarksForColumns)
    (substream_path : SubstreamPath) : M LogBlockOutputStream MarksForColumns :=
  let stream_name := getFileNameForStream name substream_path in
  if decide (stream_name ∈ written_streams) then mret out_marks
  else
    let* file := (λ w, let '(file, files') := files_at stream_name (files (storage w)) in
                       Done file (set_storage (set_files files' (storage w)) w)) in
    let* stream := try_emplace_stream stream_name (data_file file) in
    let mark :=
      mkMark (wrap64 (last_rows (marks file) + Z.of_nat (column_size column)))
             (wrap64 (plain_offset stream + Z.of_nat (wb_count (plain stream)))) in
    mret (out_marks ++ [(column_index file, mark)]).

(** The [stream_getter] of [writeData]: null ([None]) for a substream in
    [written_streams], else the compressed buffer of the stream of that
    name. *)
Definition stream_getter (name : string) (written_streams : WrittenStreams)
    (substream_path : SubstreamPath) : M LogBlockOutputStream (option string) :=
  let stream_name := getFileNameForStream name substream_path in
  if decide (stream_name ∈ written_streams) then mret None
  else
    λ w,
      match streams w !! stream_name with
      | None => Throw LOGICAL_ERROR w
      | Some _ => Done (Some stream_name) w
      end.

(** One request of the serializer: it asks the getter, and writes to the
    buffer it gets.  The results of the getter are collected. *)
Definition serialize_request (name : string) (written_streams : WrittenStreams)
    (got : list (option string)) (request : SubstreamPath * list byte)
  : M LogBlockOutputStream (list (option string)) :=
  let* buffer := stream_getter name written_streams request.1 in
  match buffer with
  | None => mret (got ++ [None])
  | Some stream_name =>
      modify (λ w, set_streams
                (alter (stream_write (max_compress_block_size (storage w)) request.2)
                   stream_name (streams w)) w) ;;
      mret (got ++ [Some stream_name])
  end.

(** The last callback of [writeData]: a substream new to [written_streams]
    has its compressed buffer flushed. *)
Definition flush_callback (name : string) (written_streams : WrittenStreams)
    (substream_path : SubstreamPath) : M LogBlockOutputStream WrittenStreams :=
  let stream_name := getFileNameForStream name substream_path in
  if decide (stream_name ∈ written_streams) then mret written_streams
  else
    λ w,
      match streams w !! stream_name with
      | None => Throw LOGICAL_ERROR w
      | Some _ =>
          Done ({[stream_name]} ∪ written_streams)
            (set_streams (alter compressed_next stream_name (streams w)) w)
      end.

Definition writeData_marks (name : string) (type : DataType) (column : Column)
    (out_marks : MarksForColumns) (written_streams : WrittenStreams)
  : M LogBlockOutputStream MarksForColumns :=
  mfold (mark_callback name column written_streams) out_marks (enumerateStreams type).

Definition writeData_serialize (name : string) (type : DataType) (column : Column)
    (written_streams : WrittenStreams)
  : M LogBlockOutputStream (list (option string)) :=
  mfold (serialize_request name written_streams) []
    (serializeBinaryBulkWithMultipleStreams type column).

Definition writeData_flush (name : string) (type : DataType)
    (written_streams : WrittenStreams) : M LogBlockOutputStream WrittenStreams :=
  mfold (flush_callback name) written_streams (enumerateStreams type).

(** [out_marks] and [written_streams] are passed by reference: the values
    after the call are the result. *)
Definition writeData (name : string) (type : DataType) (column : Column)
    (out_marks : MarksForColumns) (written_streams : WrittenStreams)
  : M LogBlockOutputStream (MarksForColumns * WrittenStreams) :=
  let* out_marks' := writeData_marks name type column out_marks written_streams in
  writeData_serialize name type column written_streams ;;
  let* written_streams' := writeData_flush name type written_streams in
  mret (out_marks', written_streams').

(** *** writeMarks *)

Definition index_le (a b : nat * Mark) : Prop := a.1 ≤ b.1.

Global Instance index_le_dec a b : Decision (index_le a b).
Proof. unfold index_le. apply _. Defined.

(** [std::sort] by the first component.  It leaves the order of marks with
    the same index open; here they keep their order. *)
Definition sort_marks (marks : MarksForColumns) : MarksForColumns :=
  merge_sort index_le marks.

Definition write_one_mark (_ : unit) (mark : nat * Mark)
  : M LogBlockOutputStream unit :=
  modify (λ w, set_marks_stream
            (wb_write (le_bytes 8 (offset mark.2))
               (wb_write (le_bytes 8 (rows mark.2)) (marks_stream w))) w) ;;
  λ w,
    let column_index := mark.1 in
    match column_names (storage w) !! column_index with
    | None => Undefined
    | Some stream_name =>
        let '(file, files') := files_at stream_name (files (storage w)) in
        Done tt (set_storage
                   (set_files (<[stream_name := push_back_mark mark.2 file]> files')
                      (storage w)) w)
    end.

Definition writeMarks (marks : MarksForColumns) : M LogBlockOutputStream unit :=
  λ w,
    if decide (length marks ≠ file_count (storage w)) then Throw LOGICAL_ERROR w
    else mfold write_one_mark tt (sort_marks marks) w.

(** *** write and writeSuffix *)

Definition write_columns (block : Block)
  : M LogBlockOutputStream (MarksForColumns * WrittenStreams) :=
  mfold (λ acc column,
           writeData (c_name column) (c_type column) (c_column column) acc.1 acc.2)
    ([], ∅) block.

Definition write (block : Block) : M LogBlockOutputStream unit :=
  check_block block ;;
  let* acc := write_columns block in
  writeMarks acc.1.

(** [Stream::finalize]. *)
Definition finalize (s : Stream) (disk : gmap string (list byte))
  : Stream * gmap string (list byte) :=
  let s' := compressed_next s in
  let '(plain', disk') := wb_next (plain s') disk in
  (mkStream plain' (compressed s') (plain_offset s'), disk').

(** The size checker is not part of this file; of [writeSuffix] the model
    keeps what reaches the marks file and the data files. *)
Definition writeSuffix : M LogBlockOutputStream unit :=
  λ w,
    if done w then Done tt w
    else
      let '(marks_stream', disk1) := wb_next (marks_stream w) (disk w) in
      let disk2 :=
        map_fold (λ _ s d, (finalize s d).2) disk1 (streams w) in
      Done tt (mkLogBlockOutputStream (storage w) true ∅ marks_stream' disk2).

(** [StorageLog::write]: the marks are loaded, then the writer is made. *)
Definition StorageLog_write (disk_ : gmap string (list byte))
  : M StorageLog LogBlockOutputStream :=
  loadMarks disk_ ;;
  λ st, Done (new_LogBlockOutputStream st disk_) st.

(** A run of [write] calls on one writer. *)
Definition write_all (blocks : list Block) : M LogBlockOutputStream unit :=
  mfold (λ _ block, write block) tt blocks.

(** ** Renaming the table *)

Fixpoint has_slash (p : string) : bool :=
  match p with
  | EmptyString => false
  | String c r => Ascii.eqb c "/"%char || has_slash r
  end.

(** [Poco::Path(p).getFileName()] on a path of the local file system: what
    follows the last '/'. *)
Fixpoint getFileName (p : string) : string :=
  match p with
  | EmptyString => EmptyString
  | String c r => if has_slash p then getFileName r else p
  end.

(** The assignments of [rename], made once the directory is moved: the
    descriptor takes the new path and name (the table name taken as already
    escaped) and rebinds the data files and the marks file under them, every
    data file keeping its file name.  The size checker is not part of this
    file. *)
Definition rebind_paths (new_path_to_db new_table_name : string) (st : StorageLog)
  : StorageLog :=
  let dir := (new_path_to_db +:+ new_table_name +:+ "/")%string in
  mkStorageLog new_path_to_db new_table_name (columns st)
    (max_compress_block_size st)
    ((λ file, mkColumnData (column_index file)
                (dir +:+ getFileName (data_file file)) (marks file))
       <$> files st)
    (column_names st) (file_count st)
    (dir +:+ DBMS_STORAGE_LOG_MARKS_FILE_NAME) (loaded_marks st).

(** [rename], on the descriptor and the files.  [Poco::File::renameTo],
    which moves the directory, is the file system's and not part of this
    file: it is the parameter [renameTo], an operation on the files that
    returns or raises.  It is called first, so an exception out of it leaves
    [rename] before any field of the descriptor is assigned. *)
Definition rename (renameTo : string → string → M (gmap string (list byte)) unit)
    (new_path_to_db new_table_name : string)
  : M (StorageLog * gmap string (list byte)) unit :=
  λ s,
    match renameTo (path s.1 +:+ name s.1) (new_path_to_db +:+ new_table_name) s.2
    with
    | Done _ disk' => Done tt (rebind_paths new_path_to_db new_table_name s.1, disk')
    | Throw e disk' => Throw e (s.1, disk')
    | Undefined => Undefined
    end.

(** ** Specification functions and invariants *)

(** The substream file names of a column list, column after column. *)
Definition all_stream_names (cols : list (string * DataType)) : list string :=
  cols ≫= (λ nt, stream_names nt.1 nt.2).

(** The names of a list in the order of their first occurrence, after the
    names already seen. *)
Definition first_encounter (seen l : list string) : list string :=
  foldl (λ acc x, if decide (x ∈ acc) then acc else acc ++ [x]) seen l.

(** [column_names] lists the substreams by [column_index], and
    [file_count] counts them. *)
Definition index_consistent (st : StorageLog) : Prop :=
  file_count st = length (column_names st)
  ∧ ∀ i n, column_names st !! i = Some n
           ↔ ∃ cd, files st !! n = Some cd ∧ column_index cd = i.

(** The record at position [j] of a marks file. *)
Definition record_at (content : list byte) (j : nat) : Mark :=
  read_mark (take sizeof_Mark (drop (sizeof_Mark * j) content)).

(** The mark vector of a substream. *)
Definition marks_of (st : StorageLog) (stream_name : string) : list Mark :=
  default [] (marks <$> files st !! stream_name).

(** What a descriptor keeps apart from the marks: the paths, the columns and
    the substreams with their index and data file. *)
Definition layout (st : StorageLog) :=
  (path st, name st, columns st, max_compress_block_size st,
   (λ cd, (column_index cd, data_file cd)) <$> files st,
   column_names st, file_count st, marks_file st).

Definition append_marks (ms : list Mark) (cd : ColumnData) : ColumnData :=
  mkColumnData (column_index cd) (data_file cd) (marks cd ++ ms).

(** The records of a marks file that belong to the substream of index [ci],
    one from each of the first [g] groups of [fc] records. *)
Definition records_of (content : list byte) (fc ci g : nat) : list Mark :=
  (λ k, record_at content (k * fc + ci)) <$> seq 0 g.

(** The slice of marks of a stream of a scan, as the spec words it. *)
Definition mark_begin_of (marks_size num_streams stream : Z) : Z :=
  (stream * marks_size / num_streams)%Z.
Definition mark_end_of (marks_size num_streams stream : Z) : Z :=
  ((stream + 1) * marks_size / num_streams)%Z.

(** [marks[i - 1].rows if i > 0 else 0]: the rows of the first [i] blocks. *)
Definition rows_upto (marks : list Mark) (i : Z) : Z :=
  if decide (0 < i)%Z then default 0%Z (rows <$> marks !! Z.to_nat (i - 1))
  else 0%Z.

(** The reader planned for a stream. *)
Definition planned_reader (column_names : list string) (max_block_size : Z)
    (max_read_buffer_size : Z) (marks : list Mark) (num_streams : Z)
    (stream : Z) : LogBlockInputStream :=
  let marks_size := Z.of_nat (length marks) in
  mkLogBlockInputStream max_block_size column_names
    (mark_begin_of marks_size num_streams stream)
    (wrap64 (rows_upto marks (mark_end_of marks_size num_streams stream)
             - rows_upto marks (mark_begin_of marks_size num_streams stream)))
    0 max_read_buffer_size.

(** The mark indices of the slice of a stream. *)
Definition slice_of (marks_size num_streams : Z) (stream : nat) : list nat :=
  let b := Z.to_nat (mark_begin_of marks_size num_streams (Z.of_nat stream)) in
  let e := Z.to_nat (mark_end_of marks_size num_streams (Z.of_nat stream)) in
  seq b (e - b).

Definition Zsum (l : list Z) : Z := foldr Z.add 0%Z l.

Definition rows_non_decreasing (marks : list Mark) : Prop :=
  ∀ i a b, marks !! i = Some a → marks !! S i = Some b → (rows a ≤ rows b)%Z.

(** The fields of a mark are [size_t]. *)
Definition rows_in_range (m : Mark) : Prop := (0 ≤ rows m < 2 ^ 64)%Z.
Definition Mark_in_range (m : Mark) : Prop :=
  rows_in_range m ∧ (0 ≤ offset m < 2 ^ 64)%Z.

(** The marks of a record-group that carry the index [ci]. *)
Definition marks_for (ci : nat) (marks : MarksForColumns) : list Mark :=
  snd <$> filter (λ m, m.1 = ci) marks.

(** The entry that [files[stream_name]] yields. *)
Definition file_of (st : StorageLog) (stream_name : string) : ColumnData :=
  (files_at stream_name (files st)).1.

(** What the stream getter of [writeData] answers to a request, given the
    substreams written by the columns before: null for one of them, else
    the buffer of the substream. *)
Definition getter_answer (name : string) (written_streams : WrittenStreams)
    (substream_path : SubstreamPath) : option string :=
  let stream_name := getFileNameForStream name substream_path in
  if decide (stream_name ∈ written_streams) then None else Some stream_name.

(** The stream that [try_emplace] constructs for a substream. *)
Definition fresh_stream (w : LogBlockOutputStream) (stream_name : string) : Stream :=
  let data_path := data_file (file_of (storage w) stream_name) in
  mkStream (mkWriteBufferFromFile data_path 0 []) []
    (Z.of_nat (length (file_content (disk w) data_path))).

(** How the writer can differ after the first callback of [writeData] has
    run some times: entries that [files[...]] inserted, streams that were
    opened, files that were created empty. *)
Definition opens (w w' : LogBlockOutputStream) : Prop :=
  (∀ n, file_of (storage w') n = file_of (storage w) n)
  ∧ (∀ n s, streams w !! n = Some s → streams w' !! n = Some s)
  ∧ (∀ n s, streams w' !! n = Some s → streams w !! n = None →
       s = fresh_stream w n)
  ∧ (∀ p, file_content (disk w') p = file_content (disk w) p)
  ∧ column_names (storage w') = column_names (storage w)
  ∧ file_count (storage w') = file_count (storage w)
  ∧ max_compress_block_size (storage w') = max_compress_block_size (storage w)
  ∧ columns (storage w') = columns (storage w)
  ∧ loaded_marks (storage w') = loaded_marks (storage w)
  ∧ marks_stream w' = marks_stream w
  ∧ done w' = done w.

(** The mark that the first callback of [writeData] makes for a substream
    of a column, in the writer [w] it starts from and [w'] it leaves. *)
Definition mark_emitted (w w' : LogBlockOutputStream) (name : string)
    (column : Column) (substream_path : SubstreamPath) (im : nat * Mark) : Prop :=
  let stream_name := getFileNameForStream name substream_path in
  let file := file_of (storage w) stream_name in
  im.1 = column_index file
  ∧ rows im.2 = wrap64 (last_rows (marks file) + Z.of_nat (column_size column))
  ∧ ∃ s, streams w' !! stream_name = Some s
      ∧ offset im.2 = wrap64 (plain_offset s + Z.of_nat (wb_count (plain s)))
      ∧ match streams w !! stream_name with
        | Some s0 => s = s0
        | None => s = fresh_stream w stream_name
        end.

(** The position in its data file that a substream has reached: the bytes
    in the file when its stream was opened and those the stream has given
    to its plain buffer; the size of the file while the stream is not
    open. *)
Definition data_pos (w : LogBlockOutputStream) (stream_name : string) : Z :=
  match streams w !! stream_name with
  | Some s => (plain_offset s + Z.of_nat (wb_count (plain s)))%Z
  | None =>
      Z.of_nat (length (file_content (disk w)
                          (data_file (file_of (storage w) stream_name))))
  end.

(** The stream of a substream, as [try_emplace] yields it. *)
Definition stream_at (w : LogBlockOutputStream) (stream_name : string) : Stream :=
  match streams w !! stream_name with
  | Some s => s
  | None => fresh_stream w stream_name
  end.

(** The mark of a substream for a block of [n_rows] rows written from [w]. *)
Definition mark_value (w : LogBlockOutputStream) (n_rows : nat)
    (stream_name : string) : nat * Mark :=
  let file := file_of (storage w) stream_name in
  (column_index file,
   mkMark (wrap64 (last_rows (marks file) + Z.of_nat n_rows))
          (wrap64 (data_pos w stream_name))).

(** The frames that leave a compressed buffer holding [pending] when [data]
    is written to it and it is flushed. *)
Definition frames_of (cap : nat) (pending data : list byte) : list byte :=
  let '(emitted, pending') := compressed_write cap pending data in
  emitted ++ match pending' with [] => [] | _ => compress pending' end.

(** The bytes that the serializer of a column writes to a substream. *)
Definition column_data (c : ColumnWithTypeAndName) (stream_name : string)
  : list byte :=
  filter (λ req, getFileNameForStream (c_name c) req.1 = stream_name)
    (serializeBinaryBulkWithMultipleStreams (c_type c) (c_column c))
  ≫= snd.

(** The bytes of a block for a substream: those of the first column of the
    block that has the substream. *)
Fixpoint block_data (block : Block) (stream_name : string) : list byte :=
  match block with
  | [] => []
  | c :: rest =>
      if decide (stream_name ∈ stream_names (c_name c) (c_type c))
      then column_data c stream_name
      else block_data rest stream_name
  end.

(** The substreams for which the columns of a block get a mark, in the
    order of the marks. *)
Fixpoint emitted_names (written_streams : WrittenStreams) (block : Block)
  : list string :=
  match block with
  | [] => []
  | c :: rest =>
      filter (λ n, n ∉ written_streams) (stream_names (c_name c) (c_type c))
      ++ emitted_names
           (list_to_set (stream_names (c_name c) (c_type c)) ∪ written_streams)
           rest
  end.

(** A descriptor as the constructor leaves it, whatever its marks: the
    substreams are indexed by [column_names], the column names are distinct,
    and the substreams are those of the columns. *)
Definition table_ok (st : StorageLog) : Prop :=
  index_consistent st
  ∧ NoDup (columns st).*1
  ∧ ∀ n, n ∈ column_names st ↔ n ∈ all_stream_names (columns st).

(** The serializer of a data type asks only for substreams that the data
    type enumerates. *)
Definition requests_enumerated : Prop :=
  ∀ (type : DataType) (column : Column) req,
    req ∈ serializeBinaryBulkWithMultipleStreams type column →
    req.1 ∈ enumerateStreams type.

(** All mark vectors have the same [rows], index by index. *)
Definition lock_step (st : StorageLog) : Prop :=
  ∀ s t cs ct, files st !! s = Some cs → files st !! t = Some ct →
    rows <$> marks cs = rows <$> marks ct.

(** The records of every group of a marks file have the same [rows]. *)
Definition marks_file_lock_step (fc : nat) (content : list byte) : Prop :=
  ∀ k i j, i < fc → j < fc → k < length content / (fc * sizeof_Mark) →
    rows (record_at content (k * fc + i)) = rows (record_at content (k * fc + j)).

(** The substream names of the columns of a block. *)
Definition block_names (block : Block) : list string :=
  block ≫= (λ c, stream_names (c_name c) (c_type c)).

(** The mark of a substream for a block of [n_rows] rows written from [w];
    its offset is the position of the substream in [w] when the
    serializers keep to their substreams. *)
Definition block_mark (w : LogBlockOutputStream) (n_rows : nat)
    (stream_name : string) (im : nat * Mark) : Prop :=
  let file := file_of (storage w) stream_name in
  im.1 = column_index file
  ∧ rows im.2 = wrap64 (last_rows (marks file) + Z.of_nat n_rows)
  ∧ (requests_enumerated → offset im.2 = wrap64 (data_pos w stream_name)).

(** A stream after the bytes of a block for it were written and flushed. *)
Definition write_stream (cap : nat) (data : list byte) (s : Stream) : Stream :=
  compressed_next (stream_write cap data s).

(** The bytes of the data file of a substream as the writer has made it:
    those in the file and those its plain buffer still holds. *)
Definition data_content (w : LogBlockOutputStream) (stream_name : string)
  : list byte :=
  file_content (disk w) (data_file (file_of (storage w) stream_name))
  ++ wb_pending (plain (stream_at w stream_name)).

(** The streams of a writer between two blocks: nothing is left in a
    compressed buffer, and a stream stands at the end of its data file. *)
Definition streams_flushed (w : LogBlockOutputStream) : Prop :=
  ∀ n s, streams w !! n = Some s →
    compressed s = []
    ∧ plain_offset s
      = Z.of_nat (length (file_content (disk w)
                            (data_file (file_of (storage w) n))))
    ∧ wb_count (plain s) = length (wb_pending (plain s)).

(** Every data file is in the directory of the table and is named after its
    substream. *)
Definition data_files_named (st : StorageLog) : Prop :=
  ∀ n cd, files st !! n = Some cd →
    data_file cd = table_dir st +:+ n +:+ DBMS_STORAGE_LOG_DATA_FILE_EXTENSION.

(** The frames that a run of blocks adds to the data file of a substream. *)
Definition blocks_frames (cap : nat) (blocks : list (Block))
    (stream_name : string) : list byte :=
  blocks ≫= (λ block, frames_of cap [] (block_data block stream_name)).

(** The marks that a run of blocks adds to a substream whose last mark has
    [rows0] rows and whose data file holds [pos0] bytes. *)
Fixpoint written_marks (cap : nat) (rows0 : Z) (pos0 : nat)
    (blocks : list (Block)) (stream_name : string)
  : list Mark :=
  match blocks with
  | [] => []
  | block :: rest =>
      let rows1 := wrap64 (rows0 + Z.of_nat (block_rows block)) in
      mkMark rows1 (wrap64 (Z.of_nat pos0))
      :: written_marks cap rows1
           (pos0 + length (frames_of cap [] (block_data block stream_name)))
           rest stream_name
  end.

(** The [rows] of the marks that a run of blocks adds after a mark of
    [rows0] rows. *)
Fixpoint running_rows (rows0 : Z) (blocks : list (Block))
  : list Z :=
  match blocks with
  | [] => []
  | block :: rest =>
      let rows1 := wrap64 (rows0 + Z.of_nat (block_rows block)) in
      rows1 :: running_rows rows1 rest
  end.

(** The number of rows of a run of blocks. *)
Definition total_rows (blocks : list (Block)) : Z :=
  Zsum ((λ block, Z.of_nat (block_rows block)) <$> blocks).

(** The marks file as a writer has made it: the bytes in the file and those
    that the marks stream still holds. *)
Definition marks_content (w : LogBlockOutputStream)
  : list byte :=
  file_content (disk w) (marks_file (storage w)) ++ wb_pending (marks_stream w).

(** The mark vectors are the marks file, transposed. *)
Definition marks_persisted (w : LogBlockOutputStream)
  : Prop :=
  let fc := file_count (storage w) in
  length (marks_content w) mod (fc * sizeof_Mark) = 0
  ∧ ∀ n cd, files (storage w) !! n = Some cd →
      marks cd
      = records_of (marks_content w) fc (column_index cd)
          (length (marks_content w) / (fc * sizeof_Mark)).

(** The streams of a writer are those of registered substreams, each on
    the data file of its substream. *)
Definition streams_on_files (w : LogBlockOutputStream)
  : Prop :=
  ∀ n s, streams w !! n = Some s →
    n ∈ column_names (storage w)
    ∧ wb_path (plain s) = data_file (file_of (storage w) n).

(** What the passes of [writeData] leave as it is, whether they return or
    raise: the mark vectors and the marks stream. *)
Definition same_marks (w w' : LogBlockOutputStream) : Prop :=
  (∀ n, marks_of (storage w') n = marks_of (storage w) n)
  ∧ marks_stream w' = marks_stream w.

End StorageLog.

(** ** The data types of the scenarios *)

Module Scenario.

(** Modelled from the spec: the data types of its scenarios, which are not
    part of this file.  A scalar column has one substream, named after the
    column; an array column has two, its sizes ([.size0], named after the
    nested table the column belongs to, so that the arrays of one nested
    structure share it) and its values (named after the column). *)
Inductive LogType :=
  | TNumber (width : nat)
  | TString
  | TArray (width : nat).

Definition UInt64 : LogType := TNumber 8.
Definition UInt32 : LogType := TNumber 4.

Global Instance LogType_eq_dec : EqDecision LogType.
Proof. solve_decision. Defined.

Inductive LogColumn :=
  | ColumnNumbers (values : list Z)
  | ColumnStrings (values : list string)
  | ColumnArrays (values : list (list Z)).

Fixpoint extractNestedTableName (s : string) : string :=
  match s with
  | EmptyString => EmptyString
  | String c r =>
      if Ascii.eqb c "."%char then EmptyString
      else String c (extractNestedTableName r)
  end.

Definition log_enumerateStreams (t : LogType) : list SubstreamPath :=
  match t with
  | TArray _ => [[ArraySizes]; [ArrayElements]]
  | _ => [[]]
  end.

Definition log_getFileNameForStream (column_name : string) (p : SubstreamPath)
  : string :=
  match last p with
  | Some ArraySizes => extractNestedTableName column_name +:+ ".size0"%string
  | _ => column_name
  end.

Definition bytes_of_string (s : string) : list byte :=
  byte_of_Z (Z.of_nat (String.length s)) :: String.list_byte_of_string s.

Definition log_serialize (t : LogType) (c : LogColumn)
  : list (SubstreamPath * list byte) :=
  match t, c with
  | TNumber w, ColumnNumbers vs => [([], vs ≫= le_bytes w)]
  | TString, ColumnStrings vs => [([], vs ≫= bytes_of_string)]
  | TArray w, ColumnArrays vs =>
      [([ArraySizes], vs ≫= (λ a, le_bytes 8 (Z.of_nat (length a))));
       ([ArrayElements], vs ≫= (λ a, a ≫= le_bytes w))]
  | _, _ => []
  end.

Definition log_column_size (c : LogColumn) : nat :=
  match c with
  | ColumnNumbers vs => length vs
  | ColumnStrings vs => length vs
  | ColumnArrays vs => length vs
  end.

Global Instance log_types : IDataType LogType LogColumn := {|
  enumerateStreams := log_enumerateStreams;
  getFileNameForStream := log_getFileNameForStream;
  serializeBinaryBulkWithMultipleStreams := log_serialize;
  isNullable := λ _, false;
  getNestedType := λ t, t;
  column_size := log_column_size;
|}.

(** A stand-in for the frame encoder: a frame is a length byte and the
    bytes. *)
Global Instance length_prefix_codec : Codec := {|
  compress := λ data, byte_of_Z (Z.of_nat (length data)) :: data;
|}.

(** S1: the table [T(a UInt64)] and the block [[1, 2, 3]]. *)
Definition columns_S1 : list (string * LogType) := [("a"%string, UInt64)].
Definition block_S1 : Block :=
  [mkColumnWithTypeAndName "a"%string UInt64 (ColumnNumbers [1; 2; 3]%Z)].

(** S3: the table [T(arr Array(UInt32))] and the block [[[1,2],[],[3]]]. *)
Definition columns_S3 : list (string * LogType) := [("arr"%string, TArray 4)].
Definition block_S3 : Block :=
  [mkColumnWithTypeAndName "arr"%string (TArray 4)
     (ColumnArrays [[1; 2]; []; [3]]%Z)].

(** The table of a descriptor that was constructed, or an empty one. *)
Definition table (columns_ : list (string * LogType)) : StorageLog :=
  match new_StorageLog "/db/"%string "T"%string columns_ 1024 with
  | inr st => st
  | inl _ => mkStorageLog EmptyString EmptyString [] 0 ∅ [] 0 EmptyString false
  end.

(** A writer on a table, over the given files. *)
Definition writer (columns_ : list (string * LogType))
    (disk_ : gmap string (list byte)) : LogBlockOutputStream :=
  match StorageLog_write disk_ (table columns_) with
  | Done w _ => w
  | _ => new_LogBlockOutputStream (table columns_) disk_
  end.

(** S2: the table [T(a UInt64, b String)] and two blocks. *)
Definition columns_S2 : list (string * LogType) :=
  [("a"%string, UInt64); ("b"%string, TString)].
Definition block_S2_1 : Block :=
  [mkColumnWithTypeAndName "a"%string UInt64 (ColumnNumbers [1; 2]%Z);
   mkColumnWithTypeAndName "b"%string TString
     (ColumnStrings ["x"%string; "yy"%string])].
Definition block_S2_2 : Block :=
  [mkColumnWithTypeAndName "a"%string UInt64 (ColumnNumbers [3]%Z);
   mkColumnWithTypeAndName "b"%string TString (ColumnStrings ["zzz"%string])].

(** The writer after a run of calls, or the writer as it was when a call
    did not return. *)
Definition after {A} (m : M (LogBlockOutputStream (DataType := LogType)) A)
    (w : LogBlockOutputStream) : LogBlockOutputStream :=
  match m w with
  | Done _ w' => w'
  | _ => w
  end.

(** The files of S2 after the two blocks were written and the writer was
    closed. *)
Definition disk_S2 : gmap string (list byte) :=
  Eval vm_compute in
    disk (after (write_all [block_S2_1; block_S2_2] ;; writeSuffix)
            (writer columns_S2 ∅)).

(** The descriptor of S2, made anew over these files, with its marks
    loaded. *)
Definition loaded_S2 : StorageLog :=
  Eval vm_compute in
    match loadMarks disk_S2 (table columns_S2) with
    | Done _ st => st
    | _ => table columns_S2
    end.

Definition marks_S2 : list Mark := [mkMark 2 0; mkMark 3 17].

(** The writer of S1 after one and after two blocks. *)
Definition writer_S1_1 : LogBlockOutputStream :=
  Eval vm_compute in after (write block_S1) (writer columns_S1 ∅).
Definition writer_S1_2 : LogBlockOutputStream :=
  Eval vm_compute in after (write block_S1) writer_S1_1.

(** The writer of S1 in the middle of [writeData]: after the marks of the
    column were made, and after one request of the serializer. *)
Definition writer_S1_marked : LogBlockOutputStream :=
  Eval vm_compute in
    after (writeData_marks "a"%string UInt64 (ColumnNumbers [1; 2; 3]%Z) [] ∅)
      (writer columns_S1 ∅).
Definition writer_S1_requested : LogBlockOutputStream :=
  Eval vm_compute in
    after (serialize_request "a"%string ∅ [] ([], le_bytes 8 1)) writer_S1_marked.

(** The writer of S1 after [writeData] on the column of the block. *)
Definition writer_S1_written : LogBlockOutputStream :=
  Eval vm_compute in
    after (writeData "a"%string UInt64 (ColumnNumbers [1; 2; 3]%Z) [] ∅)
      (writer columns_S1 ∅).

(** The writer of S3 after two blocks. *)
Definition writer_S3_2 : LogBlockOutputStream :=
  Eval vm_compute in
    after (write_all [block_S3; block_S3]) (writer columns_S3 ∅).

(** The writer of S2 after its two blocks, and after it was finished. *)
Definition writer_S2_2 : LogBlockOutputStream :=
  Eval vm_compute in
    after (write_all [block_S2_1; block_S2_2]) (writer columns_S2 ∅).
Definition writer_S2_closed : LogBlockOutputStream :=
  Eval vm_compute in after writeSuffix writer_S2_2.


(** A writer on the table of S3 whose descriptor counts three files where
    there are two, so that the block of S3 gets as far as [writeMarks] and
    is refused there; and the writer as the refused call leaves it. *)
Definition writer_S3_miscounted : LogBlockOutputStream :=
  let w := writer columns_S3 ∅ in
  let st := storage w in
  set_storage
    (mkStorageLog (path st) (name st) (columns st) (max_compress_block_size st)
       (files st) (column_names st) 3 (marks_file st) (loaded_marks st)) w.
Definition writer_S3_refused : LogBlockOutputStream :=
  Eval vm_compute in
    match write block_S3 writer_S3_miscounted with
    | Throw _ w' => w'
    | _ => writer_S3_miscounted
    end.

(** The files of S3 after two blocks were written and the writer was
    closed. *)
Definition disk_S3 : gmap string (list byte) :=
  Eval vm_compute in disk (after writeSuffix writer_S3_2).

(** A directory move on the flat file system of the scenarios: the files
    under [from/] go under [to/]; the move is refused, with the error of
    the IO layer, when there is a file under [to/] already. *)
Definition under (dir p : string) : bool := String.prefix (dir +:+ "/") p.

Definition moved (from to p : string) : string :=
  if under from p
  then to +:+ String.substring (String.length from)
                (String.length p - String.length from) p
  else p.

Definition move_directory (from to : string) : M (gmap string (list byte)) unit :=
  λ disk_,
    if existsb (λ kv, under to kv.1) (map_to_list disk_)
    then Throw CANNOT_OPEN_FILE disk_
    else Done tt (list_to_map ((λ kv, (moved from to kv.1, kv.2))
                                 <$> map_to_list disk_)).

End Scenario.

(** ** A data-type layer with escaped file names *)

Module Escaped.

(** The interface leaves the file name of a substream to the data-type
    layer.  This layer writes the column name into it the way the engine
    writes the table name into the name of the directory, escaped: every
    character other than a letter, a digit or '_' becomes '%' and its two
    hexadecimal digits.  Its one type is a scalar, with one substream. *)
Inductive EscType := EscNumber.

Global Instance EscType_eq_dec : EqDecision EscType.
Proof. solve_decision. Defined.

Definition is_word_char (c : ascii) : bool :=
  let n := nat_of_ascii c in
  ((48 <=? n) && (n <=? 57)) || ((65 <=? n) && (n <=? 90))
  || ((97 <=? n) && (n <=? 122)) || (n =? 95).

Definition hex_digit (n : nat) : ascii :=
  ascii_of_nat (if n <? 10 then 48 + n else 55 + n).

Fixpoint escaped (s : string) : string :=
  match s with
  | EmptyString => EmptyString
  | String c r =>
      if is_word_char c then String c (escaped r)
      else String "%"%char
             (String (hex_digit (nat_of_ascii c / 16))
                (String (hex_digit (nat_of_ascii c mod 16)) (escaped r)))
  end.

Global Instance esc_types : IDataType EscType (list Z) := {|
  enumerateStreams := λ _, [[]];
  getFileNameForStream := λ column_name _, escaped column_name;
  serializeBinaryBulkWithMultipleStreams := λ _ vs, [([], vs ≫= le_bytes 8)];
  isNullable := λ _, false;
  getNestedType := λ t, t;
  column_size := λ vs, length vs;
|}.


End Escaped.

(** * Properties *)

Section Properties.

Context {DataType Column : Type}.
Context `{!IDataType DataType Column} `{!EqDecision DataType} `{!Codec}.

Implicit Types (st : StorageLog (DataType := DataType)).

(** ** The constructor *)

Lemma index_consistent_keys st n :
  index_consistent st → n ∈ column_names st ↔ is_Some (files st !! n).
Proof.
  intros [_ Hix]. rewrite list_elem_of_lookup. split.
  - intros [i Hi]. apply Hix in Hi as (cd & Hcd & _). eauto.
  - intros [cd Hcd]. exists (column_index cd). apply Hix. eauto.
Qed.

Lemma index_consistent_NoDup st :
  index_consistent st → NoDup (column_names st).
Proof.
  intros [_ Hix]. apply NoDup_alt. intros i j n Hi Hj.
  apply Hix in Hi as (cd & Hcd & <-). apply Hix in Hj as (cd' & Hcd' & <-).
  congruence.
Qed.

Lemma stream_callback_consistent column_name st p :
  index_consistent st → index_consistent (stream_callback column_name st p).
Proof.
  intros Hst. unfold stream_callback.
  destruct (files st !! _) as [cd|] eqn:Hf; [done|].
  destruct Hst as [Hfc Hix]. split; simpl.
  - rewrite length_app. simpl. lia.
  - intros i n. set (s := getFileNameForStream column_name p) in *.
    destruct (decide (n = s)) as [->|Hne].
    + rewrite lookup_insert_eq. split.
      * intros Hi. eexists; split; [done|]. simpl.
        destruct (decide (i < length (column_names st))) as [Hlt|Hge].
        -- rewrite lookup_app_l in Hi by done. apply Hix in Hi as (cd & Hcd & _).
           congruence.
        -- rewrite lookup_app_r in Hi by lia.
           apply list_lookup_singleton_Some in Hi as [Hi _]. lia.
      * intros (cd & [= <-] & <-). simpl. rewrite Hfc.
        rewrite lookup_app_r by lia. by rewrite Nat.sub_diag.
    + rewrite lookup_insert_ne by done. rewrite <- Hix. split.
      * intros Hi. destruct (decide (i < length (column_names st))) as [Hlt|Hge].
        -- by rewrite lookup_app_l in Hi.
        -- rewrite lookup_app_r in Hi by lia.
           apply list_lookup_singleton_Some in Hi as [_ Hi]. congruence.
      * intros Hi. rewrite lookup_app_l; [done|]. by eapply lookup_lt_Some.
Qed.

Lemma stream_callback_column_names column_name st p :
  index_consistent st →
  column_names (stream_callback column_name st p)
  = first_encounter (column_names st) [getFileNameForStream column_name p].
Proof.
  intros Hst. unfold stream_callback, first_encounter. simpl.
  pose proof (index_consistent_keys st (getFileNameForStream column_name p) Hst) as Hk.
  destruct (files st !! _) as [cd|] eqn:Hf; case_decide as Hin; simpl; try done.
  - exfalso. apply Hin, Hk. eauto.
  - apply Hk in Hin as [? ?]. congruence.
Qed.

Lemma first_encounter_app seen l1 l2 :
  first_encounter seen (l1 ++ l2) = first_encounter (first_encounter seen l1) l2.
Proof. unfold first_encounter. by rewrite foldl_app. Qed.

Lemma foldl_stream_callback column_name ps st :
  index_consistent st →
  index_consistent (foldl (stream_callback column_name) st ps)
  ∧ column_names (foldl (stream_callback column_name) st ps)
    = first_encounter (column_names st) (getFileNameForStream column_name <$> ps).
Proof.
  revert st. induction ps as [|p ps IH]; intros st Hst; simpl; [done|].
  destruct (IH (stream_callback column_name st p)) as [H1 H2].
  { by apply stream_callback_consistent. }
  split; [done|]. by rewrite H2, stream_callback_column_names.
Qed.

Lemma addFiles_each_spec cols st st' :
  index_consistent st →
  addFiles_each cols st = inr st' →
  index_consistent st'
  ∧ column_names st' = first_encounter (column_names st) (all_stream_names cols).
Proof.
  revert st. induction cols as [|[n t] cols IH]; intros st Hst Hrun; simpl in *.
  - inversion Hrun; subst. split; [done|reflexivity].
  - unfold addFiles in Hrun. destruct (files st !! n) eqn:Hn; [done|].
    destruct (foldl_stream_callback n (enumerateStreams t) st Hst) as [H1 H2].
    destruct (IH _ H1 Hrun) as [H3 H4]. split; [done|].
    unfold all_stream_names. simpl. rewrite first_encounter_app.
    unfold stream_names at 1. simpl. by rewrite <- H2.
Qed.

Lemma addFiles_each_error cols st e :
  addFiles_each cols st = inl e → e = DUPLICATE_COLUMN.
Proof.
  revert st. induction cols as [|[n t] cols IH]; intros st Hrun; simpl in *; [done|].
  unfold addFiles in Hrun. destruct (files st !! n); [congruence|]. eauto.
Qed.

Lemma elem_of_first_encounter seen l x :
  x ∈ first_encounter seen l ↔ x ∈ seen ∨ x ∈ l.
Proof.
  revert seen. induction l as [|y l IH]; intros seen; simpl.
  - unfold first_encounter. simpl. rewrite elem_of_nil. tauto.
  - change (first_encounter seen (y :: l))
      with (first_encounter (if decide (y ∈ seen) then seen else seen ++ [y]) l).
    rewrite IH, elem_of_cons.
    case_decide; rewrite ?elem_of_app, ?list_elem_of_singleton;
      intuition (subst; auto).
Qed.

Lemma addFiles_each_columns cols st st' :
  addFiles_each cols st = inr st' → columns st' = columns st.
Proof.
  revert st. induction cols as [|[n t] cols IH]; intros st Hrun; simpl in *.
  - by inversion Hrun.
  - unfold addFiles in Hrun. destruct (files st !! n); [done|].
    rewrite (IH _ Hrun). clear. generalize (enumerateStreams t) as ps.
    intros ps. revert st. induction ps as [|p ps IHp]; intros st; simpl; [done|].
    rewrite IHp. unfold stream_callback. by destruct (files _ !! _).
Qed.

Lemma addFiles_each_app l1 l2 st :
  addFiles_each (l1 ++ l2) st
  = match addFiles_each l1 st with
    | inl e => inl e
    | inr st' => addFiles_each l2 st'
    end.
Proof.
  revert st. induction l1 as [|[n t] l1 IH]; intros st; simpl; [done|].
  destruct (addFiles n t st); [done|]. apply IH.
Qed.

Lemma addFiles_each_registered l1 n t l2 st :
  index_consistent st →
  n ∈ column_names st ∨ n ∈ all_stream_names l1 →
  addFiles_each (l1 ++ (n, t) :: l2) st = inl DUPLICATE_COLUMN.
Proof.
  intros Hst Hn. rewrite addFiles_each_app.
  destruct (addFiles_each l1 st) as [e|st1] eqn:H1.
  - by rewrite (addFiles_each_error _ _ _ H1).
  - destruct (addFiles_each_spec _ _ _ Hst H1) as [Hst1 Hnames].
    assert (is_Some (files st1 !! n)) as [cd Hcd].
    { apply index_consistent_keys; [done|].
      rewrite Hnames. by apply elem_of_first_encounter. }
    simpl. unfold addFiles. by rewrite Hcd.
Qed.


Lemma empty_table_consistent path_ name_ (columns_ : list (string * DataType)) mcbs :
  index_consistent
    (mkStorageLog path_ name_ columns_ mcbs ∅ [] 0 EmptyString false).
Proof.
  split; [done|]. intros i n. simpl. rewrite lookup_nil, lookup_empty.
  split; [done|]. by intros (? & ? & ?).
Qed.


(** C10.  A column whose name is the file name of a substream registered
    for an earlier column makes the constructor raise DUPLICATE_COLUMN,
    whether or not the column names are distinct: [addFiles] looks the
    column name up among the substream names. *)
Theorem new_StorageLog_substream_name_clash path_ name_ mcbs
    (l1 l2 : list (string * DataType)) n t :
  n ∈ all_stream_names l1 →
  new_StorageLog path_ name_ (l1 ++ (n, t) :: l2) mcbs = inl DUPLICATE_COLUMN.
Proof.
  intros Hn. unfold new_StorageLog.
  destruct (l1 ++ (n, t) :: l2) as [|c cols] eqn:Hcols.
  { by destruct l1. }
  rewrite <- Hcols. unfold getColumnsList. simpl columns.
  rewrite addFiles_each_registered; auto.
  apply empty_table_consistent.
Qed.

(** ** loadMarks *)

Lemma layout_lookup st st' n :
  layout st' = layout st →
  (λ cd, (column_index cd, data_file cd)) <$> files st' !! n
  = (λ cd, (column_index cd, data_file cd)) <$> files st !! n.
Proof.
  intros Hl. unfold layout in Hl. rewrite <- !lookup_fmap.
  by injection Hl as _ _ _ _ -> _ _ _.
Qed.

Lemma index_consistent_layout st st' :
  layout st' = layout st → index_consistent st → index_consistent st'.
Proof.
  intros Hl [Hfc Hix]. pose proof Hl as Hl'. unfold layout in Hl'.
  injection Hl' as _ _ _ _ _ Hcn Hfc' _. split; [congruence|].
  intros i n. rewrite Hcn, Hix.
  pose proof (layout_lookup st st' n Hl) as Hn.
  destruct (files st' !! n) as [cd'|], (files st !! n) as [cd|];
    simpl in Hn; try done.
  injection Hn as Hi _. split; intros (? & [= <-] & <-); eauto.
Qed.

Lemma layout_alter_marks st n (f : ColumnData → ColumnData) :
  (∀ cd, column_index (f cd) = column_index cd ∧ data_file (f cd) = data_file cd) →
  layout (set_files (alter f n (files st)) st) = layout st.
Proof.
  intros Hf.
  assert ((λ cd, (column_index cd, data_file cd)) <$> alter f n (files st)
          = (λ cd, (column_index cd, data_file cd)) <$> files st) as Heq.
  { apply map_eq. intros k. rewrite !lookup_fmap, lookup_alter.
    case_decide; [subst|done]. destruct (files st !! k) as [cd|]; [|done].
    simpl. destruct (Hf cd) as [-> ->]. done. }
  unfold layout. simpl. by rewrite Heq.
Qed.

Lemma files_by_index_fold (names : list string) l v :
  (∀ kv, kv ∈ l → names !! column_index kv.2 = Some kv.1) →
  length v = length names →
  ∃ v', foldl files_by_index_step (Some v) l = Some v'
        ∧ length v' = length names
        ∧ (∀ i, v !! i = Some (names !! i) → v' !! i = Some (names !! i))
        ∧ (∀ kv, kv ∈ l →
             v' !! column_index kv.2 = Some (names !! column_index kv.2)).
Proof.
  revert v. induction l as [|kv l IH]; intros v Hl Hlen; simpl.
  { exists v. repeat split; auto. intros kv Hkv. by apply elem_of_nil in Hkv. }
  pose proof (Hl kv (list_elem_of_here _ _)) as Hkv.
  assert (column_index kv.2 < length v) as Hlt.
  { rewrite Hlen. by eapply lookup_lt_Some. }
  rewrite decide_True by done.
  destruct (IH (<[column_index kv.2 := Some kv.1]> v)) as (v' & Hrun & Hlen' & Hkeep & Hset).
  { intros kv' Hin. apply Hl. by apply list_elem_of_further. }
  { by rewrite length_insert. }
  assert (∀ i, v !! i = Some (names !! i) →
            <[column_index kv.2 := Some kv.1]> v !! i = Some (names !! i)) as Hstep.
  { intros i Hi. destruct (decide (i = column_index kv.2)) as [->|Hne].
    - rewrite list_lookup_insert_eq by done. by rewrite Hkv.
    - by rewrite list_lookup_insert_ne. }
  exists v'. repeat split; auto.
  intros kv' Hin. apply elem_of_cons in Hin as [->|Hin]; [|by apply Hset].
  apply Hkeep. rewrite list_lookup_insert_eq by done. by rewrite Hkv.
Qed.

Lemma None_not_in_Some {A} (l : list A) : None ∉ Some <$> l.
Proof. intros Hin. by apply list_elem_of_fmap in Hin as (? & ? & _). Qed.

Lemma files_by_index_consistent st :
  index_consistent st → files_by_index st = Some (Some <$> column_names st).
Proof.
  intros [Hfc Hix]. unfold files_by_index.
  assert (∀ kv, kv ∈ files_in_key_order (files st) → files st !! kv.1 = Some kv.2)
    as Hmem.
  { intros [k cd] Hin. unfold files_in_key_order in Hin.
    rewrite merge_sort_Permutation in Hin. by apply elem_of_map_to_list in Hin. }
  destruct (files_by_index_fold (column_names st) (files_in_key_order (files st))
              (replicate (file_count st) None)) as (v' & -> & Hlen & _ & Hset).
  { intros kv Hin. apply Hix. eauto. }
  { by rewrite length_replicate. }
  f_equal. apply list_eq. intros i. rewrite list_lookup_fmap.
  destruct (column_names st !! i) as [n|] eqn:Hn; simpl.
  - pose proof Hn as Hn'. apply Hix in Hn' as (cd & Hcd & <-).
    assert ((n, cd) ∈ files_in_key_order (files st)) as Hin.
    { unfold files_in_key_order. rewrite merge_sort_Permutation.
      by apply elem_of_map_to_list. }
    apply Hset in Hin. simpl in Hin. by rewrite Hin, Hn.
  - apply lookup_ge_None. rewrite Hlen. by apply lookup_ge_None.
Qed.

Lemma record_at_drop rb j :
  record_at (drop sizeof_Mark rb) j = record_at rb (S j).
Proof.
  unfold record_at. rewrite drop_drop.
  by replace (sizeof_Mark + sizeof_Mark * j) with (sizeof_Mark * S j) by lia.
Qed.

Lemma record_at_drop_group rb fc k j :
  record_at (drop (sizeof_Mark * fc) rb) (k * fc + j) = record_at rb (S k * fc + j).
Proof.
  unfold record_at. rewrite drop_drop.
  by replace (sizeof_Mark * fc + sizeof_Mark * (k * fc + j))
    with (sizeof_Mark * (S k * fc + j)) by lia.
Qed.

Lemma read_group_spec ns rb st :
  NoDup ns →
  sizeof_Mark * length ns ≤ length rb →
  ∃ st', read_group (Some <$> ns) rb st
         = Done (drop (sizeof_Mark * length ns) rb) st'
    ∧ layout st' = layout st
    ∧ loaded_marks st' = loaded_marks st
    ∧ (∀ j n, ns !! j = Some n →
         files st' !! n = push_back_mark (record_at rb j) <$> files st !! n)
    ∧ (∀ n, n ∉ ns → files st' !! n = files st !! n).
Proof.
  revert rb st. induction ns as [|n0 ns IH]; intros rb st Hnd Hlen.
  { exists st. rewrite Nat.mul_0_r. simpl. repeat split; auto.
    intros j n Hj. by rewrite lookup_nil in Hj. }
  apply NoDup_cons in Hnd as [Hn0 Hnd]. cbn [length] in Hlen.
  cbn [fmap list_fmap read_group].
  rewrite decide_False by (unfold sizeof_Mark in *; lia).
  unfold mbind at 1. unfold modify at 1.
  set (st1 := set_files _ st).
  destruct (IH (drop sizeof_Mark rb) st1 Hnd) as (st' & Hrun & Hlay & Hld & Hin & Hout).
  { rewrite length_drop. unfold sizeof_Mark in *. lia. }
  exists st'. rewrite Hrun. split; [|split; [|split; [|split]]].
  - rewrite drop_drop. cbn [length].
    by replace (sizeof_Mark + sizeof_Mark * length ns)
      with (sizeof_Mark * S (length ns)) by lia.
  - rewrite Hlay. apply layout_alter_marks. by intros [].
  - by rewrite Hld.
  - intros [|j] n Hj; simpl in Hj.
    + injection Hj as ->. rewrite Hout by done. subst st1. simpl.
      rewrite lookup_alter_eq. unfold record_at.
      by rewrite Nat.mul_0_r.
    + rewrite (Hin j n Hj), record_at_drop. subst st1. simpl.
      rewrite lookup_alter_ne; [done|]. intros ->.
      apply Hn0. by eapply list_elem_of_lookup_2.
  - intros n Hn. apply not_elem_of_cons in Hn as [Hne Hn].
    rewrite Hout by done. subst st1. simpl. by rewrite lookup_alter_ne.
Qed.

Lemma append_marks_nil cd : append_marks [] cd = cd.
Proof. destruct cd. unfold append_marks. simpl. by rewrite app_nil_r. Qed.

Lemma append_marks_push m ms cd :
  append_marks ms (push_back_mark m cd) = append_marks (m :: ms) cd.
Proof. unfold append_marks, push_back_mark. simpl. by rewrite <- app_assoc. Qed.

Lemma read_marks_file_spec ns g : ∀ rb st fuel,
  NoDup ns →
  0 < length ns →
  length rb = g * (sizeof_Mark * length ns) →
  length rb ≤ fuel →
  ∃ st', read_marks_file fuel (Some <$> ns) rb st = Done tt st'
    ∧ layout st' = layout st
    ∧ loaded_marks st' = loaded_marks st
    ∧ (∀ j n, ns !! j = Some n →
         files st' !! n
         = append_marks (records_of rb (length ns) j g) <$> files st !! n)
    ∧ (∀ n, n ∉ ns → files st' !! n = files st !! n).
Proof.
  induction g as [|g IH]; intros rb st fuel Hnd Hpos Hlen Hfuel.
  { destruct rb; [|done]. exists st. destruct fuel; simpl; repeat split; auto.
    all: intros j n Hj; unfold records_of; simpl;
      destruct (files st !! n); simpl; by rewrite ?append_marks_nil. }
  assert (sizeof_Mark * length ns ≤ length rb) as Hgroup by lia.
  assert (0 < sizeof_Mark * length ns) as Hgpos by (unfold sizeof_Mark; lia).
  destruct rb as [|b rb0] eqn:Hrb; [simpl in *; lia|]. rewrite <- Hrb in *.
  destruct fuel as [|fuel]; [rewrite Hrb in Hfuel; simpl in Hfuel; lia|].
  destruct (read_group_spec ns rb st Hnd Hgroup)
    as (st1 & Hrun1 & Hlay1 & Hld1 & Hin1 & Hout1).
  destruct (IH (drop (sizeof_Mark * length ns) rb) st1 fuel Hnd Hpos)
    as (st' & Hrun & Hlay & Hld & Hin & Hout).
  { rewrite length_drop. lia. }
  { rewrite length_drop. lia. }
  exists st'. split; [|split; [|split; [|split]]].
  - rewrite Hrb. cbn [read_marks_file]. rewrite <- Hrb.
    unfold mbind. by rewrite Hrun1.
  - congruence.
  - congruence.
  - intros j n Hj. rewrite (Hin j n Hj), (Hin1 j n Hj).
    destruct (files st !! n) as [cd|]; [|done]. simpl. f_equal.
    rewrite append_marks_push. f_equal. unfold records_of.
    cbn [seq fmap list_fmap]. f_equal. rewrite <- fmap_S_seq, <- list_fmap_compose.
    apply list_fmap_ext. intros _ k _. simpl. apply record_at_drop_group.
  - intros n Hn. by rewrite Hout, Hout1.
Qed.

Lemma new_StorageLog_consistent path_ name_ (columns_ : list (string * DataType))
    mcbs st :
  new_StorageLog path_ name_ columns_ mcbs = inr st →
  index_consistent st
  ∧ columns st = columns_
  ∧ column_names st = first_encounter [] (all_stream_names columns_)
  ∧ loaded_marks st = false.
Proof.
  unfold new_StorageLog. destruct columns_ as [|c cols]; [done|].
  unfold getColumnsList. simpl columns.
  set (st0 := mkStorageLog _ _ _ _ _ _ _ _ _).
  destruct (addFiles_each (c :: cols) st0) as [|st1] eqn:Hrun; [done|].
  intros [= <-].
  destruct (addFiles_each_spec _ _ _
              (empty_table_consistent path_ name_ (c :: cols) mcbs) Hrun)
    as [Hst1 Hnames].
  pose proof (addFiles_each_columns _ _ _ Hrun) as Hcols.
  repeat split; try done; try apply Hst1.
  clear -Hrun. change false with (loaded_marks st0). simpl loaded_marks at 1.
  revert Hrun. generalize (c :: cols) as l. generalize st0 as st. clear.
  intros st l. revert st. induction l as [|[n t] l IH]; intros st Hrun; simpl in *.
  - by inversion Hrun.
  - unfold addFiles in Hrun. destruct (files st !! n); [done|].
    rewrite (IH _ Hrun). clear. generalize (enumerateStreams t) as ps.
    intros ps. revert st. induction ps as [|p ps IHp]; intros st; simpl; [done|].
    rewrite IHp. unfold stream_callback. by destruct (files _ !! _).
Qed.

Lemma loadMarks_loaded disk st st' :
  loadMarks disk st = Done tt st' → loaded_marks st' = true.
Proof.
  unfold loadMarks. destruct (loaded_marks st) eqn:Hl; [by intros [= <-]|].
  destruct (files_by_index st) as [fbi|]; [|done].
  destruct (disk !! marks_file st) as [content|]; [|by intros [= <-]].
  repeat case_decide; try done.
  unfold mbind. destruct (read_marks_file _ _ _ _); try done.
  by intros [= <-].
Qed.

Lemma loadMarks_again disk st :
  loaded_marks st = true → loadMarks disk st = Done tt st.
Proof. intros Hl. unfold loadMarks. by rewrite Hl. Qed.

(** C5.  [loadMarks] is idempotent: after a call that returned, any further
    call returns and leaves the descriptor as it is.  On a descriptor whose
    marks are not loaded: without a marks file the call returns and only
    sets [loaded_marks]; with a marks file whose size is not a multiple of
    [file_count * 16] it raises SIZES_OF_MARKS_FILES_ARE_INCONSISTENT and
    changes nothing; otherwise it returns, and every substream has got
    [file_size / (file_count * 16)] more marks, the [k]-th of them read from
    record [k * file_count + column_index] of the file. *)
Theorem loadMarks_spec disk st :
  index_consistent st →
  0 < file_count st →
  (∀ st', loadMarks disk st = Done tt st' →
     ∀ disk', loadMarks disk' st' = Done tt st')
  ∧ (loaded_marks st = false → disk !! marks_file st = None →
       loadMarks disk st = Done tt (set_loaded_marks true st))
  ∧ (∀ content,
       loaded_marks st = false → disk !! marks_file st = Some content →
       length content mod (file_count st * sizeof_Mark) ≠ 0 →
       loadMarks disk st = Throw SIZES_OF_MARKS_FILES_ARE_INCONSISTENT st)
  ∧ (∀ content,
       loaded_marks st = false → disk !! marks_file st = Some content →
       length content mod (file_count st * sizeof_Mark) = 0 →
       ∃ st', loadMarks disk st = Done tt st'
         ∧ loaded_marks st' = true
         ∧ layout st' = layout st
         ∧ ∀ n cd, files st !! n = Some cd →
             ∃ loaded, marks_of st' n = marks cd ++ loaded
               ∧ length loaded = length content / (file_count st * sizeof_Mark)
               ∧ ∀ k, k < length loaded →
                   loaded !! k
                   = Some (record_at content (k * file_count st + column_index cd))).
Proof.
  intros Hst Hpos. split; [|split; [|split]].
  - intros st' Hrun disk'. apply loadMarks_again. by eapply loadMarks_loaded.
  - intros Hl Hfile. unfold loadMarks.
    by rewrite Hl, (files_by_index_consistent st Hst), Hfile.
  - intros content Hl Hfile Hmod. unfold loadMarks.
    rewrite Hl, (files_by_index_consistent st Hst), Hfile.
    rewrite decide_False by (unfold sizeof_Mark; lia).
    by rewrite decide_True.
  - intros content Hl Hfile Hmod. unfold loadMarks.
    rewrite Hl, (files_by_index_consistent st Hst), Hfile.
    rewrite decide_False by (unfold sizeof_Mark; lia).
    rewrite decide_False by (intros Hne; by apply Hne).
    rewrite decide_False by apply None_not_in_Some.
    pose proof Hst as [Hfc Hix].
    set (g := length content / (file_count st * sizeof_Mark)).
    destruct (read_marks_file_spec (column_names st) g content st (length content))
      as (st1 & Hrun & Hlay & Hld & Hin & Hout).
    { by apply index_consistent_NoDup. }
    { lia. }
    { subst g. rewrite <- Hfc.
      apply Nat.Div0.div_exact in Hmod. rewrite Hmod at 1.
      unfold sizeof_Mark. lia. }
    { done. }
    exists (set_loaded_marks true st1). unfold mbind. rewrite Hrun.
    split; [done|]. split; [done|]. split.
    { rewrite <- Hlay. done. }
    intros n cd Hcd.
    assert (column_names st !! column_index cd = Some n) as Hn.
    { apply Hix. eauto. }
    exists (records_of content (file_count st) (column_index cd) g).
    split; [|split].
    + unfold marks_of. simpl. rewrite (Hin _ _ Hn), Hcd. simpl. by rewrite Hfc.
    + unfold records_of. by rewrite length_fmap, length_seq.
    + intros k Hk. unfold records_of in *. rewrite length_fmap, length_seq in Hk.
      rewrite list_lookup_fmap, lookup_seq_lt by done. done.
Qed.

(** ** Planning a scan *)

Lemma wrap64_small z : (0 ≤ z < 2 ^ 64)%Z → wrap64 z = z.
Proof. intros Hz. unfold wrap64. by apply Z.mod_small. Qed.

Lemma mapM_fmap_total {A B} (f : A → option B) (g : A → B) (l : list A) :
  (∀ x, x ∈ l → f x = Some (g x)) → mapM f l = Some (g <$> l).
Proof.
  induction l as [|x l IH]; intros Hf; [done|].
  cbn [mapM]. rewrite (Hf x) by apply list_elem_of_here. simpl.
  rewrite IH; [done|]. intros y Hy. apply Hf. by apply list_elem_of_further.
Qed.

Lemma clamp_num_streams_min marks_size num_streams :
  (0 ≤ marks_size)%Z → (0 ≤ num_streams < 2 ^ 32)%Z →
  clamp_num_streams marks_size num_streams = Z.min num_streams marks_size.
Proof.
  intros HM Hn. unfold clamp_num_streams, wrap32. case_decide.
  - rewrite Z.mod_small; lia.
  - lia.
Qed.

Section slices.
Variables (M n : Z).
Hypothesis HM : (0 ≤ M)%Z.
Hypothesis Hn : (0 < n)%Z.

Lemma mark_begin_of_0 : mark_begin_of M n 0 = 0%Z.
Proof. unfold mark_begin_of. by rewrite Z.mul_0_l. Qed.

Lemma mark_begin_of_last : mark_begin_of M n n = M.
Proof. unfold mark_begin_of. rewrite Z.mul_comm. apply Z.div_mul. lia. Qed.

Lemma mark_end_of_next k : mark_end_of M n k = mark_begin_of M n (k + 1).
Proof. done. Qed.

Lemma mark_begin_of_mono j k :
  (0 ≤ j ≤ k)%Z → (mark_begin_of M n j ≤ mark_begin_of M n k)%Z.
Proof. intros Hjk. unfold mark_begin_of. apply Z.div_le_mono; nia. Qed.

Lemma mark_begin_of_nonneg k : (0 ≤ k)%Z → (0 ≤ mark_begin_of M n k)%Z.
Proof. intros Hk. unfold mark_begin_of. apply Z.div_pos; nia. Qed.

Lemma mark_begin_of_le k : (0 ≤ k ≤ n)%Z → (mark_begin_of M n k ≤ M)%Z.
Proof.
  intros Hk. rewrite <- mark_begin_of_last at 2. by apply mark_begin_of_mono.
Qed.
End slices.

Lemma rows_upto_lookup marks i :
  (0 ≤ i ≤ Z.of_nat (length marks))%Z →
  (if decide (i = 0%Z) then Some 0%Z else rows <$> marks_at marks (i - 1))
  = Some (rows_upto marks i).
Proof.
  intros Hi. unfold rows_upto, marks_at. case_decide as H0.
  - subst. by rewrite decide_False by lia.
  - rewrite decide_True by lia. rewrite decide_True by lia.
    destruct (lookup_lt_is_Some_2 marks (Z.to_nat (i - 1))) as [m Hm]; [lia|].
    by rewrite Hm.
Qed.

Lemma plan_stream_spec cn mbs mrbs marks num_streams stream :
  let M := Z.of_nat (length marks) in
  (0 < num_streams)%Z → (M * num_streams < 2 ^ 64)%Z →
  (0 ≤ stream < num_streams)%Z →
  plan_stream cn mbs mrbs marks num_streams stream
  = Some (planned_reader cn mbs mrbs marks num_streams stream).
Proof.
  intros M Hn Hov Hk. unfold plan_stream, planned_reader. fold M.
  assert (0 ≤ M)%Z as HM by lia.
  rewrite !wrap64_small by nia.
  change (stream * M / num_streams)%Z with (mark_begin_of M num_streams stream).
  change ((stream + 1) * M / num_streams)%Z with (mark_end_of M num_streams stream).
  rewrite !rows_upto_lookup; [done| |].
  all: rewrite ?mark_end_of_next.
  all: split; [apply mark_begin_of_nonneg; lia | apply mark_begin_of_le; lia].
Qed.

Lemma plan_streams_spec cn mbs mrbs marks num_streams :
  let M := Z.of_nat (length marks) in
  (0 ≤ num_streams)%Z → (M * num_streams < 2 ^ 64)%Z →
  plan_streams cn mbs mrbs marks num_streams
  = Some (planned_reader cn mbs mrbs marks num_streams
            <$> (Z.of_nat <$> seq 0 (Z.to_nat num_streams))).
Proof.
  intros M Hn Hov. unfold plan_streams. apply mapM_fmap_total.
  intros x Hx. apply list_elem_of_fmap in Hx as (k & -> & Hk).
  apply elem_of_seq in Hk. apply plan_stream_spec; lia.
Qed.

Lemma read_plan disk st st' cn mbs num_streams mrbs marks :
  let M := Z.of_nat (length marks) in
  let n := Z.min num_streams M in
  (0 ≤ num_streams < 2 ^ 32)%Z →
  (M * n < 2 ^ 64)%Z →
  check_names cn st = Done tt st →
  loadMarks disk st = Done tt st' →
  getMarksWithRealRowCount st' = Done marks st' →
  read disk cn mbs num_streams mrbs st
  = Done (planned_reader cn mbs mrbs marks n <$> (Z.of_nat <$> seq 0 (Z.to_nat n))) st'.
Proof.
  intros M n Hnum Hov Hcheck Hload Hmarks. unfold read.
  unfold mbind at 1. rewrite Hcheck. unfold mbind at 1. rewrite Hload.
  unfold mbind. rewrite Hmarks. fold M.
  rewrite clamp_num_streams_min by lia. fold n.
  rewrite plan_streams_spec by lia. done.
Qed.

(** C2.  [read] clamps [num_streams] to [min(num_streams, M)], where [M] is
    the number of marks of the first substream of the first column, and
    makes one reader for every stream below it, in order, with
    [mark_number = stream * M / num_streams] and
    [rows_limit = rows_end - rows_begin] (in [size_t] arithmetic), the rows
    of the marks before [mark_begin] and before
    [mark_end = (stream + 1) * M / num_streams], and 0 at mark 0. *)
Theorem read_spec disk st st' cn mbs num_streams mrbs marks :
  let M := Z.of_nat (length marks) in
  let n := Z.min num_streams M in
  (0 ≤ num_streams < 2 ^ 32)%Z →
  (M * n < 2 ^ 64)%Z →
  check_names cn st = Done tt st →
  loadMarks disk st = Done tt st' →
  getMarksWithRealRowCount st' = Done marks st' →
  ∃ readers,
    read disk cn mbs num_streams mrbs st = Done readers st'
    ∧ length readers = Z.to_nat n
    ∧ ∀ (stream : nat) r, readers !! stream = Some r →
        let mark_begin := (Z.of_nat stream * M / n)%Z in
        let mark_end := ((Z.of_nat stream + 1) * M / n)%Z in
        let rows_begin :=
          if decide (0 < mark_begin)%Z
          then default 0%Z (rows <$> marks !! Z.to_nat (mark_begin - 1)) else 0%Z in
        let rows_end :=
          if decide (0 < mark_end)%Z
          then default 0%Z (rows <$> marks !! Z.to_nat (mark_end - 1)) else 0%Z in
        r = mkLogBlockInputStream mbs cn mark_begin
              (wrap64 (rows_end - rows_begin)) 0 mrbs.
Proof.
  intros M n Hnum Hov Hcheck Hload Hmarks.
  eexists. split; [by eapply read_plan|]. split.
  - by rewrite !length_fmap, length_seq.
  - intros stream r Hr. rewrite !list_lookup_fmap in Hr. fold M in Hr. fold n in Hr.
    destruct (seq 0 (Z.to_nat n) !! stream) as [k|] eqn:Hk; simpl in Hr; [|done].
    apply lookup_seq in Hk as [-> _]. simpl in Hr. injection Hr as <-.
    unfold planned_reader, rows_upto, mark_begin_of, mark_end_of. reflexivity.
Qed.

Lemma rows_non_decreasing_le marks a b x y :
  rows_non_decreasing marks → a ≤ b →
  marks !! a = Some x → marks !! b = Some y → (rows x ≤ rows y)%Z.
Proof.
  intros Hmono Hab Ha. revert y. induction Hab as [|b Hab IH]; intros y Hb.
  - assert (x = y) as -> by congruence. lia.
  - destruct (lookup_lt_is_Some_2 marks b) as [z Hz].
    { apply lookup_lt_Some in Hb. lia. }
    specialize (IH z Hz). specialize (Hmono b z y Hz Hb). lia.
Qed.

Lemma rows_upto_range marks i :
  Forall rows_in_range marks → (0 ≤ rows_upto marks i < 2 ^ 64)%Z.
Proof.
  intros Hr. unfold rows_upto. case_decide; [|lia].
  destruct (marks !! Z.to_nat (i - 1)) as [m|] eqn:Hm; simpl; [|lia].
  eapply Forall_lookup_1 in Hr; [|done]. done.
Qed.

Lemma rows_upto_mono marks i j :
  rows_non_decreasing marks → Forall rows_in_range marks →
  (0 ≤ i ≤ j)%Z → (j ≤ Z.of_nat (length marks))%Z →
  (rows_upto marks i ≤ rows_upto marks j)%Z.
Proof.
  intros Hmono Hr Hij Hj.
  destruct (decide (0 < i)%Z) as [Hi|Hi].
  - unfold rows_upto. rewrite !decide_True by lia.
    destruct (lookup_lt_is_Some_2 marks (Z.to_nat (i - 1))) as [x Hx]; [lia|].
    destruct (lookup_lt_is_Some_2 marks (Z.to_nat (j - 1))) as [y Hy]; [lia|].
    rewrite Hx, Hy. simpl. eapply rows_non_decreasing_le; [done| |done..]. lia.
  - pose proof (rows_upto_range marks j Hr).
    unfold rows_upto at 1. rewrite decide_False by done. lia.
Qed.

Lemma Zsum_app l1 l2 : Zsum (l1 ++ l2) = (Zsum l1 + Zsum l2)%Z.
Proof. unfold Zsum. induction l1 as [|x l1 IH]; simpl; lia. Qed.

Lemma Zsum_telescope (U : nat → Z) m :
  Zsum ((λ k, U (S k) - U k)%Z <$> seq 0 m) = (U m - U 0%nat)%Z.
Proof.
  induction m as [|m IH]; [unfold Zsum; simpl; lia|].
  rewrite seq_S, fmap_app, Zsum_app, IH. unfold Zsum. simpl. lia.
Qed.

Lemma concat_slices M n m :
  (0 ≤ M)%Z → (0 < n)%Z →
  concat (slice_of M n <$> seq 0 m)
  = seq 0 (Z.to_nat (mark_begin_of M n (Z.of_nat m))).
Proof.
  intros HM Hn. induction m as [|m IH].
  - by rewrite mark_begin_of_0.
  - rewrite seq_S, fmap_app, concat_app, IH. simpl. rewrite app_nil_r.
    unfold slice_of. rewrite mark_end_of_next.
    replace (Z.of_nat m + 1)%Z with (Z.of_nat (S m)) by lia.
    pose proof (mark_begin_of_mono M n HM Hn (Z.of_nat m) (Z.of_nat (S m))).
    pose proof (mark_begin_of_nonneg M n HM Hn (Z.of_nat m)).
    set (b := mark_begin_of M n (Z.of_nat m)) in *.
    set (e := mark_begin_of M n (Z.of_nat (S m))) in *.
    replace (Z.to_nat e) with (Z.to_nat b + (Z.to_nat e - Z.to_nat b)) at 2 by lia.
    by rewrite seq_app.
Qed.

(** C3.  For a mark vector with non-decreasing rows and [num_streams]
    between 1 and [M], the slices of the readers that [read] plans, taken
    in order, are the mark indices 0 .. M-1, each once and in order (so the
    slices are contiguous, without overlap or gap); every slice begins and
    ends at a mark, is not empty, and its reader's [rows_limit] is the
    difference of the rows at its two ends; and the [rows_limit]s add up to
    the rows of the last mark. *)
Theorem read_partition disk st st' cn mbs num_streams mrbs marks :
  let M := Z.of_nat (length marks) in
  (1 ≤ num_streams ≤ M)%Z →
  (num_streams < 2 ^ 32)%Z →
  (M * num_streams < 2 ^ 64)%Z →
  rows_non_decreasing marks →
  Forall rows_in_range marks →
  check_names cn st = Done tt st →
  loadMarks disk st = Done tt st' →
  getMarksWithRealRowCount st' = Done marks st' →
  ∃ readers,
    read disk cn mbs num_streams mrbs st = Done readers st'
    ∧ length readers = Z.to_nat num_streams
    ∧ concat (slice_of M num_streams <$> seq 0 (Z.to_nat num_streams))
      = seq 0 (length marks)
    ∧ (∀ (stream : nat) r, readers !! stream = Some r →
         let mark_begin := mark_begin_of M num_streams (Z.of_nat stream) in
         let mark_end := mark_end_of M num_streams (Z.of_nat stream) in
         mark_number r = mark_begin
         ∧ (0 ≤ mark_begin < mark_end)%Z ∧ (mark_end ≤ M)%Z
         ∧ rows_limit r = (rows_upto marks mark_end - rows_upto marks mark_begin)%Z)
    ∧ (∀ m, last marks = Some m → Zsum (rows_limit <$> readers) = rows m).
Proof.
  intros M Hnum H32 Hov Hmono Hrange Hcheck Hload Hmarks.
  assert (Z.min num_streams M = num_streams) as Hmin by lia.
  pose proof (read_plan disk st st' cn mbs num_streams mrbs marks) as Hplan.
  cbv zeta in Hplan. fold M in Hplan. rewrite Hmin in Hplan.
  assert (0 ≤ M)%Z as HM by lia. assert (0 < num_streams)%Z as Hn by lia.
  assert (∀ k : nat, k < Z.to_nat num_streams →
            let b := mark_begin_of M num_streams (Z.of_nat k) in
            let e := mark_end_of M num_streams (Z.of_nat k) in
            (0 ≤ b < e)%Z ∧ (e ≤ M)%Z
            ∧ wrap64 (rows_upto marks e - rows_upto marks b)
              = (rows_upto marks e - rows_upto marks b)%Z) as Hslice.
  { intros k Hk b e. subst b e. rewrite mark_end_of_next.
    pose proof (mark_begin_of_nonneg M num_streams HM Hn (Z.of_nat k)).
    pose proof (mark_begin_of_le M num_streams HM Hn (Z.of_nat k + 1)).
    assert (mark_begin_of M num_streams (Z.of_nat k)
            < mark_begin_of M num_streams (Z.of_nat k + 1))%Z as Hlt.
    { unfold mark_begin_of. apply Z.div_lt_upper_bound; [lia|].
      pose proof (Z.mul_succ_div_gt ((Z.of_nat k + 1) * M) num_streams Hn). nia. }
    split; [lia|]. split; [lia|]. apply wrap64_small.
    pose proof (rows_upto_range marks (mark_begin_of M num_streams (Z.of_nat k + 1)) Hrange).
    pose proof (rows_upto_range marks (mark_begin_of M num_streams (Z.of_nat k)) Hrange).
    pose proof (rows_upto_mono marks (mark_begin_of M num_streams (Z.of_nat k))
                  (mark_begin_of M num_streams (Z.of_nat k + 1)) Hmono Hrange)
      as Hle.
    fold M in Hle. lia. }
  eexists. split; [apply Hplan; auto; lia|]. split; [|split; [|split]].
  - by rewrite !length_fmap, length_seq.
  - rewrite concat_slices by done. rewrite Z2Nat.id by lia.
    rewrite mark_begin_of_last by lia. subst M. by rewrite Nat2Z.id.
  - intros stream r Hr. rewrite !list_lookup_fmap in Hr.
    destruct (seq 0 (Z.to_nat num_streams) !! stream) as [k|] eqn:Hk;
      simpl in Hr; [|done].
    apply lookup_seq in Hk as [-> Hk]. simpl in Hk. injection Hr as <-.
    destruct (Hslice stream Hk) as (Hb & He & Hw). simpl. fold M.
    by rewrite Hw.
  - intros m Hm. rewrite <- !list_fmap_compose.
    rewrite (list_fmap_ext _
               (λ k, (rows_upto marks (mark_begin_of M num_streams (Z.of_nat (S k)))
                      - rows_upto marks (mark_begin_of M num_streams (Z.of_nat k)))%Z)).
    + rewrite (Zsum_telescope
                 (λ k, rows_upto marks (mark_begin_of M num_streams (Z.of_nat k)))).
      rewrite Z2Nat.id by lia. rewrite mark_begin_of_last, mark_begin_of_0 by lia.
      unfold rows_upto. rewrite decide_True by lia. rewrite decide_False by lia.
      rewrite last_lookup in Hm.
      replace (Z.to_nat (M - 1)) with (pred (length marks)) by lia.
      rewrite Hm. simpl. lia.
    + intros i k Hk. apply lookup_seq in Hk as [-> Hk]. simpl in Hk.
      destruct (Hslice i Hk) as (_ & _ & Hw). simpl. fold M. rewrite Hw.
      rewrite mark_end_of_next. by replace (Z.of_nat i + 1)%Z with (Z.of_nat (S i)) by lia.
Qed.

(** ** writeMarks *)

Implicit Types (w : LogBlockOutputStream (DataType := DataType)).

Global Instance index_le_total : Total index_le.
Proof. intros a b. unfold index_le. lia. Qed.

Global Instance index_le_trans : Transitive index_le.
Proof. intros a b c. unfold index_le. lia. Qed.

Lemma wb_write_nil b : wb_write [] b = b.
Proof. destruct b. unfold wb_write. simpl. by rewrite Nat.add_0_r, app_nil_r. Qed.

Lemma wb_write_app a b buf :
  wb_write b (wb_write a buf) = wb_write (a ++ b) buf.
Proof.
  unfold wb_write. simpl. rewrite length_app, app_assoc. f_equal. lia.
Qed.

Lemma files_at_present n (f : gmap string ColumnData) cd :
  f !! n = Some cd → files_at n f = (cd, f).
Proof. intros Hn. unfold files_at. by rewrite Hn. Qed.

Lemma layout_insert_marks st n cd cd' :
  files st !! n = Some cd →
  column_index cd' = column_index cd → data_file cd' = data_file cd →
  layout (set_files (<[n := cd']> (files st)) st) = layout st.
Proof.
  intros Hn Hi Hd.
  assert ((λ cd, (column_index cd, data_file cd)) <$> <[n := cd']> (files st)
          = (λ cd, (column_index cd, data_file cd)) <$> files st) as Heq.
  { apply map_eq. intros k. rewrite !lookup_fmap, lookup_insert.
    case_decide; [subst|done]. rewrite Hn. simpl. by rewrite Hi, Hd. }
  unfold layout. simpl. by rewrite Heq.
Qed.

Lemma write_marks_fold l : ∀ w,
  index_consistent (storage w) →
  Forall (λ m, m.1 < file_count (storage w)) l →
  ∃ w', mfold write_one_mark tt l w = Done tt w'
    ∧ layout (storage w') = layout (storage w)
    ∧ loaded_marks (storage w') = loaded_marks (storage w)
    ∧ streams w' = streams w ∧ disk w' = disk w ∧ done w' = done w
    ∧ marks_stream w' = wb_write (l ≫= (λ m, write_mark m.2)) (marks_stream w)
    ∧ ∀ n cd, files (storage w) !! n = Some cd →
        files (storage w') !! n
        = Some (append_marks (marks_for (column_index cd) l) cd).
Proof.
  induction l as [|[c m] l IH]; intros w Hst Hl.
  { exists w. simpl. rewrite wb_write_nil. repeat split; auto.
    intros n cd Hn. unfold marks_for. simpl. by rewrite append_marks_nil. }
  apply Forall_cons in Hl as [Hc Hl]. simpl in Hc.
  pose proof Hst as [Hfc Hix].
  destruct (lookup_lt_is_Some_2 (column_names (storage w)) c) as [n0 Hn0]; [lia|].
  pose proof Hn0 as Hn0'. apply Hix in Hn0' as (cd0 & Hcd0 & Hidx0).
  cbn [mfold]. unfold mbind at 1. unfold write_one_mark at 1.
  unfold mbind at 1. unfold modify at 1. cbn [fst snd storage set_marks_stream].
  rewrite Hn0. rewrite (files_at_present _ _ _ Hcd0).
  set (w1 := set_storage _ _).
  assert (layout (storage w1) = layout (storage w)) as Hlay1.
  { subst w1. simpl. by eapply layout_insert_marks. }
  destruct (IH w1) as (w' & Hrun & Hlay & Hld & Hss & Hdisk & Hdone & Hms & Hfiles).
  { by eapply index_consistent_layout. }
  { assert (file_count (storage w1) = file_count (storage w)) as -> by done. done. }
  exists w'. rewrite Hrun. split; [done|]. split; [congruence|].
  split; [by rewrite Hld|]. split; [by rewrite Hss|]. split; [by rewrite Hdisk|].
  split; [by rewrite Hdone|]. split.
  - rewrite Hms. subst w1. cbn [marks_stream set_storage set_marks_stream].
    rewrite !wb_write_app, bind_cons. unfold write_mark at 2. cbn [snd].
    by rewrite <- !app_assoc.
  - intros n cd Hn. destruct (decide (n = n0)) as [->|Hne].
    + assert (cd = cd0) as -> by congruence.
      rewrite (Hfiles n0 (push_back_mark m cd0)).
      2:{ subst w1. simpl. by rewrite lookup_insert_eq. }
      change (column_index (push_back_mark m cd0)) with (column_index cd0).
      rewrite append_marks_push. unfold marks_for.
      rewrite (filter_cons_True _ (c, m)) by done. done.
    + rewrite (Hfiles n cd).
      2:{ subst w1. simpl. by rewrite lookup_insert_ne. }
      unfold marks_for. rewrite (filter_cons_False _ (c, m)); [done|].
      simpl. intros ->. apply Hne.
      assert (column_names (storage w) !! column_index cd = Some n) as Hn'.
      { apply Hix. eauto. }
      congruence.
Qed.

(** C6.  [writeMarks] raises LOGICAL_ERROR exactly when the number of marks
    differs from [file_count], and then changes nothing.  Otherwise (on a
    descriptor whose substreams are indexed by [column_names], with marks
    for indices below [file_count]) it returns: the marks, sorted by column
    index, have gone to the marks stream as two little-endian 64-bit
    integers each, in that order, and every substream has got, at the end
    of its mark vector, the marks that carry its column index. *)
Theorem writeMarks_spec (out_marks : MarksForColumns) w :
  (writeMarks out_marks w = Throw LOGICAL_ERROR w
   ↔ length out_marks ≠ file_count (storage w))
  ∧ (∀ e w', writeMarks out_marks w = Throw e w' →
       e = LOGICAL_ERROR ∧ w' = w ∧ length out_marks ≠ file_count (storage w))
  ∧ (length out_marks = file_count (storage w) →
     index_consistent (storage w) →
     Forall (λ m, m.1 < file_count (storage w)) out_marks →
     ∃ w' sorted,
       writeMarks out_marks w = Done tt w'
       ∧ sorted ≡ₚ out_marks
       ∧ StronglySorted (λ a b, a.1 ≤ b.1) sorted
       ∧ marks_stream w'
         = wb_write (sorted ≫= (λ m, le_bytes 8 (rows m.2) ++ le_bytes 8 (offset m.2)))
             (marks_stream w)
       ∧ layout (storage w') = layout (storage w)
       ∧ streams w' = streams w ∧ disk w' = disk w
       ∧ ∀ n cd, files (storage w) !! n = Some cd →
           marks_of (storage w') n
           = marks cd ++ (snd <$> filter (λ m, m.1 = column_index cd) sorted)).
Proof.
  assert (∀ l w0 e w', mfold write_one_mark tt l w0 ≠ Throw e w') as Hnothrow.
  { clear. induction l as [|m l IH]; intros w0 e w'; simpl; [done|].
    unfold mbind at 1. unfold write_one_mark at 1.
    unfold mbind at 1. unfold modify at 1. cbn [storage set_marks_stream].
    destruct (column_names _ !! _); [|done]. destruct (files_at _ _). apply IH. }
  split; [|split].
  - unfold writeMarks. split.
    + case_decide; [done|]. intros Hrun. by apply Hnothrow in Hrun.
    + intros Hne. by rewrite decide_True.
  - intros e w' Hrun. unfold writeMarks in Hrun. case_decide.
    + by injection Hrun as <- <-.
    + by apply Hnothrow in Hrun.
  - intros Hlen Hst Hidx. unfold writeMarks. rewrite decide_False by lia.
    destruct (write_marks_fold (sort_marks out_marks) w Hst)
      as (w' & Hrun & Hlay & _ & Hss & Hdisk & _ & Hms & Hfiles).
    { unfold sort_marks. by rewrite merge_sort_Permutation. }
    exists w', (sort_marks out_marks). repeat split; try done.
    + apply merge_sort_Permutation.
    + apply (StronglySorted_merge_sort index_le).
    + intros n cd Hn. unfold marks_of. by rewrite (Hfiles n cd Hn).
Qed.

(** ** writeData: the stream getter *)

Lemma mfold_cons {S A B} (f : B → A → M S B) b x l s :
  mfold f b (x :: l) s
  = match f b x s with
    | Done b' s' => mfold f b' l s'
    | Throw e s' => Throw e s'
    | Undefined => Undefined
    end.
Proof. done. Qed.

Lemma stream_getter_cases name written p w :
  let stream_name := getFileNameForStream name p in
  stream_getter name written p w
  = if decide (stream_name ∈ written) then Done None w
    else match streams w !! stream_name with
         | Some _ => Done (Some stream_name) w
         | None => Throw LOGICAL_ERROR w
         end.
Proof. unfold stream_getter. simpl. by case_decide. Qed.

Lemma serialize_request_got name written got req w got' w' :
  serialize_request name written got req w = Done got' w' →
  got' = got ++ [getter_answer name written req.1]
  ∧ storage w' = storage w ∧ disk w' = disk w ∧ marks_stream w' = marks_stream w
  ∧ done w' = done w
  ∧ streams w'
    = match getter_answer name written req.1 with
      | None => streams w
      | Some n =>
          alter (stream_write (max_compress_block_size (storage w)) req.2) n
            (streams w)
      end.
Proof.
  unfold serialize_request, mbind, getter_answer.
  rewrite stream_getter_cases. cbv zeta. case_decide.
  - intros [= <- <-]. done.
  - destruct (streams w !! _); [|done]. unfold modify, mret.
    intros [= <- <-]. done.
Qed.

Lemma serialize_requests_got name written reqs : ∀ got w got' w',
  mfold (serialize_request name written) got reqs w = Done got' w' →
  got' = got ++ (getter_answer name written <$> reqs.*1)
  ∧ storage w' = storage w ∧ disk w' = disk w ∧ marks_stream w' = marks_stream w
  ∧ done w' = done w.
Proof.
  induction reqs as [|req reqs IH]; intros got w got' w' Hrun.
  - injection Hrun as <- <-. by rewrite app_nil_r.
  - rewrite mfold_cons in Hrun.
    destruct (serialize_request name written got req w) as [got1 w1| |] eqn:H1;
      try done.
    apply serialize_request_got in H1 as (-> & Hst & Hd & Hm & Hdn & _).
    apply IH in Hrun as (-> & Hst' & Hd' & Hm' & Hdn').
    rewrite <- app_assoc. repeat split; congruence.
Qed.

Lemma flush_callback_written name written p w written' w' :
  flush_callback name written p w = Done written' w' →
  written' = {[getFileNameForStream name p]} ∪ written
  ∧ storage w' = storage w ∧ disk w' = disk w ∧ marks_stream w' = marks_stream w
  ∧ done w' = done w
  ∧ streams w'
    = if decide (getFileNameForStream name p ∈ written) then streams w
      else alter compressed_next (getFileNameForStream name p) (streams w).
Proof.
  unfold flush_callback. case_decide as Hin.
  - intros [= <- <-]. repeat split; try done.
    apply set_eq. intros x. rewrite elem_of_union, elem_of_singleton.
    split; [by right|]. by intros [->|].
  - destruct (streams w !! _); [|done]. by intros [= <- <-].
Qed.

Lemma writeData_flush_written name ps : ∀ written w written' w',
  mfold (flush_callback name) written ps w = Done written' w' →
  written' = list_to_set (getFileNameForStream name <$> ps) ∪ written
  ∧ storage w' = storage w ∧ disk w' = disk w ∧ marks_stream w' = marks_stream w
  ∧ done w' = done w.
Proof.
  induction ps as [|p ps IH]; intros written w written' w' Hrun.
  - injection Hrun as <- <-. repeat split; try done.
    simpl. apply set_eq. intros x. rewrite elem_of_union, elem_of_empty. tauto.
  - rewrite mfold_cons in Hrun.
    destruct (flush_callback name written p w) as [wr1 w1| |] eqn:H1; try done.
    apply flush_callback_written in H1 as (-> & Hst & Hd & Hm & Hdn & _).
    apply IH in Hrun as (-> & Hst' & Hd' & Hm' & Hdn').
    repeat split; try congruence.
    apply set_eq. intros x. rewrite fmap_cons, list_to_set_cons.
    rewrite !elem_of_union. tauto.
Qed.

(** C8 (as the code has it).  During the serialization of one column the
    stream getter answers every request the same way, the first and any
    later one: null when the substream was written by an earlier column of
    the block (it is in [written_streams]), the compressed buffer of the
    substream otherwise.  [written_streams] grows only after the
    serialization, by the substreams of the column. *)
Theorem stream_getter_spec name type column out_marks written w out_marks' written' w' :
  writeData name type column out_marks written w = Done (out_marks', written') w' →
  ∃ w1 w2,
    writeData_marks name type column out_marks written w = Done out_marks' w1
    ∧ writeData_serialize name type column written w1
      = Done (getter_answer name written
                <$> (serializeBinaryBulkWithMultipleStreams type column).*1) w2
    ∧ (∀ p, getter_answer name written p = None
            ↔ getFileNameForStream name p ∈ written)
    ∧ (∀ p, getFileNameForStream name p ∉ written →
            getter_answer name written p = Some (getFileNameForStream name p))
    ∧ written' = list_to_set (stream_names name type) ∪ written.
Proof.
  unfold writeData, mbind. intros Hrun.
  destruct (writeData_marks name type column out_marks written w)
    as [om1 w1| |] eqn:H1; try done.
  destruct (writeData_serialize name type column written w1)
    as [got w2| |] eqn:H2; try done.
  destruct (writeData_flush name type written w2) as [wr3 w3| |] eqn:H3; try done.
  injection Hrun as <- <- <-.
  exists w1, w2. split; [done|].
  pose proof H2 as H2'. apply serialize_requests_got in H2' as (-> & _).
  apply writeData_flush_written in H3 as (-> & _).
  split; [done|]. unfold getter_answer. split; [|split; [|done]].
  - intros p. by case_decide.
  - intros p Hp. by rewrite decide_False.
Qed.

(** ** writeData: the marks *)

Lemma opens_refl w : opens w w.
Proof.
  unfold opens. repeat split; auto. intros n s Hs Hn. congruence.
Qed.

Lemma opens_trans w1 w2 w3 : opens w1 w2 → opens w2 w3 → opens w1 w3.
Proof.
  intros (Hf & Hs & Hn & Hd & H1) (Hf' & Hs' & Hn' & Hd' & H2).
  unfold opens. split; [|split; [|split; [|split]]].
  - intros n. by rewrite Hf', Hf.
  - intros n s Hns. by apply Hs', Hs.
  - intros n s Hs3 Hs1. destruct (streams w2 !! n) as [s2|] eqn:Hs2.
    + pose proof (Hs' _ _ Hs2). assert (s = s2) as -> by congruence. by apply Hn.
    + rewrite (Hn' n s Hs3 Hs2). unfold fresh_stream. by rewrite Hf, !Hd.
  - intros p. by rewrite Hd', Hd.
  - destruct H1 as (? & ? & ? & ? & ? & ? & ?), H2 as (? & ? & ? & ? & ? & ? & ?).
    repeat split; (etrans; [eassumption|eassumption]).
Qed.

Lemma file_of_files_at st n m :
  file_of (set_files (files_at n (files st)).2 st) m = file_of st m.
Proof.
  unfold file_of, files_at. simpl. destruct (files st !! n) as [cd|] eqn:Hn; [done|].
  simpl. destruct (decide (m = n)) as [->|Hne].
  - by rewrite lookup_insert_eq, Hn.
  - rewrite lookup_insert_ne by done. by destruct (files st !! m).
Qed.

Lemma file_content_open_append p q (d : gmap string (list byte)) :
  file_content (open_append p d) q = file_content d q.
Proof.
  unfold file_content, open_append. destruct (d !! p) as [c|] eqn:Hp; [done|].
  destruct (decide (q = p)) as [->|Hne].
  - by rewrite lookup_insert_eq, Hp.
  - by rewrite lookup_insert_ne.
Qed.

Lemma mark_callback_spec name column written out_marks p w om' w' :
  mark_callback name column written out_marks p w = Done om' w' →
  opens w w'
  ∧ if decide (getFileNameForStream name p ∈ written) then om' = out_marks
    else ∃ im, om' = out_marks ++ [im] ∧ mark_emitted w w' name column p im.
Proof.
  unfold mark_callback. set (n := getFileNameForStream name p).
  case_decide as Hin.
  { intros [= <- <-]. split; [apply opens_refl|done]. }
  unfold mbind at 1.
  pose proof (file_of_files_at (storage w) n) as Hfile.
  unfold file_of at 2 in Hfile. unfold mark_emitted. fold n. unfold file_of at 1 2.
  destruct (files_at n (files (storage w))) as [file files'] eqn:Hat.
  simpl in Hfile. cbn [fst].
  unfold mbind, try_emplace_stream.
  cbn [streams set_storage storage disk set_files].
  destruct (streams w !! n) as [s0|] eqn:Hs0.
  - intros [= <- <-]. split.
    + unfold opens. cbn [streams set_storage storage disk set_files files
        marks_stream done column_names file_count max_compress_block_size
        columns loaded_marks].
      repeat split; auto. intros m s Hs Hm. congruence.
    + eexists. split; [done|]. cbn [fst snd rows offset]. repeat split.
      exists s0. cbn [streams set_storage]. by rewrite Hs0.
  - case_decide as Hpath; [done|]. intros [= <- <-]. split.
    + unfold opens. cbn [streams set_storage storage disk set_files files
        marks_stream done column_names file_count max_compress_block_size
        columns loaded_marks set_disk set_streams].
      split; [done|]. split; [|split; [|split]].
      * intros m s Hs. rewrite lookup_insert_ne; [done|]. congruence.
      * intros m s Hs Hm. destruct (decide (m = n)) as [->|Hne].
        -- rewrite lookup_insert_eq in Hs. injection Hs as <-.
           unfold fresh_stream, file_of. rewrite Hat. cbn [fst].
           by rewrite file_content_open_append.
        -- rewrite lookup_insert_ne in Hs by done. congruence.
      * intros q. apply file_content_open_append.
      * done.
    + eexists. split; [done|]. cbn [fst snd rows offset]. repeat split.
      eexists. cbn [streams set_disk set_streams]. rewrite lookup_insert_eq.
      split; [done|]. split; [done|].
      unfold fresh_stream, file_of. rewrite Hat. cbn [fst].
      by rewrite file_content_open_append.
Qed.

Lemma mark_emitted_later w w1 w' name column p im :
  mark_emitted w w1 name column p im → opens w1 w' →
  mark_emitted w w' name column p im.
Proof.
  intros (Hi & Hr & s & Hs & Ho & Hm) (_ & Hkeep & _).
  repeat split; try done. exists s. split; [by apply Hkeep|]. done.
Qed.

Lemma mark_emitted_earlier w w1 w' name column p im :
  opens w w1 → mark_emitted w1 w' name column p im →
  mark_emitted w w' name column p im.
Proof.
  intros (Hf & Hkeep & Hnew & Hd & _) (Hi & Hr & s & Hs & Ho & Hm).
  unfold mark_emitted in *. rewrite Hf in Hi, Hr. repeat split; try done.
  exists s. split; [done|]. split; [done|].
  set (n := getFileNameForStream name p) in *.
  destruct (streams w !! n) as [s0|] eqn:Hs0.
  - by rewrite (Hkeep _ _ Hs0) in Hm.
  - destruct (streams w1 !! n) as [s1|] eqn:Hs1.
    + subst s1. by apply Hnew.
    + rewrite Hm. unfold fresh_stream. by rewrite Hf, !Hd.
Qed.

Lemma writeData_marks_fold name column written ps : ∀ out_marks w om' w',
  mfold (mark_callback name column written) out_marks ps w = Done om' w' →
  opens w w'
  ∧ ∃ new, om' = out_marks ++ new
      ∧ Forall2 (mark_emitted w w' name column)
          (filter (λ p, getFileNameForStream name p ∉ written) ps) new.
Proof.
  induction ps as [|p ps IH]; intros out_marks w om' w' Hrun.
  { injection Hrun as <- <-. split; [apply opens_refl|].
    exists []. rewrite app_nil_r. split; [done|]. constructor. }
  rewrite mfold_cons in Hrun.
  destruct (mark_callback name column written out_marks p w) as [om1 w1| |] eqn:H1;
    try done.
  apply mark_callback_spec in H1 as [Hop1 H1].
  apply IH in Hrun as (Hop & new & -> & Hnew).
  split; [by eapply opens_trans|].
  assert (Forall2 (mark_emitted w w' name column)
            (filter (λ p, getFileNameForStream name p ∉ written) ps) new) as Hnew'.
  { eapply Forall2_impl; [done|]. intros q im Hq.
    by eapply mark_emitted_earlier. }
  case_decide as Hin.
  - subst om1. exists new. split; [done|].
    rewrite filter_cons_False; [done|]. by intros Hnin.
  - destruct H1 as (im & -> & Him). exists (im :: new).
    split; [by rewrite <- app_assoc|].
    rewrite filter_cons_True by done. constructor; [|done].
    by eapply mark_emitted_later.
Qed.

(** C1.  In a call [write(block)] on a block that passes the check, for
    every column of the block, the first callback of [writeData] appends
    one mark for each substream of the column that is not in
    [written_streams], in the order of enumeration.  The mark carries the
    column index of the substream; its [rows] is the [rows] of the last mark
    of the substream, or 0 without one, plus the row count of the block;
    its [offset] is [plain_offset] of the stream of the substream plus the
    count of bytes given to its plain buffer, where a stream opened by this
    callback has for [plain_offset] the size of its data file and a count
    of 0, and a stream that was open is as it was.  The sums are those of
    [size_t]; they are the exact sums below 2^64. *)
Theorem writeData_marks_spec st0 (block : Block) c out_marks written w om' w' :
  block_valid st0 block →
  c ∈ block →
  writeData_marks (c_name c) (c_type c) (c_column c) out_marks written w
  = Done om' w' →
  ∃ new,
    om' = out_marks ++ new
    ∧ Forall2
        (λ p (im : nat * Mark),
           let stream_name := getFileNameForStream (c_name c) p in
           let file := file_of (storage w) stream_name in
           let previous_rows :=
             match last (marks file) with Some m => rows m | None => 0%Z end in
           im.1 = column_index file
           ∧ rows im.2 = wrap64 (previous_rows + Z.of_nat (block_rows block))
           ∧ ((0 ≤ previous_rows)%Z →
              (previous_rows + Z.of_nat (block_rows block) < 2 ^ 64)%Z →
              rows im.2 = (previous_rows + Z.of_nat (block_rows block))%Z)
           ∧ ∃ s, streams w' !! stream_name = Some s
               ∧ offset im.2
                 = wrap64 (plain_offset s + Z.of_nat (wb_count (plain s)))
               ∧ ((0 ≤ plain_offset s)%Z →
                  (plain_offset s + Z.of_nat (wb_count (plain s)) < 2 ^ 64)%Z →
                  offset im.2
                  = (plain_offset s + Z.of_nat (wb_count (plain s)))%Z)
               ∧ match streams w !! stream_name with
                 | Some s0 => s = s0
                 | None =>
                     plain_offset s
                     = Z.of_nat (length (file_content (disk w) (data_file file)))
                     ∧ wb_count (plain s) = 0
                 end)
        (filter (λ p, getFileNameForStream (c_name c) p ∉ written)
           (enumerateStreams (c_type c)))
        new.
Proof.
  intros (Hrows & _) Hc Hrun.
  assert (column_size (c_column c) = block_rows block) as Hsize.
  { by eapply Forall_forall in Hrows. }
  apply writeData_marks_fold in Hrun as (_ & new & -> & Hnew).
  exists new. split; [done|].
  eapply Forall2_impl; [done|]. intros p im (Hi & Hr & s & Hs & Ho & Hm).
  cbv zeta. rewrite Hsize in Hr. unfold last_rows in Hr.
  split; [done|]. split; [done|]. split.
  { intros H0 Hlt. rewrite Hr. apply wrap64_small. lia. }
  exists s. split; [done|]. split; [done|]. split.
  { intros H0 Hlt. rewrite Ho. apply wrap64_small. lia. }
  destruct (streams w !! _); [done|]. by rewrite Hm.
Qed.

(** ** The streams of a column *)

Lemma compressed_write_app cap d1 : ∀ pending d2,
  compressed_write cap pending (d1 ++ d2)
  = let '(e1, p1) := compressed_write cap pending d1 in
    let '(e2, p2) := compressed_write cap p1 d2 in
    (e1 ++ e2, p2).
Proof.
  induction d1 as [|b d1 IH]; intros pending d2; simpl.
  - by destruct (compressed_write cap pending d2).
  - case_decide.
    + rewrite IH. destruct (compressed_write cap [b] d1) as [e1 p1].
      destruct (compressed_write cap p1 d2) as [e2 p2]. by rewrite app_assoc.
    + apply IH.
Qed.

Lemma stream_write_nil cap s : stream_write cap [] s = s.
Proof. destruct s. unfold stream_write. simpl. by rewrite wb_write_nil. Qed.

Lemma stream_write_app cap d1 d2 s :
  stream_write cap d2 (stream_write cap d1 s) = stream_write cap (d1 ++ d2) s.
Proof.
  unfold stream_write. rewrite compressed_write_app.
  destruct (compressed_write cap (compressed s) d1) as [e1 p1]. simpl.
  destruct (compressed_write cap p1 d2) as [e2 p2]. simpl.
  by rewrite wb_write_app.
Qed.

Lemma write_stream_spec cap data s :
  let s' := compressed_next (stream_write cap data s) in
  compressed s' = []
  ∧ plain_offset s' = plain_offset s
  ∧ wb_path (plain s') = wb_path (plain s)
  ∧ wb_pending (plain s')
    = wb_pending (plain s) ++ frames_of cap (compressed s) data
  ∧ wb_count (plain s')
    = wb_count (plain s) + length (frames_of cap (compressed s) data).
Proof.
  unfold stream_write, frames_of, compressed_next.
  destruct (compressed_write cap (compressed s) data) as [e p]. simpl.
  destruct p as [|b p]; simpl.
  - rewrite app_nil_r. done.
  - rewrite !length_app, <- app_assoc. repeat split; try done. lia.
Qed.

Lemma filter_fmap_comm {A B} (f : A → B) (P : B → Prop) `{!∀ y, Decision (P y)}
    (l : list A) :
  filter P (f <$> l) = f <$> filter (λ x, P (f x)) l.
Proof.
  induction l as [|x l IH]; [done|]. rewrite fmap_cons.
  destruct (decide (P (f x))) as [HP|HP].
  - rewrite !filter_cons_True by done. by rewrite fmap_cons, IH.
  - rewrite !filter_cons_False by done. done.
Qed.

Lemma filter_none {A} (P : A → Prop) `{!∀ x, Decision (P x)} (l : list A) :
  (∀ x, x ∈ l → ¬ P x) → filter P l = [].
Proof.
  induction l as [|x l IH]; intros Hl; [done|].
  rewrite filter_cons_False by apply Hl, list_elem_of_here.
  apply IH. intros y Hy. by apply Hl, list_elem_of_further.
Qed.

Lemma set_files_id st : set_files (files st) st = st.
Proof. by destruct st. Qed.

Lemma set_storage_id w : set_storage (storage w) w = w.
Proof. by destruct w. Qed.

Lemma stream_at_opens w w' n : opens w w' → stream_at w' n = stream_at w n.
Proof.
  intros (Hf & Hkeep & Hnew & Hd & _). unfold stream_at.
  destruct (streams w !! n) as [s|] eqn:Hs.
  - by rewrite (Hkeep _ _ Hs).
  - destruct (streams w' !! n) as [s'|] eqn:Hs'.
    + by apply Hnew.
    + unfold fresh_stream. by rewrite Hf, !Hd.
Qed.

Lemma data_pos_stream_at w n :
  data_pos w n
  = (plain_offset (stream_at w n) + Z.of_nat (wb_count (plain (stream_at w n))))%Z.
Proof.
  unfold data_pos, stream_at. destruct (streams w !! n); [done|].
  unfold fresh_stream. simpl. lia.
Qed.

Lemma mark_emitted_value w w' name column p im :
  mark_emitted w w' name column p im →
  im = mark_value w (column_size column) (getFileNameForStream name p)
  ∧ streams w' !! getFileNameForStream name p
    = Some (stream_at w (getFileNameForStream name p)).
Proof.
  intros (Hi & Hr & s & Hs & Ho & Hm). set (n := getFileNameForStream name p) in *.
  assert (s = stream_at w n) as ->.
  { unfold stream_at. by destruct (streams w !! n). }
  split; [|done]. unfold mark_value. fold n. rewrite data_pos_stream_at.
  destruct im as [i [r o]]. simpl in *. by subst.
Qed.

Lemma mark_callback_covered name column written out_marks p w om' w' :
  is_Some (files (storage w) !! getFileNameForStream name p) →
  mark_callback name column written out_marks p w = Done om' w' →
  storage w' = storage w
  ∧ ∀ m, streams w' !! m
         = if decide (m = getFileNameForStream name p ∧ m ∉ written)
           then Some (stream_at w m) else streams w !! m.
Proof.
  intros [cd Hcd] Hrun. pose proof Hrun as Hspec.
  apply mark_callback_spec in Hspec as [Hop Hspec].
  unfold mark_callback in Hrun. set (n := getFileNameForStream name p) in *.
  case_decide as Hin.
  { injection Hrun as <- <-. split; [done|]. intros m.
    rewrite decide_False; [done|]. by intros [-> ?]. }
  destruct Hspec as (im & -> & Him). apply mark_emitted_value in Him as [_ Hs'].
  fold n in Hs'.
  unfold mbind at 1 in Hrun. rewrite (files_at_present _ _ _ Hcd) in Hrun.
  rewrite set_files_id, set_storage_id in Hrun.
  unfold mbind, try_emplace_stream in Hrun.
  destruct (streams w !! n) as [s0|] eqn:Hs0.
  - injection Hrun as _ <-. split; [done|]. intros m. case_decide as Hm; [|done].
    destruct Hm as [-> _]. by rewrite <- Hs'.
  - case_decide; [done|]. injection Hrun as _ <-. split; [done|]. intros m.
    cbn [streams set_disk set_streams] in *.
    case_decide as Hm.
    + destruct Hm as [-> _]. by rewrite Hs'.
    + rewrite lookup_insert_ne; [done|]. intros <-. by apply Hm.
Qed.

Lemma writeData_marks_streams name column written ps : ∀ out_marks w om' w',
  (∀ p, p ∈ ps → is_Some (files (storage w) !! getFileNameForStream name p)) →
  mfold (mark_callback name column written) out_marks ps w = Done om' w' →
  storage w' = storage w
  ∧ ∀ m, streams w' !! m
         = if decide (m ∈ getFileNameForStream name <$> ps ∧ m ∉ written)
           then Some (stream_at w m) else streams w !! m.
Proof.
  induction ps as [|p ps IH]; intros out_marks w om' w' Hcov Hrun.
  { injection Hrun as _ <-. split; [done|]. intros m.
    rewrite decide_False; [done|]. intros [Hm _]. by apply elem_of_nil in Hm. }
  rewrite mfold_cons in Hrun.
  destruct (mark_callback name column written out_marks p w) as [om1 w1| |] eqn:H1;
    try done.
  pose proof H1 as Hop1. apply mark_callback_spec in Hop1 as [Hop1 _].
  apply mark_callback_covered in H1 as [Hst1 Hs1];
    [|apply Hcov, list_elem_of_here].
  destruct (IH om1 w1 om' w') as [Hst Hs]; [|done|].
  { intros q Hq. rewrite Hst1. by apply Hcov, list_elem_of_further. }
  split; [congruence|].
  intros m. rewrite Hs, Hs1, (stream_at_opens w w1) by done. rewrite fmap_cons.
  destruct (decide (m ∈ getFileNameForStream name <$> ps ∧ m ∉ written))
    as [[Hm Hw]|Hm].
  - rewrite decide_True; [done|]. split; [by apply list_elem_of_further|done].
  - destruct (decide (m = getFileNameForStream name p ∧ m ∉ written))
      as [[-> Hw]|Hm'].
    + rewrite decide_True; [done|]. split; [apply list_elem_of_here|done].
    + rewrite decide_False; [done|]. intros [Hin Hw].
      apply elem_of_cons in Hin as [->|Hin]; [by apply Hm'|by apply Hm].
Qed.

Lemma writeData_marks_covered name type column out_marks written w om' w' :
  (∀ n, n ∈ stream_names name type → is_Some (files (storage w) !! n)) →
  writeData_marks name type column out_marks written w = Done om' w' →
  storage w' = storage w
  ∧ opens w w'
  ∧ om' = out_marks
          ++ (mark_value w (column_size column)
                <$> filter (λ n, n ∉ written) (stream_names name type))
  ∧ ∀ m, streams w' !! m
         = if decide (m ∈ stream_names name type ∧ m ∉ written)
           then Some (stream_at w m) else streams w !! m.
Proof.
  intros Hcov Hrun. unfold writeData_marks in Hrun.
  destruct (writeData_marks_streams _ _ _ _ _ _ _ _
              (λ p Hp, Hcov _ (list_elem_of_fmap_2 _ _ _ Hp)) Hrun) as [Hst Hs].
  apply writeData_marks_fold in Hrun as (Hop & new & -> & Hnew).
  split; [done|]. split; [done|]. split; [|done]. f_equal. unfold stream_names.
  rewrite filter_fmap_comm, <- list_fmap_compose.
  clear -Hnew. induction Hnew as [|q im qs ims Hq _ IH]; [done|].
  rewrite fmap_cons. f_equal; [|done]. by apply mark_emitted_value in Hq as [-> _].
Qed.

Lemma writeData_serialize_streams name written reqs : ∀ got w got' w',
  mfold (serialize_request name written) got reqs w = Done got' w' →
  ∀ n, streams w' !! n
       = if decide (n ∈ written) then streams w !! n
         else stream_write (max_compress_block_size (storage w))
                (filter (λ req, getFileNameForStream name req.1 = n) reqs ≫= snd)
              <$> streams w !! n.
Proof.
  induction reqs as [|req reqs IH]; intros got w got' w' Hrun n.
  { injection Hrun as _ <-. case_decide; [done|]. simpl.
    destruct (streams w !! n); simpl; by rewrite ?stream_write_nil. }
  rewrite mfold_cons in Hrun.
  destruct (serialize_request name written got req w) as [got1 w1| |] eqn:H1;
    try done.
  apply serialize_request_got in H1 as (_ & Hst & _ & _ & _ & Hs1).
  rewrite (IH _ _ _ _ Hrun n), Hst, Hs1. unfold getter_answer.
  set (n0 := getFileNameForStream name req.1).
  destruct (decide (n ∈ written)) as [Hn|Hn].
  - case_decide; [done|]. rewrite lookup_alter_ne; [done|]. by intros ->.
  - destruct (decide (n0 = n)) as [Heq|Hne].
    + rewrite filter_cons_True by done. rewrite bind_cons.
      rewrite decide_False by (by rewrite Heq). rewrite Heq, lookup_alter_eq.
      destruct (streams w !! n); simpl; [|done]. by rewrite stream_write_app.
    + rewrite filter_cons_False by done.
      case_decide; [done|]. by rewrite lookup_alter_ne.
Qed.

Lemma writeData_flush_streams name ps : ∀ written w written' w',
  mfold (flush_callback name) written ps w = Done written' w' →
  ∀ n, streams w' !! n
       = if decide (n ∈ getFileNameForStream name <$> ps ∧ n ∉ written)
         then compressed_next <$> streams w !! n else streams w !! n.
Proof.
  induction ps as [|p ps IH]; intros written w written' w' Hrun n.
  { injection Hrun as _ <-. rewrite decide_False; [done|].
    intros [Hn _]. by apply elem_of_nil in Hn. }
  rewrite mfold_cons in Hrun.
  destruct (flush_callback name written p w) as [wr1 w1| |] eqn:H1; try done.
  apply flush_callback_written in H1 as (-> & _ & _ & _ & _ & Hs1).
  rewrite (IH _ _ _ _ Hrun n), Hs1, fmap_cons.
  set (n0 := getFileNameForStream name p).
  destruct (decide (n = n0)) as [->|Hne].
  - rewrite (decide_False (P := _ ∧ n0 ∉ {[n0]} ∪ written)).
    2:{ intros [_ Hn]. apply Hn, elem_of_union. left. by apply elem_of_singleton. }
    destruct (decide (n0 ∈ written)) as [Hw|Hw].
    + rewrite decide_False; [done|]. by intros [_ ?].
    + rewrite lookup_alter_eq. rewrite decide_True; [done|].
      split; [apply list_elem_of_here|done].
  - assert (streams w !! n
            = (if decide (n0 ∈ written) then streams w
               else alter compressed_next n0 (streams w)) !! n) as <-.
    { destruct (decide (n0 ∈ written)); [done|]. by rewrite lookup_alter_ne. }
    destruct (decide (n ∈ getFileNameForStream name <$> ps ∧ n ∉ written))
      as [[Hn Hw]|Hn].
    + rewrite !decide_True; [done| |].
      * split; [by apply list_elem_of_further|done].
      * split; [done|]. rewrite elem_of_union, elem_of_singleton. tauto.
    + rewrite !decide_False; [done| |].
      * intros [Hin Hw]. apply Hn. split; [|done].
        apply elem_of_cons in Hin as [?|?]; [done|done].
      * intros [Hin Hw]. apply Hn. split; [done|].
        rewrite elem_of_union in Hw. tauto.
Qed.

Lemma column_data_not_enumerated c n :
  requests_enumerated →
  n ∉ stream_names (c_name c) (c_type c) → column_data c n = [].
Proof.
  intros Hreq Hn. unfold column_data.
  assert (filter (λ req, getFileNameForStream (c_name c) req.1 = n)
            (serializeBinaryBulkWithMultipleStreams (c_type c) (c_column c)) = [])
    as ->; [|done].
  apply filter_none. intros req Hin Hname.
  apply Hn. rewrite <- Hname. apply list_elem_of_fmap_2. by eapply Hreq.
Qed.

(** What [writeData] does for one column whose substreams are files of the
    table. *)
Lemma writeData_spec c out_marks written w om' written' w' :
  (∀ n, n ∈ stream_names (c_name c) (c_type c) → is_Some (files (storage w) !! n)) →
  writeData (c_name c) (c_type c) (c_column c) out_marks written w
  = Done (om', written') w' →
  storage w' = storage w
  ∧ (∀ p, file_content (disk w') p = file_content (disk w) p)
  ∧ marks_stream w' = marks_stream w
  ∧ done w' = done w
  ∧ written' = list_to_set (stream_names (c_name c) (c_type c)) ∪ written
  ∧ om' = out_marks
          ++ (mark_value w (column_size (c_column c))
                <$> filter (λ n, n ∉ written) (stream_names (c_name c) (c_type c)))
  ∧ ∀ n, streams w' !! n
         = if decide (n ∈ written) then streams w !! n
           else if decide (n ∈ stream_names (c_name c) (c_type c))
           then Some (compressed_next
                        (stream_write (max_compress_block_size (storage w))
                           (column_data c n) (stream_at w n)))
           else stream_write (max_compress_block_size (storage w))
                  (column_data c n) <$> streams w !! n.
Proof.
  intros Hcov Hrun. unfold writeData, mbind in Hrun.
  destruct (writeData_marks _ _ _ _ _ w) as [om1 w1| |] eqn:H1; try done.
  destruct (writeData_serialize _ _ _ _ w1) as [got w2| |] eqn:H2; try done.
  destruct (writeData_flush _ _ _ w2) as [wr3 w3| |] eqn:H3; try done.
  injection Hrun as <- <- <-.
  apply writeData_marks_covered in H1 as (Hst1 & Hop1 & -> & Hs1); [|done].
  pose proof (writeData_serialize_streams _ _ _ _ _ _ _ H2) as Hs2.
  apply serialize_requests_got in H2 as (_ & Hst2 & Hd2 & Hm2 & Hdn2).
  pose proof (writeData_flush_streams _ _ _ _ _ _ H3) as Hs3.
  apply writeData_flush_written in H3 as (-> & Hst3 & Hd3 & Hm3 & Hdn3).
  destruct Hop1 as (_ & _ & _ & Hd1 & _ & _ & _ & _ & _ & Hm1 & Hdn1).
  split; [congruence|]. split; [intros p; by rewrite Hd3, Hd2|].
  split; [congruence|]. split; [congruence|]. split; [done|]. split; [done|].
  intros n. rewrite Hs3, Hs2, Hs1, Hst1. fold (stream_names (c_name c) (c_type c)).
  fold (column_data c n).
  destruct (decide (n ∈ written)) as [Hw|Hw].
  - rewrite !decide_False; [done|by intros [_ ?]|by intros [_ ?]].
  - destruct (decide (n ∈ stream_names (c_name c) (c_type c))) as [Hn|Hn].
    + rewrite !decide_True by done. done.
    + rewrite !decide_False; [done|by intros [? _]|by intros [? _]].
Qed.

(** ** The columns of a block *)

Lemma emitted_names_not_written block : ∀ written n,
  n ∈ emitted_names written block → n ∉ written.
Proof.
  induction block as [|c block IH]; intros written n Hn; simpl in Hn.
  - by apply elem_of_nil in Hn.
  - apply elem_of_app in Hn as [Hn|Hn].
    + by apply list_elem_of_filter in Hn as [? _].
    + apply IH in Hn. rewrite elem_of_union in Hn. tauto.
Qed.

Lemma elem_of_emitted_names block : ∀ written n,
  n ∈ emitted_names written block ↔ (n ∉ written) ∧ n ∈ block_names block.
Proof.
  induction block as [|c block IH]; intros written n.
  - unfold block_names. simpl. rewrite elem_of_nil. tauto.
  - change (block_names (c :: block))
      with (stream_names (c_name c) (c_type c) ++ block_names block).
    cbn [emitted_names].
    rewrite !elem_of_app, list_elem_of_filter, IH, elem_of_union,
      elem_of_list_to_set.
    destruct (decide (n ∈ stream_names (c_name c) (c_type c))); tauto.
Qed.

Lemma Forall2_impl_elem {A B} (P Q : A → B → Prop) l k :
  Forall2 P l k → (∀ x y, x ∈ l → P x y → Q x y) → Forall2 Q l k.
Proof.
  induction 1 as [|x y l k Hxy _ IH]; intros HPQ; constructor.
  - apply HPQ; [apply list_elem_of_here|done].
  - apply IH. intros x' y' Hx'. apply HPQ. by apply list_elem_of_further.
Qed.

Lemma data_pos_same w w1 n :
  storage w1 = storage w →
  (∀ p, file_content (disk w1) p = file_content (disk w) p) →
  streams w1 !! n = streams w !! n →
  data_pos w1 n = data_pos w n ∧ stream_at w1 n = stream_at w n.
Proof.
  intros Hst Hd Hs. unfold data_pos, stream_at, fresh_stream.
  by rewrite Hs, Hst, !Hd.
Qed.

Lemma write_columns_spec r block : ∀ acc w acc' w',
  (∀ c, c ∈ block → column_size (c_column c) = r) →
  (∀ c n, c ∈ block → n ∈ stream_names (c_name c) (c_type c) →
          is_Some (files (storage w) !! n)) →
  mfold (λ acc column,
           writeData (c_name column) (c_type column) (c_column column) acc.1 acc.2)
    acc block w = Done acc' w' →
  storage w' = storage w
  ∧ (∀ p, file_content (disk w') p = file_content (disk w) p)
  ∧ marks_stream w' = marks_stream w
  ∧ done w' = done w
  ∧ (∃ new, acc'.1 = acc.1 ++ new
       ∧ Forall2 (block_mark w r) (emitted_names acc.2 block) new)
  ∧ (requests_enumerated →
     ∀ n, streams w' !! n
          = if decide (n ∈ emitted_names acc.2 block)
            then Some (write_stream (max_compress_block_size (storage w))
                         (block_data block n) (stream_at w n))
            else streams w !! n).
Proof.
  induction block as [|c block IH]; intros acc w acc' w' Hsize Hcov Hrun.
  { injection Hrun as <- <-. repeat split; try done.
    exists []. rewrite app_nil_r. split; [done|]. constructor. }
  rewrite mfold_cons in Hrun.
  destruct (writeData _ _ _ _ _ w) as [[om1 wr1] w1| |] eqn:H1; try done.
  apply writeData_spec in H1 as (Hst1 & Hd1 & Hm1 & Hdn1 & -> & -> & Hs1).
  2:{ intros n Hn. eapply Hcov; [apply list_elem_of_here|done]. }
  apply IH in Hrun as (Hst & Hd & Hm & Hdn & (new & Hnew & Hmarks) & Hs).
  2:{ intros c' Hc'. by apply Hsize, list_elem_of_further. }
  2:{ intros c' n Hc' Hn. rewrite Hst1. eapply Hcov; [|done].
      by apply list_elem_of_further. }
  cbn [fst snd] in *.
  assert (requests_enumerated → ∀ n,
            n ∉ acc.2 → n ∉ stream_names (c_name c) (c_type c) →
            streams w1 !! n = streams w !! n) as Hkeep.
  { intros Hreq n Hw Hn. rewrite Hs1, !decide_False by done.
    rewrite column_data_not_enumerated by done.
    destruct (streams w !! n); simpl; by rewrite ?stream_write_nil. }
  assert (∀ n, n ∈ emitted_names
                     (list_to_set (stream_names (c_name c) (c_type c)) ∪ acc.2)
                     block →
            (n ∉ acc.2) ∧ n ∉ stream_names (c_name c) (c_type c)) as Hlater.
  { intros n Hn. apply emitted_names_not_written in Hn.
    rewrite elem_of_union, elem_of_list_to_set in Hn. tauto. }
  split; [congruence|]. split; [intros p; by rewrite Hd, Hd1|].
  split; [congruence|]. split; [congruence|]. split.
  - eexists. split; [by rewrite Hnew, <- app_assoc|].
    simpl. apply Forall2_app.
    + rewrite (Hsize c) by apply list_elem_of_here.
      apply Forall2_fmap_r, Forall_Forall2_diag, Forall_forall.
      intros n Hn. unfold block_mark, mark_value. simpl. done.
    + eapply Forall2_impl_elem; [done|]. intros n im Hn (Hi & Hr & Ho).
      apply Hlater in Hn as [Hw Hn]. unfold block_mark.
      rewrite <- Hst1. split; [done|]. split; [done|]. intros Hreq.
      rewrite (Ho Hreq). f_equal. apply data_pos_same; auto.
  - intros Hreq n. rewrite (Hs Hreq). cbn [emitted_names block_data].
    rewrite Hst1.
    destruct (decide (n ∈ emitted_names
                        (list_to_set (stream_names (c_name c) (c_type c)) ∪ acc.2)
                        block)) as [Hn|Hn].
    + pose proof (Hlater n Hn) as [Hw Hnc].
      rewrite decide_True by (apply elem_of_app; by right).
      rewrite decide_False by done. do 2 f_equal. apply data_pos_same; auto.
    + rewrite Hs1. destruct (decide (n ∈ acc.2)) as [Hw|Hw].
      * rewrite decide_False; [done|]. intros Hin.
        apply elem_of_app in Hin as [Hin|Hin]; [|done].
        by apply list_elem_of_filter in Hin as [? _].
      * destruct (decide (n ∈ stream_names (c_name c) (c_type c))) as [Hnc|Hnc].
        -- rewrite decide_True; [done|]. apply elem_of_app. left.
           by apply list_elem_of_filter.
        -- rewrite decide_False.
           ++ rewrite column_data_not_enumerated by done.
              destruct (streams w !! n); simpl; by rewrite ?stream_write_nil.
           ++ intros Hin. apply elem_of_app in Hin as [Hin|Hin]; [|done].
              by apply list_elem_of_filter in Hin as [_ ?].
Qed.

(** ** One block *)

Lemma NoDup_fst_functional {A B} (l : list (A * B)) k a b :
  NoDup l.*1 → (k, a) ∈ l → (k, b) ∈ l → a = b.
Proof.
  induction l as [|[k' c] l IH]; intros Hnd Ha Hb.
  { by apply elem_of_nil in Ha. }
  rewrite fmap_cons in Hnd. apply NoDup_cons in Hnd as [Hk' Hnd].
  apply elem_of_cons in Ha as [Ha|Ha], Hb as [Hb|Hb].
  - congruence.
  - injection Ha as -> ->. destruct Hk'.
    by apply (list_elem_of_fmap_2 fst) in Hb.
  - injection Hb as -> ->. destruct Hk'.
    by apply (list_elem_of_fmap_2 fst) in Ha.
  - by apply IH.
Qed.

Lemma filter_marks_none {A} (R : A → nat * Mark → Prop) ci l new :
  Forall2 R l new →
  (∀ x im, x ∈ l → R x im → im.1 ≠ ci) →
  filter (λ im : nat * Mark, im.1 = ci) new = [].
Proof.
  induction 1 as [|x im l new Hx _ IH]; intros Hne; [done|].
  rewrite filter_cons_False by (eapply Hne; [apply list_elem_of_here|done]).
  apply IH. intros x' im' Hx'. apply Hne. by apply list_elem_of_further.
Qed.

Lemma filter_marks_one {A} `{!EqDecision A} (R : A → nat * Mark → Prop) ci l new x :
  Forall2 R l new → NoDup l → x ∈ l →
  (∀ x' im, x' ∈ l → R x' im → im.1 = ci ↔ x' = x) →
  ∃ im, filter (λ im : nat * Mark, im.1 = ci) new = [im] ∧ R x im.
Proof.
  induction 1 as [|x' im l new Hx' Hrest IH]; intros Hnd Hx Hci.
  { by apply elem_of_nil in Hx. }
  apply NoDup_cons in Hnd as [Hx'l Hnd].
  destruct (decide (x' = x)) as [->|Hne].
  - exists im. split; [|done].
    rewrite filter_cons_True by (by apply (Hci x im (list_elem_of_here _ _) Hx')).
    f_equal. eapply filter_marks_none; [done|].
    intros y im' Hy HR Him'.
    apply (Hci y im' (list_elem_of_further _ _ _ Hy) HR) in Him'. by subst.
  - apply elem_of_cons in Hx as [->|Hx]; [done|].
    destruct IH as (im0 & Hf & HR); [done..| |].
    { intros y im' Hy. apply Hci. by apply list_elem_of_further. }
    exists im0. split; [|done].
    rewrite filter_cons_False; [done|]. intros Him.
    by apply (Hci x' im (list_elem_of_here _ _) Hx') in Him.
Qed.

Lemma table_ok_layout st st' :
  layout st' = layout st → table_ok st → table_ok st'.
Proof.
  intros Hl (Hix & Hnd & Hnames). pose proof Hl as Hl'. unfold layout in Hl'.
  injection Hl' as _ _ Hc _ _ Hcn _ _.
  split; [by eapply index_consistent_layout|]. by rewrite Hc, Hcn.
Qed.

Lemma write_spec block w w' :
  table_ok (storage w) →
  write block w = Done tt w' →
  block_valid (storage w) block
  ∧ layout (storage w') = layout (storage w)
  ∧ loaded_marks (storage w') = loaded_marks (storage w)
  ∧ (∀ p, file_content (disk w') p = file_content (disk w) p)
  ∧ done w' = done w
  ∧ (∀ n cd, files (storage w) !! n = Some cd →
       ∃ m, marks_of (storage w') n = marks cd ++ [m]
         ∧ rows m = wrap64 (last_rows (marks cd) + Z.of_nat (block_rows block))
         ∧ (requests_enumerated → offset m = wrap64 (data_pos w n)))
  ∧ (requests_enumerated →
     ∀ n, streams w' !! n
          = if decide (n ∈ column_names (storage w))
            then Some (write_stream (max_compress_block_size (storage w))
                         (block_data block n) (stream_at w n))
            else streams w !! n).
Proof.
  intros (Hix & Hnd & Hnames) Hrun. unfold write, mbind, check_block in Hrun.
  case_decide as Hvalid; [|done]. split; [done|].
  destruct (write_columns block w) as [acc w1| |] eqn:Hcols; try done.
  destruct Hvalid as (Hsize & Hbnd & Hbcols & Hball).
  assert (∀ c n, c ∈ block → n ∈ stream_names (c_name c) (c_type c) →
            n ∈ column_names (storage w)) as Hsub.
  { intros c n Hc Hn. apply Hnames. unfold all_stream_names.
    apply list_elem_of_bind. exists (c_name c, c_type c). split; [done|].
    eapply Forall_forall in Hbcols; done. }
  apply (write_columns_spec (block_rows block)) in Hcols
    as (Hst1 & Hd1 & Hm1 & Hdn1 & (new & Hnew & Hmarks) & Hs1).
  2:{ intros c Hc. by eapply Forall_forall in Hsize. }
  2:{ intros c n Hc Hn. apply index_consistent_keys; eauto. }
  simpl in Hnew. subst new. cbn [fst snd] in *.
  set (L := emitted_names ∅ block) in *.
  unfold writeMarks in Hrun. case_decide as Hlen; [done|].
  assert (length (acc.1) = file_count (storage w1)) as Hlen' by lia. clear Hlen.
  rewrite Hst1 in Hlen'.
  assert (∀ n, n ∈ L ↔ n ∈ column_names (storage w)) as HL.
  { intros n. unfold L. rewrite elem_of_emitted_names. split.
    - intros [_ Hn]. unfold block_names in Hn.
      apply list_elem_of_bind in Hn as (c & Hn & Hc). eauto.
    - intros Hn. split; [apply not_elem_of_empty|].
      apply Hnames in Hn. unfold all_stream_names in Hn.
      apply list_elem_of_bind in Hn as ([cn t] & Hn & Hct). simpl in Hn.
      eapply Forall_forall in Hball; [|done]. simpl in Hball.
      apply list_elem_of_fmap in Hball as (c & -> & Hc).
      assert (c_type c = t) as <-.
      { eapply NoDup_fst_functional; [done| |done].
        eapply Forall_forall in Hbcols; done. }
      unfold block_names. apply list_elem_of_bind. eauto. }
  assert (L ≡ₚ column_names (storage w)) as Hperm.
  { symmetry. apply submseteq_length_Permutation.
    - apply NoDup_submseteq; [by apply index_consistent_NoDup|]. intros n. apply HL.
    - rewrite (Forall2_length _ _ _ Hmarks), Hlen'. by destruct Hix as [-> _]. }
  assert (NoDup L) as HLnd.
  { rewrite Hperm. by apply index_consistent_NoDup. }
  destruct (write_marks_fold (sort_marks acc.1) w1)
    as (w'' & Hrun' & Hlay & Hld & Hss & Hdisk & Hdone & _ & Hfiles).
  { by rewrite Hst1. }
  { unfold sort_marks. rewrite merge_sort_Permutation, Hst1.
    eapply Forall2_Forall_r; [done|]. apply Forall_forall.
    intros n Hn im (Hi & _). rewrite Hi. apply HL in Hn.
    apply (index_consistent_keys _ _ Hix) in Hn as [cd Hcd].
    unfold file_of. rewrite (files_at_present _ _ _ Hcd). simpl.
    destruct Hix as [-> Hix]. eapply lookup_lt_Some, Hix. eauto. }
  rewrite Hrun' in Hrun. injection Hrun as ->.
  rewrite Hst1 in Hlay, Hld, Hfiles.
  split; [done|]. split; [done|]. split; [intros p; by rewrite Hdisk, Hd1|].
  split; [congruence|]. split.
  - intros n cd Hcd.
    assert (n ∈ L) as Hn.
    { apply HL, index_consistent_keys; eauto. }
    destruct (filter_marks_one (block_mark w (block_rows block))
                (column_index cd) L acc.1 n Hmarks HLnd Hn)
      as (im & Hfilter & Him).
    { intros n' im' Hn' (Hi' & _). rewrite Hi'.
      apply HL, (index_consistent_keys _ _ Hix) in Hn' as [cd' Hcd'].
      unfold file_of. rewrite (files_at_present _ _ _ Hcd'). simpl.
      destruct Hix as [_ Hix]. split.
      - intros Heq.
        assert (column_names (storage w) !! column_index cd' = Some n') as H1
          by (apply Hix; eauto).
        assert (column_names (storage w) !! column_index cd = Some n) as H2
          by (apply Hix; eauto).
        congruence.
      - intros ->. congruence. }
    exists im.2. unfold marks_of. rewrite (Hfiles n cd Hcd). simpl.
    unfold block_mark, file_of in Him. rewrite (files_at_present _ _ _ Hcd) in Him.
    simpl in Him. destruct Him as (_ & Hr & Ho).
    split; [|done]. f_equal. unfold marks_for.
    assert (filter (λ m : nat * Mark, m.1 = column_index cd) (sort_marks acc.1)
            = [im]) as ->; [|done].
    apply Permutation_singleton_r. rewrite <- Hfilter.
    apply filter_Permutation. apply merge_sort_Permutation.
  - intros Hreq n. rewrite Hss, (Hs1 Hreq).
    destruct (decide (n ∈ L)) as [Hn|Hn].
    + rewrite decide_True by (by apply HL). done.
    + rewrite decide_False; [done|]. intros Hn'. by apply Hn, HL.
Qed.

(** ** The lock-step of the mark vectors *)

Lemma last_rows_fmap ms : last_rows ms = default 0%Z (last (rows <$> ms)).
Proof. unfold last_rows. rewrite fmap_last. by destruct (last ms). Qed.

Lemma layout_keys st st' n :
  layout st' = layout st → is_Some (files st' !! n) ↔ is_Some (files st !! n).
Proof.
  intros Hl. pose proof (layout_lookup st st' n Hl) as Hn.
  destruct (files st' !! n), (files st !! n); simpl in Hn; done.
Qed.

Lemma layout_data_file st st' n :
  layout st' = layout st →
  is_Some (files st !! n) →
  data_file (file_of st' n) = data_file (file_of st n).
Proof.
  intros Hl [cd Hcd]. pose proof (layout_lookup st st' n Hl) as Hn.
  unfold file_of, files_at. rewrite Hcd in *.
  destruct (files st' !! n) as [cd'|]; simpl in Hn; [|done].
  simpl. by injection Hn as _ ->.
Qed.

Lemma loadMarks_Done_inv disk st st' :
  index_consistent st →
  loaded_marks st = false →
  loadMarks disk st = Done tt st' →
  layout st' = layout st
  ∧ loaded_marks st' = true
  ∧ ∀ n cd, files st !! n = Some cd →
      marks_of st' n
      = marks cd
        ++ match disk !! marks_file st with
           | None => []
           | Some content =>
               records_of content (file_count st) (column_index cd)
                 (length content / (file_count st * sizeof_Mark))
           end.
Proof.
  intros Hst Hl Hrun. pose proof Hst as [Hfc Hix]. unfold loadMarks in Hrun.
  rewrite Hl, (files_by_index_consistent st Hst) in Hrun.
  destruct (disk !! marks_file st) as [content|] eqn:Hfile.
  - case_decide as Hz; [done|]. case_decide as Hmod; [done|].
    rewrite decide_False in Hrun by apply None_not_in_Some.
    set (g := length content / (file_count st * sizeof_Mark)).
    destruct (read_marks_file_spec (column_names st) g content st (length content))
      as (st1 & Hrun1 & Hlay & Hld & Hin & Hout).
    { by apply index_consistent_NoDup. }
    { unfold sizeof_Mark in Hz. lia. }
    { subst g. rewrite <- Hfc.
      assert (length content mod (file_count st * sizeof_Mark) = 0) as Hmod'.
      { destruct (decide (length content mod (file_count st * sizeof_Mark) = 0));
          [done|]. by destruct Hmod. }
      apply Nat.Div0.div_exact in Hmod'. rewrite Hmod' at 1.
      unfold sizeof_Mark. lia. }
    { done. }
    unfold mbind in Hrun. rewrite Hrun1 in Hrun. injection Hrun as <-.
    split; [by rewrite <- Hlay|]. split; [done|].
    intros n cd Hcd.
    assert (column_names st !! column_index cd = Some n) as Hn by (apply Hix; eauto).
    unfold marks_of. simpl. rewrite (Hin _ _ Hn), Hcd. simpl. by rewrite Hfc.
  - injection Hrun as <-. split; [done|]. split; [done|].
    intros n cd Hcd. unfold marks_of. simpl. by rewrite Hcd, app_nil_r.
Qed.



Lemma new_StorageLog_fresh path_ name_ (columns_ : list (string * DataType))
    mcbs st :
  new_StorageLog path_ name_ columns_ mcbs = inr st →
  ∀ n cd, files st !! n = Some cd → marks cd = [].
Proof.
  unfold new_StorageLog. destruct columns_ as [|c cols]; [done|].
  unfold getColumnsList. simpl columns.
  set (st0 := mkStorageLog _ _ _ _ _ _ _ _ _).
  destruct (addFiles_each (c :: cols) st0) as [|st1] eqn:Hrun; [done|].
  intros [= <-]. simpl.
  assert (∀ n cd, files st0 !! n = Some cd → marks cd = []) as H0.
  { intros n cd. subst st0. simpl. by rewrite lookup_empty. }
  revert Hrun H0. generalize (c :: cols) as l. generalize st0 as st. clear.
  intros st l. revert st. induction l as [|[n t] l IH]; intros st Hrun H0.
  - by injection Hrun as <-.
  - simpl in Hrun. unfold addFiles in Hrun. destruct (files st !! n); [done|].
    apply (IH _ Hrun). clear -H0. revert st H0.
    induction (enumerateStreams t) as [|p ps IHp]; intros st H0; [done|].
    simpl. apply IHp. intros m cd. unfold stream_callback.
    destruct (files st !! getFileNameForStream n p) eqn:Hp; [apply H0|].
    simpl. rewrite lookup_insert. case_decide; [|apply H0].
    by intros [= <-].
Qed.

Lemma new_StorageLog_table_ok path_ name_ (columns_ : list (string * DataType))
    mcbs st :
  new_StorageLog path_ name_ columns_ mcbs = inr st →
  NoDup columns_.*1 →
  table_ok st.
Proof.
  intros Hnew Hnd.
  apply new_StorageLog_consistent in Hnew as (Hix & Hcols & Hnames & _).
  split; [done|]. rewrite Hcols. split; [done|].
  intros n. rewrite Hnames, elem_of_first_encounter, elem_of_nil. tauto.
Qed.



(** ** Marks and the data files *)

Lemma layout_file_of_data_file st st' n :
  layout st' = layout st → data_file (file_of st' n) = data_file (file_of st n).
Proof.
  intros Hl. pose proof (layout_lookup st st' n Hl) as Hn.
  unfold file_of, files_at.
  destruct (files st' !! n) as [cd'|], (files st !! n) as [cd|];
    simpl in *; try done.
  by injection Hn as _ ->.
Qed.

Lemma layout_max_compress_block_size st st' :
  layout st' = layout st → max_compress_block_size st' = max_compress_block_size st.
Proof. unfold layout. by intros [= _ _ _ -> _ _ _ _]. Qed.

Lemma layout_column_names st st' :
  layout st' = layout st → column_names st' = column_names st.
Proof. unfold layout. by intros [= _ _ _ _ _ -> _ _]. Qed.

Lemma stream_at_flushed w n :
  streams_flushed w →
  compressed (stream_at w n) = []
  ∧ plain_offset (stream_at w n)
    = Z.of_nat (length (file_content (disk w) (data_file (file_of (storage w) n))))
  ∧ wb_count (plain (stream_at w n)) = length (wb_pending (plain (stream_at w n))).
Proof.
  intros Hfl. unfold stream_at. destruct (streams w !! n) as [s|] eqn:Hs.
  - by apply Hfl.
  - done.
Qed.

Lemma data_pos_content w n :
  streams_flushed w → data_pos w n = Z.of_nat (length (data_content w n)).
Proof.
  intros Hfl. destruct (stream_at_flushed w n Hfl) as (_ & Ho & Hc).
  rewrite data_pos_stream_at, Ho, Hc. unfold data_content.
  rewrite length_app. lia.
Qed.

Lemma write_flushed block w w' :
  table_ok (storage w) →
  requests_enumerated →
  streams_flushed w →
  write block w = Done tt w' →
  streams_flushed w'
  ∧ ∀ n, n ∈ column_names (storage w) →
      data_content w' n
      = data_content w n
        ++ frames_of (max_compress_block_size (storage w)) [] (block_data block n).
Proof.
  intros Hok Hreq Hfl Hrun.
  apply write_spec in Hrun as (_ & Hlay & _ & Hd & _ & _ & Hs); [|done].
  specialize (Hs Hreq).
  assert (∀ n, n ∈ column_names (storage w) →
            let s' := write_stream (max_compress_block_size (storage w))
                        (block_data block n) (stream_at w n) in
            streams w' !! n = Some s'
            ∧ compressed s' = []
            ∧ plain_offset s' = plain_offset (stream_at w n)
            ∧ wb_pending (plain s')
              = wb_pending (plain (stream_at w n))
                ++ frames_of (max_compress_block_size (storage w)) []
                     (block_data block n)
            ∧ wb_count (plain s')
              = wb_count (plain (stream_at w n))
                + length (frames_of (max_compress_block_size (storage w)) []
                            (block_data block n))) as Hkeys.
  { intros n Hn s'. split; [by rewrite Hs, decide_True|].
    destruct (stream_at_flushed w n Hfl) as (Hc & _ & _).
    destruct (write_stream_spec (max_compress_block_size (storage w))
                (block_data block n) (stream_at w n)) as (H1 & H2 & _ & H4 & H5).
    rewrite Hc in H4, H5. done. }
  split.
  - intros n s Hs'. rewrite Hd, (layout_file_of_data_file _ _ n Hlay).
    rewrite Hs in Hs'. case_decide as Hn.
    + injection Hs' as <-.
      destruct (Hkeys n Hn) as (_ & Hc & Ho & Hp & Hcnt).
      destruct (stream_at_flushed w n Hfl) as (_ & Ho' & Hc').
      split; [done|]. split; [by rewrite Ho|].
      rewrite Hcnt, Hp, length_app. lia.
    + by apply Hfl.
  - intros n Hn. destruct (Hkeys n Hn) as (Hs' & _ & _ & Hp & _).
    unfold data_content.
    rewrite Hd, (layout_file_of_data_file _ _ n Hlay), <- app_assoc. f_equal.
    unfold stream_at at 1. by rewrite Hs'.
Qed.

Lemma write_all_inv pre : ∀ w0 w,
  table_ok (storage w0) →
  requests_enumerated →
  streams_flushed w0 →
  write_all pre w0 = Done tt w →
  table_ok (storage w)
  ∧ streams_flushed w
  ∧ layout (storage w) = layout (storage w0)
  ∧ ∀ n cd, files (storage w0) !! n = Some cd →
      ∃ later, marks_of (storage w) n = marks cd ++ later
        ∧ length later = length pre.
Proof.
  induction pre as [|block pre IH]; intros w0 w Hok Hreq Hfl Hrun.
  { injection Hrun as <-. split; [done|]. split; [done|]. split; [done|].
    intros n cd Hcd. exists []. unfold marks_of. by rewrite Hcd, app_nil_r. }
  unfold write_all in Hrun. rewrite mfold_cons in Hrun.
  destruct (write block w0) as [[] w1| |] eqn:H1; try done.
  destruct (write_flushed _ _ _ Hok Hreq Hfl H1) as [Hfl1 _].
  apply write_spec in H1 as (_ & Hlay1 & _ & _ & _ & Hmarks1 & _); [|done].
  destruct (IH w1 w) as (Hokw & Hflw & Hlayw & Hmarksw); try done.
  { by eapply table_ok_layout. }
  split; [done|]. split; [done|]. split; [congruence|].
  intros n cd Hcd. destruct (Hmarks1 n cd Hcd) as (m & Hm & _).
  destruct (proj2 (layout_keys _ _ n Hlay1) (mk_is_Some _ _ Hcd)) as [cd1 Hcd1].
  destruct (Hmarksw n cd1 Hcd1) as (later & Hl & Hlen).
  exists (m :: later). split; [|simpl; lia].
  rewrite Hl. unfold marks_of in Hm. rewrite Hcd1 in Hm. simpl in Hm.
  by rewrite Hm, <- app_assoc.
Qed.

Lemma new_writer_flushed st (disk_ : gmap string (list byte)) :
  streams_flushed (new_LogBlockOutputStream st disk_).
Proof. intros n s. simpl. by rewrite lookup_empty. Qed.

(** C4 (as the code has it).  Let a writer made on a table write the blocks
    [pre] and then [block].  For every substream, the mark that [block]
    adds, at index [length pre] after the marks the table had, records as
    [offset] the length that the data file of the substream had reached
    before [block] (in [size_t]); and after [block] the data file is what
    it was before, followed by the frames of the bytes of [block] for the
    substream.  So the offset of a mark is the position at which the frames
    of its own block begin, not the position after them. *)
Theorem mark_offset_is_block_start st (disk_ : gmap string (list byte))
    pre block w w' :
  table_ok st →
  requests_enumerated →
  write_all pre (new_LogBlockOutputStream st disk_) = Done tt w →
  write block w = Done tt w' →
  ∀ n cd, files st !! n = Some cd →
    ∃ m,
      marks_of (storage w') n !! (length (marks cd) + length pre) = Some m
      ∧ length (marks_of (storage w') n) = length (marks cd) + length pre + 1
      ∧ offset m = wrap64 (Z.of_nat (length (data_content w n)))
      ∧ data_content w' n
        = data_content w n
          ++ frames_of (max_compress_block_size st) [] (block_data block n).
Proof.
  intros Hok Hreq Hpre Hrun n cd Hcd.
  destruct (write_all_inv pre (new_LogBlockOutputStream st disk_) w Hok Hreq
              (new_writer_flushed st disk_) Hpre)
    as (Hokw & Hflw & Hlayw & Hmarksw).
  simpl in Hlayw, Hmarksw.
  destruct (Hmarksw n cd Hcd) as (later & Hlater & Hlen).
  destruct (write_flushed _ _ _ Hokw Hreq Hflw Hrun) as [_ Hcontent].
  apply write_spec in Hrun as (_ & _ & _ & _ & _ & Hmarks & _); [|done].
  destruct (proj2 (layout_keys _ _ n Hlayw) (mk_is_Some _ _ Hcd)) as [cdw Hcdw].
  destruct (Hmarks n cdw Hcdw) as (m & Hm & _ & Ho).
  assert (marks cdw = marks cd ++ later) as Hcdw'.
  { unfold marks_of in Hlater. by rewrite Hcdw in Hlater. }
  exists m. rewrite Hm, Hcdw'. split; [|split; [|split]].
  - rewrite lookup_app_r; rewrite !length_app; [|lia].
    replace (length (marks cd) + length pre - (length (marks cd) + length later))
      with 0 by lia. done.
  - rewrite !length_app. simpl. lia.
  - rewrite (Ho Hreq). by rewrite data_pos_content.
  - rewrite <- (layout_max_compress_block_size _ _ Hlayw). apply Hcontent.
    rewrite (layout_column_names _ _ Hlayw).
    destruct Hok as (Hix & _). apply index_consistent_keys; eauto.
Qed.

(** ** The reader's seek, and the encoding of marks *)


Lemma Z_of_byte_of_Z z : Z_of_byte (byte_of_Z z) = (z mod 256)%Z.
Proof.
  unfold Z_of_byte, byte_of_Z.
  assert (0 ≤ z mod 256 < 256)%Z as Hr by (apply Z.mod_pos_bound; lia).
  destruct (Byte.of_N (Z.to_N (z mod 256))) as [b|] eqn:Hb.
  - apply Byte.to_of_N in Hb. rewrite Hb. lia.
  - apply Byte.of_N_None_iff in Hb. lia.
Qed.

Lemma le_value_le_bytes n : ∀ z, le_value (le_bytes n z) = (z mod 256 ^ Z.of_nat n)%Z.
Proof.
  induction n as [|n IH]; intros z.
  - simpl. by rewrite Z.mod_1_r.
  - cbn [le_bytes le_value]. rewrite Z_of_byte_of_Z, IH.
    replace (256 ^ Z.of_nat (S n))%Z with (256 * 256 ^ Z.of_nat n)%Z.
    + rewrite Z.rem_mul_r; lia.
    + rewrite Nat2Z.inj_succ, Z.pow_succ_r; lia.
Qed.

Lemma length_le_bytes n z : length (le_bytes n z) = n.
Proof. revert z. induction n as [|n IH]; intros z; simpl; [done|]. by rewrite IH. Qed.

(** A mark written to the marks file is read back as it was. *)
Lemma read_write_mark m : Mark_in_range m → read_mark (write_mark m) = m.
Proof.
  intros [Hr Ho]. unfold read_mark, write_mark.
  rewrite take_app_length' by (by rewrite length_le_bytes).
  rewrite drop_app_length' by (by rewrite length_le_bytes).
  rewrite take_ge by (by rewrite length_le_bytes).
  rewrite !le_value_le_bytes. change (256 ^ Z.of_nat 8)%Z with (2 ^ 64)%Z.
  rewrite !Z.mod_small by done. by destruct m.
Qed.

(** ** The marks file as a writer extends it *)

Lemma Forall2_Forall_exists {A B} (R : A → B → Prop) l k :
  Forall2 R l k → Forall (λ y, ∃ x, x ∈ l ∧ R x y) k.
Proof.
  induction 1 as [|x y l k Hxy _ IH]; constructor.
  - exists x. split; [apply list_elem_of_here|done].
  - eapply Forall_impl; [done|]. intros y' (x' & Hx' & HR).
    exists x'. split; [by apply list_elem_of_further|done].
Qed.

(** The record group that [write] gives to the marks stream: one record for
    every substream, each with the rows of a mark of the block. *)
Lemma write_marks_stream block w w' :
  table_ok (storage w) →
  write block w = Done tt w' →
  ∃ group : MarksForColumns,
    marks_stream w' = wb_write (group ≫= (λ m, write_mark m.2)) (marks_stream w)
    ∧ length group = file_count (storage w)
    ∧ Forall (λ im, ∃ n cd, files (storage w) !! n = Some cd
                ∧ rows im.2
                  = wrap64 (last_rows (marks cd) + Z.of_nat (block_rows block)))
        group.
Proof.
  intros (Hix & Hnd & Hnames) Hrun. unfold write, mbind, check_block in Hrun.
  case_decide as Hvalid; [|done].
  destruct (write_columns block w) as [acc w1| |] eqn:Hcols; try done.
  destruct Hvalid as (Hsize & Hbnd & Hbcols & Hball).
  assert (∀ c n, c ∈ block → n ∈ stream_names (c_name c) (c_type c) →
            is_Some (files (storage w) !! n)) as Hsub.
  { intros c n Hc Hn. apply index_consistent_keys; [done|].
    apply Hnames. unfold all_stream_names.
    apply list_elem_of_bind. exists (c_name c, c_type c). split; [done|].
    eapply Forall_forall in Hbcols; done. }
  apply (write_columns_spec (block_rows block)) in Hcols
    as (Hst1 & _ & Hm1 & _ & (new & Hnew & Hmarks) & _); [|
    intros c Hc; by eapply Forall_forall in Hsize | done].
  simpl in Hnew. subst new.
  apply Forall2_Forall_exists in Hmarks.
  assert (Forall (λ im : nat * Mark,
                    ∃ n cd, files (storage w) !! n = Some cd
                      ∧ im.1 = column_index cd
                      ∧ rows im.2
                        = wrap64 (last_rows (marks cd)
                                  + Z.of_nat (block_rows block))) acc.1) as Hall.
  { eapply Forall_impl; [done|]. intros im (n & Hn & Hi & Hr & _).
    apply elem_of_emitted_names in Hn as [_ Hn]. unfold block_names in Hn.
    apply list_elem_of_bind in Hn as (c & Hn & Hc).
    destruct (Hsub c n Hc Hn) as [cd Hcd]. exists n, cd.
    unfold file_of in Hi, Hr. rewrite (files_at_present _ _ _ Hcd) in Hi, Hr.
    done. }
  unfold writeMarks in Hrun. case_decide as Hlen; [done|].
  destruct (write_marks_fold (sort_marks acc.1) w1)
    as (w'' & Hrun' & _ & _ & _ & _ & _ & Hms & _).
  { by rewrite Hst1. }
  { unfold sort_marks. rewrite merge_sort_Permutation, Hst1.
    eapply Forall_impl; [done|]. intros im (n & cd & Hcd & -> & _).
    destruct Hix as [-> Hix]. eapply lookup_lt_Some, Hix. eauto. }
  rewrite Hrun' in Hrun. injection Hrun as ->.
  exists (sort_marks acc.1). rewrite Hms, Hm1. split; [done|]. split.
  - unfold sort_marks. rewrite merge_sort_Permutation, <- Hst1.
    destruct (decide (length acc.1 = file_count (storage w1))); [done|].
    by destruct Hlen.
  - unfold sort_marks. rewrite merge_sort_Permutation.
    eapply Forall_impl; [done|]. intros im (n & cd & Hcd & _ & Hr). eauto.
Qed.

Lemma rows_read_write_mark m :
  rows (read_mark (write_mark m)) = wrap64 (rows m).
Proof.
  unfold read_mark, write_mark. cbn [rows].
  rewrite take_app_length' by (by rewrite length_le_bytes).
  by rewrite le_value_le_bytes.
Qed.

Lemma length_write_marks (group : MarksForColumns) :
  length (group ≫= (λ m, write_mark m.2)) = sizeof_Mark * length group.
Proof.
  induction group as [|m group IH]; [done|].
  rewrite bind_cons, length_app, IH. unfold write_mark.
  rewrite length_app, !length_le_bytes. unfold sizeof_Mark. simpl. lia.
Qed.

Lemma record_at_write_marks (group : MarksForColumns) : ∀ i im,
  group !! i = Some im →
  rows (record_at (group ≫= (λ m, write_mark m.2)) i) = wrap64 (rows im.2).
Proof.
  induction group as [|m group IH]; intros i im Hi; [done|].
  rewrite bind_cons. destruct i as [|i]; simpl in Hi.
  - injection Hi as ->. unfold record_at. rewrite Nat.mul_0_r, drop_0.
    rewrite take_app_length' by
      (unfold write_mark; by rewrite length_app, !length_le_bytes).
    apply rows_read_write_mark.
  - rewrite <- (IH i im Hi). unfold record_at. do 3 f_equal.
    replace (sizeof_Mark * S i) with (length (write_mark m.2) + sizeof_Mark * i).
    + by rewrite drop_app_add'.
    + unfold write_mark. rewrite length_app, !length_le_bytes.
      unfold sizeof_Mark. lia.
Qed.

Lemma record_at_app_l content rest j :
  sizeof_Mark * S j ≤ length content →
  record_at (content ++ rest) j = record_at content j.
Proof.
  intros Hj. unfold record_at. f_equal.
  rewrite drop_app_le by lia. rewrite take_app_le; [done|].
  rewrite length_drop. lia.
Qed.

Lemma record_at_app_r content rest j g :
  length content = sizeof_Mark * g →
  record_at (content ++ rest) (g + j) = record_at rest j.
Proof.
  intros Hg. unfold record_at. do 2 f_equal.
  replace (sizeof_Mark * (g + j)) with (length content + sizeof_Mark * j) by lia.
  by rewrite drop_app_add'.
Qed.

(** A marks file in lock-step stays so when a record group with one [rows]
    value is appended. *)
Lemma marks_file_lock_step_app fc content (group : MarksForColumns) r :
  0 < fc →
  length content mod (fc * sizeof_Mark) = 0 →
  marks_file_lock_step fc content →
  length group = fc →
  Forall (λ im, rows im.2 = r) group →
  let content' := content ++ (group ≫= (λ m, write_mark m.2)) in
  length content' mod (fc * sizeof_Mark) = 0
  ∧ marks_file_lock_step fc content'.
Proof.
  intros Hfc Hmod Hls Hlen Hrows content'.
  apply Nat.Div0.div_exact in Hmod.
  set (g := length content / (fc * sizeof_Mark)) in *.
  assert (length content' = S g * (fc * sizeof_Mark)) as Hlen'.
  { unfold content'. rewrite length_app, length_write_marks, Hlen. lia. }
  split.
  { rewrite Hlen'. apply Nat.Div0.mod_mul. }
  intros k i j Hi Hj Hk.
  assert (length content' / (fc * sizeof_Mark) = S g) as Hg'.
  { rewrite Hlen'. apply Nat.div_mul. unfold sizeof_Mark. lia. }
  rewrite Hg' in Hk.
  destruct (decide (k < g)) as [Hlt|Hge].
  - unfold content'. rewrite !record_at_app_l by (unfold sizeof_Mark in *; nia).
    by apply Hls.
  - assert (k = g) as -> by lia. unfold content'.
    rewrite !(record_at_app_r _ _ _ (g * fc)) by (unfold sizeof_Mark in *; lia).
    destruct (lookup_lt_is_Some_2 group i) as [a Ha]; [lia|].
    destruct (lookup_lt_is_Some_2 group j) as [b Hb]; [lia|].
    rewrite (record_at_write_marks _ _ _ Ha), (record_at_write_marks _ _ _ Hb).
    eapply Forall_lookup_1 in Ha; [|done]. eapply Forall_lookup_1 in Hb; [|done].
    simpl in Ha, Hb. congruence.
Qed.

(** The marks file that a writer makes, what is in the file together with
    what its marks stream holds, stays in lock-step over a block. *)
Lemma write_keeps_marks_file_lock_step block w w' content :
  table_ok (storage w) →
  lock_step (storage w) →
  0 < file_count (storage w) →
  let fc := file_count (storage w) in
  length (content ++ wb_pending (marks_stream w)) mod (fc * sizeof_Mark) = 0 →
  marks_file_lock_step fc (content ++ wb_pending (marks_stream w)) →
  write block w = Done tt w' →
  length (content ++ wb_pending (marks_stream w')) mod (fc * sizeof_Mark) = 0
  ∧ marks_file_lock_step fc (content ++ wb_pending (marks_stream w')).
Proof.
  intros Hok Hls Hfc fc Hmod Hfile Hrun.
  destruct (write_marks_stream _ _ _ Hok Hrun) as (group & -> & Hlen & Hrows).
  simpl. rewrite app_assoc.
  destruct Hok as (Hix & _).
  destruct (lookup_lt_is_Some_2 (column_names (storage w)) 0) as [n0 Hn0].
  { destruct Hix as [<- _]. done. }
  apply Hix in Hn0 as (cd0 & Hcd0 & _).
  eapply (marks_file_lock_step_app fc _ group
            (wrap64 (last_rows (marks cd0) + Z.of_nat (block_rows block))));
    try done.
  eapply Forall_impl; [done|]. intros im (n & cd & Hcd & ->).
  by rewrite !last_rows_fmap, (Hls n n0 cd cd0 Hcd Hcd0).
Qed.

(** ** The files of a table *)

Lemma string_app_length a b :
  String.length (a +:+ b) = String.length a + String.length b.
Proof. induction a as [|c a IH]; simpl; [done|]. by rewrite IH. Qed.

Lemma string_app_inj_2 x : ∀ y s t,
  String.length s = String.length t → x +:+ s = y +:+ t → x = y ∧ s = t.
Proof.
  pose proof string_app_length as Hlen.
  induction x as [|c x IH]; intros [|d y] s t Hst Heq.
  - done.
  - apply (f_equal String.length) in Heq. rewrite !Hlen in Heq. simpl in Heq. lia.
  - apply (f_equal String.length) in Heq. rewrite !Hlen in Heq. simpl in Heq. lia.
  - cbn [String.append] in Heq. injection Heq as -> Heq. destruct (IH _ _ _ Hst Heq) as [-> ->]. done.
Qed.

Lemma data_file_not_marks_file dir n :
  dir +:+ n +:+ DBMS_STORAGE_LOG_DATA_FILE_EXTENSION
  ≠ dir +:+ DBMS_STORAGE_LOG_MARKS_FILE_NAME.
Proof.
  intros Heq. apply (inj (String.append dir)) in Heq.
  change DBMS_STORAGE_LOG_MARKS_FILE_NAME with ("__marks" +:+ ".mrk")%string in Heq.
  apply string_app_inj_2 in Heq as [_ Heq]; [done|done].
Qed.

Lemma data_file_inj dir n n' :
  dir +:+ n +:+ DBMS_STORAGE_LOG_DATA_FILE_EXTENSION
  = dir +:+ n' +:+ DBMS_STORAGE_LOG_DATA_FILE_EXTENSION → n = n'.
Proof.
  intros Heq. apply (inj (String.append dir)) in Heq.
  by apply string_app_inj_2 in Heq as [-> _].
Qed.

Lemma stream_callback_named column_name st p :
  data_files_named st →
  data_files_named (stream_callback column_name st p)
  ∧ path (stream_callback column_name st p) = path st
  ∧ name (stream_callback column_name st p) = name st
  ∧ marks_file (stream_callback column_name st p) = marks_file st
  ∧ max_compress_block_size (stream_callback column_name st p)
    = max_compress_block_size st.
Proof.
  intros Hst. unfold stream_callback.
  destruct (files st !! _) as [cd|] eqn:Hf; [done|].
  split; [|done]. intros n cd. simpl.
  change (table_dir (mkStorageLog _ _ _ _ _ _ _ _ _)) with (table_dir st).
  destruct (decide (n = getFileNameForStream column_name p)) as [->|Hne].
  - rewrite lookup_insert_eq. by intros [= <-].
  - rewrite lookup_insert_ne by done. apply Hst.
Qed.

Lemma addFiles_each_named cols : ∀ st st',
  data_files_named st →
  addFiles_each cols st = inr st' →
  data_files_named st' ∧ path st' = path st ∧ name st' = name st
  ∧ marks_file st' = marks_file st
  ∧ max_compress_block_size st' = max_compress_block_size st.
Proof.
  induction cols as [|[n t] cols IH]; intros st st' Hst Hrun; simpl in Hrun.
  { by injection Hrun as <-. }
  unfold addFiles in Hrun. destruct (files st !! n); [done|].
  assert (∀ ps st1, data_files_named st1 →
            data_files_named (foldl (stream_callback n) st1 ps)
            ∧ path (foldl (stream_callback n) st1 ps) = path st1
            ∧ name (foldl (stream_callback n) st1 ps) = name st1
            ∧ marks_file (foldl (stream_callback n) st1 ps) = marks_file st1
            ∧ max_compress_block_size (foldl (stream_callback n) st1 ps)
              = max_compress_block_size st1) as Hfold.
  { induction ps as [|p ps IHp]; intros st1 H1; simpl; [done|].
    destruct (stream_callback_named n st1 p H1) as (H2 & Hp & Hn & Hm & Hc).
    destruct (IHp _ H2) as (H3 & Hp' & Hn' & Hm' & Hc').
    rewrite Hp', Hn', Hm', Hc'. done. }
  destruct (Hfold (enumerateStreams t) st Hst) as (H1 & Hp & Hn & Hm & Hc).
  destruct (IH _ _ H1 Hrun) as (H2 & Hp' & Hn' & Hm' & Hc').
  rewrite Hp', Hn', Hm', Hc'. done.
Qed.

Lemma new_StorageLog_named path_ name_ (columns_ : list (string * DataType))
    mcbs st :
  new_StorageLog path_ name_ columns_ mcbs = inr st →
  data_files_named st
  ∧ path st = path_ ∧ name st = name_
  ∧ marks_file st = table_dir st +:+ DBMS_STORAGE_LOG_MARKS_FILE_NAME
  ∧ max_compress_block_size st = mcbs.
Proof.
  unfold new_StorageLog. destruct columns_ as [|c cols]; [done|].
  unfold getColumnsList. simpl columns.
  set (st0 := mkStorageLog _ _ _ _ _ _ _ _ _).
  destruct (addFiles_each (c :: cols) st0) as [|st1] eqn:Hrun; [done|].
  intros [= <-].
  assert (data_files_named st0) as H0.
  { intros n cd Hn. simpl in Hn. by rewrite lookup_empty in Hn. }
  destruct (addFiles_each_named _ _ _ H0 Hrun) as (Hn & Hp & Hnm & Hm & Hc).
  done.
Qed.

(** X1.  In a descriptor that the constructor returned, the marks file is
    [__marks.mrk] in the directory of the table, the data file of every
    substream is the file in that directory named after the substream with
    the extension [.bin], no data file is the marks file, and two substreams
    never have the same data file. *)
Theorem new_StorageLog_data_files path_ name_ (columns_ : list (string * DataType))
    mcbs st :
  new_StorageLog path_ name_ columns_ mcbs = inr st →
  marks_file st = (path_ +:+ name_ +:+ "/") +:+ DBMS_STORAGE_LOG_MARKS_FILE_NAME
  ∧ (∀ n cd, files st !! n = Some cd →
       data_file cd
       = (path_ +:+ name_ +:+ "/") +:+ n +:+ DBMS_STORAGE_LOG_DATA_FILE_EXTENSION
       ∧ data_file cd ≠ marks_file st)
  ∧ (∀ n n' cd cd', files st !! n = Some cd → files st !! n' = Some cd' →
       data_file cd = data_file cd' → n = n').
Proof.
  intros Hnew.
  destruct (new_StorageLog_named _ _ _ _ _ Hnew) as (Hn & Hp & Hnm & Hm & _).
  assert (table_dir st = path_ +:+ name_ +:+ "/") as Hd
    by (unfold table_dir; by rewrite Hp, Hnm).
  rewrite Hm, <- Hd. split; [done|]. split.
  - intros n cd Hcd. rewrite (Hn n cd Hcd). split; [done|].
    apply data_file_not_marks_file.
  - intros n n' cd cd' Hcd Hcd'. rewrite (Hn n cd Hcd), (Hn n' cd' Hcd').
    apply data_file_inj.
Qed.

(** ** The marks that count the rows *)

Lemma first_encounter_head x seen l : first_encounter (x :: seen) l !! 0 = Some x.
Proof.
  revert seen. induction l as [|y l IH]; intros seen; [done|].
  change (first_encounter (x :: seen) (y :: l))
    with (first_encounter
            (if decide (y ∈ x :: seen) then x :: seen else (x :: seen) ++ [y]) l).
  case_decide; apply IH.
Qed.

Lemma first_file_name_fold column_name ps s :
  s ≠ EmptyString →
  foldl (λ filename substream_path,
           if decide (filename = EmptyString)
           then getFileNameForStream column_name substream_path
           else filename) s ps = s.
Proof.
  intros Hs. induction ps as [|p ps IH]; simpl; [done|].
  by rewrite decide_False.
Qed.

Lemma getMarksWithRealRowCount_first path_ name_ mcbs st st' c t rest p ps :
  new_StorageLog path_ name_ ((c, t) :: rest) mcbs = inr st →
  layout st' = layout st →
  isNullable t = false →
  enumerateStreams t = p :: ps →
  getFileNameForStream c p ≠ EmptyString →
  column_names st' !! 0 = Some (getFileNameForStream c p)
  ∧ getMarksWithRealRowCount st'
    = Done (marks_of st' (getFileNameForStream c p)) st'.
Proof.
  intros Hnew Hlay Hnull Hps Hname.
  destruct (new_StorageLog_consistent _ _ _ _ _ Hnew) as (Hix & Hcols & Hnames & _).
  assert (column_names st' !! 0 = Some (getFileNameForStream c p)) as H0.
  { rewrite (layout_column_names _ _ Hlay), Hnames.
    unfold all_stream_names. simpl. unfold stream_names at 1. rewrite Hps. simpl.
    change (first_encounter [] (getFileNameForStream c p :: ?l))
      with (first_encounter [getFileNameForStream c p] l).
    apply first_encounter_head. }
  split; [done|].
  assert (index_consistent st') as Hix' by (by eapply index_consistent_layout).
  pose proof H0 as H0'. apply Hix' in H0' as (cd & Hcd & _).
  assert (columns st' = (c, t) :: rest) as Hcols'.
  { rewrite <- Hcols. unfold layout in Hlay. by injection Hlay. }
  unfold getMarksWithRealRowCount. rewrite Hcols', Hnull, Hps. simpl.
  rewrite first_file_name_fold by done.
  unfold marks_of. by rewrite Hcd.
Qed.

(** X2.  On a table that the constructor returned and whose first column
    is not Nullable, whatever marks were loaded or written since,
    [getMarksWithRealRowCount] returns, and what it returns is the mark
    vector of the first substream of the first column, the substream of
    column index 0.  (The first file name that is not empty is taken, so
    the name of that substream must not be empty.) *)
Theorem getMarksWithRealRowCount_first_stream path_ name_ mcbs st st' c t rest p ps :
  new_StorageLog path_ name_ ((c, t) :: rest) mcbs = inr st →
  layout st' = layout st →
  isNullable t = false →
  enumerateStreams t = p :: ps →
  getFileNameForStream c p ≠ EmptyString →
  ∃ cd, files st' !! getFileNameForStream c p = Some cd
    ∧ column_index cd = 0
    ∧ getMarksWithRealRowCount st' = Done (marks cd) st'.
Proof.
  intros Hnew Hlay Hnull Hps Hname.
  destruct (getMarksWithRealRowCount_first _ _ _ _ _ _ _ _ _ _
              Hnew Hlay Hnull Hps Hname) as [H0 Hrun].
  destruct (new_StorageLog_consistent _ _ _ _ _ Hnew) as (Hix & _).
  assert (index_consistent st') as Hix' by (by eapply index_consistent_layout).
  apply Hix' in H0 as (cd & Hcd & Hi). exists cd. split; [done|]. split; [done|].
  rewrite Hrun. unfold marks_of. by rewrite Hcd.
Qed.

(** ** Scans of a table without marks, and scans planned again *)



Lemma loadMarks_columns disk st st' :
  index_consistent st →
  loadMarks disk st = Done tt st' → columns st' = columns st.
Proof.
  intros Hix Hrun. destruct (loaded_marks st) eqn:Hl.
  - rewrite (loadMarks_again _ _ Hl) in Hrun. by injection Hrun as <-.
  - apply loadMarks_Done_inv in Hrun as (Hlay & _); [|done..].
    unfold layout in Hlay. by injection Hlay.
Qed.

(** X4.  The marks are loaded once.  After a scan was planned, planning it
    again gives the same readers and leaves the descriptor as it is,
    whatever the files have become in between. *)
Theorem read_again (disk disk' : gmap string (list byte)) st st' cn mbs
    num_streams mrbs readers :
  index_consistent st →
  read disk cn mbs num_streams mrbs st = Done readers st' →
  loaded_marks st' = true
  ∧ read disk' cn mbs num_streams mrbs st' = Done readers st'.
Proof.
  intros Hix Hrun. unfold read in Hrun. unfold mbind at 1 in Hrun.
  unfold check_names in Hrun. case_decide as Hcn; [|done].
  unfold mbind at 1 in Hrun.
  destruct (loadMarks disk st) as [[] st1| |] eqn:Hload; try done.
  unfold mbind in Hrun.
  destruct (getMarksWithRealRowCount st1) as [marks st2| |] eqn:Hmarks; try done.
  assert (st2 = st1) as ->.
  { unfold getMarksWithRealRowCount in Hmarks.
    destruct (columns st1) as [|[c t] ?]; [done|].
    destruct (files st1 !! _); [|done]. by injection Hmarks. }
  destruct (plan_streams _ _ _ _ _) as [res|] eqn:Hplan; [|done].
  injection Hrun as <- <-.
  pose proof (loadMarks_loaded _ _ _ Hload) as Hld. split; [done|].
  unfold read. unfold mbind at 1. unfold check_names, getColumnsList.
  rewrite (loadMarks_columns _ _ _ Hix Hload).
  unfold getColumnsList in Hcn. rewrite decide_True by done.
  unfold mbind at 1. rewrite (loadMarks_again _ _ Hld).
  unfold mbind. rewrite Hmarks, Hplan. done.
Qed.

(** ** The marks and the frames of a run of blocks *)

Lemma last_rows_snoc ms m : last_rows (ms ++ [m]) = rows m.
Proof. unfold last_rows. by rewrite last_snoc. Qed.

Lemma write_all_from blocks : ∀ w0 w,
  table_ok (storage w0) →
  requests_enumerated →
  streams_flushed w0 →
  write_all blocks w0 = Done tt w →
  ∀ n cd, files (storage w0) !! n = Some cd →
    marks_of (storage w) n
    = marks cd
      ++ written_marks (max_compress_block_size (storage w0)) (last_rows (marks cd))
           (length (data_content w0 n)) blocks n
    ∧ data_content w n
      = data_content w0 n
        ++ blocks_frames (max_compress_block_size (storage w0)) blocks n.
Proof.
  induction blocks as [|block blocks IH]; intros w0 w Hok Hreq Hfl Hrun n cd Hcd.
  { injection Hrun as <-. unfold marks_of, blocks_frames. rewrite Hcd. simpl.
    by rewrite !app_nil_r. }
  unfold write_all in Hrun. rewrite mfold_cons in Hrun.
  destruct (write block w0) as [[] w1| |] eqn:H1; try done.
  destruct (write_flushed _ _ _ Hok Hreq Hfl H1) as [Hfl1 Hdata1].
  apply write_spec in H1 as (_ & Hlay1 & _ & _ & _ & Hmarks1 & _); [|done].
  destruct (Hmarks1 n cd Hcd) as (m & Hm & Hr & Ho).
  destruct (proj2 (layout_keys _ _ n Hlay1) (mk_is_Some _ _ Hcd)) as [cd1 Hcd1].
  assert (marks cd1 = marks cd ++ [m]) as Hcd1'.
  { unfold marks_of in Hm. by rewrite Hcd1 in Hm. }
  assert (n ∈ column_names (storage w0)) as Hn.
  { destruct Hok as (Hix & _). apply index_consistent_keys; eauto. }
  destruct (IH w1 w (table_ok_layout _ _ Hlay1 Hok) Hreq Hfl1 Hrun n cd1 Hcd1)
    as [Hmarks Hdata].
  rewrite (layout_max_compress_block_size _ _ Hlay1) in Hmarks, Hdata.
  rewrite Hmarks, Hdata, Hcd1', last_rows_snoc, (Hdata1 n Hn), length_app.
  rewrite <- !app_assoc. split; [|done]. f_equal. cbn [written_marks app].
  rewrite <- Hr. f_equal. destruct m as [r o]. simpl in *. f_equal.
  rewrite (Ho Hreq). by rewrite data_pos_content.
Qed.

Lemma new_writer_data_content st (disk_ : gmap string (list byte)) n :
  data_content (new_LogBlockOutputStream st disk_) n
  = file_content disk_ (data_file (file_of st n)).
Proof.
  unfold data_content, stream_at, fresh_stream. simpl. rewrite lookup_empty. simpl.
  by rewrite app_nil_r, file_content_open_append.
Qed.

(** X5.  The marks of a run of blocks.  Let a writer made on a table write
    the blocks [blocks].  Every substream has got one mark for every block,
    after the marks it had: the [rows] of the mark of a block is the [rows]
    of the mark before it (0 without one) plus the rows of the block, and
    its [offset] is the size that the data file of the substream had
    before, plus the sizes of the frames of the blocks before it (all in
    [size_t]).  The data file, with what the writer still holds for it, is
    the file as it was followed by the frames of the blocks, in order. *)
Theorem write_all_marks st (disk_ : gmap string (list byte)) blocks w :
  table_ok st →
  requests_enumerated →
  write_all blocks (new_LogBlockOutputStream st disk_) = Done tt w →
  ∀ n cd, files st !! n = Some cd →
    marks_of (storage w) n
    = marks cd
      ++ written_marks (max_compress_block_size st) (last_rows (marks cd))
           (length (file_content disk_ (data_file cd))) blocks n
    ∧ data_content w n
      = file_content disk_ (data_file cd)
        ++ blocks_frames (max_compress_block_size st) blocks n.
Proof.
  intros Hok Hreq Hrun n cd Hcd.
  destruct (write_all_from blocks (new_LogBlockOutputStream st disk_) w Hok Hreq
              (new_writer_flushed st disk_) Hrun n cd Hcd) as [Hmarks Hdata].
  rewrite new_writer_data_content in Hmarks, Hdata.
  unfold file_of in Hmarks, Hdata. rewrite (files_at_present _ _ _ Hcd) in Hmarks, Hdata.
  done.
Qed.

(** ** The record-group of a block *)

Lemma seq_StronglySorted a n : StronglySorted le (seq a n).
Proof.
  revert a. induction n as [|n IH]; intros a; simpl; constructor; [apply IH|].
  apply Forall_forall. intros x Hx. apply elem_of_seq in Hx. lia.
Qed.

Lemma index_seq st :
  index_consistent st →
  (λ n, column_index (file_of st n)) <$> column_names st = seq 0 (file_count st).
Proof.
  intros [Hfc Hix]. apply list_eq. intros i. rewrite list_lookup_fmap.
  destruct (column_names st !! i) as [n|] eqn:Hn; simpl.
  - pose proof Hn as Hn'. apply Hix in Hn' as (cd & Hcd & <-).
    unfold file_of. rewrite (files_at_present _ _ _ Hcd). simpl. symmetry.
    apply lookup_seq. split; [done|]. rewrite Hfc.
    eapply lookup_lt_Some, Hix. eauto.
  - symmetry. apply lookup_seq_ge. rewrite Hfc. by apply lookup_ge_None.
Qed.

Lemma filter_index_seq (l : MarksForColumns) : ∀ a i x,
  l.*1 = seq a (length l) → l !! i = Some x →
  filter (λ m : nat * Mark, m.1 = a + i) l = [x].
Proof.
  induction l as [|y l IH]; intros a i x Hl Hx; [done|].
  simpl in Hl. injection Hl as Hy Hl.
  assert (∀ z, z ∈ l → z.1 ≠ a) as Hlater.
  { intros z Hz Heq.
    assert (z.1 ∈ seq (S a) (length l)) as Hin.
    { rewrite <- Hl. by apply list_elem_of_fmap_2. }
    apply elem_of_seq in Hin. lia. }
  destruct i as [|i]; simpl in Hx.
  - injection Hx as <-. rewrite (filter_cons_True _ y) by (simpl; lia). f_equal.
    apply filter_none. intros z Hz. simpl. specialize (Hlater z Hz). lia.
  - rewrite (filter_cons_False _ y) by (simpl; lia).
    replace (a + S i) with (S a + i) by lia. by apply IH.
Qed.

Lemma Forall2_fmap_eq {A B C} (f : A → C) (g : B → C) l k :
  Forall2 (λ x y, g y = f x) l k → g <$> k = f <$> l.
Proof.
  induction 1 as [|x y l k Hxy _ IH]; [done|].
  rewrite !fmap_cons. by rewrite Hxy, IH.
Qed.

Lemma wrap64_range z : (0 ≤ wrap64 z < 2 ^ 64)%Z.
Proof. unfold wrap64. apply Z.mod_pos_bound. lia. Qed.

Lemma write_group block w w' :
  table_ok (storage w) →
  requests_enumerated →
  write block w = Done tt w' →
  ∃ group : MarksForColumns,
    marks_stream w' = wb_write (group ≫= (λ m, write_mark m.2)) (marks_stream w)
    ∧ length group = file_count (storage w)
    ∧ Forall (λ im, Mark_in_range im.2) group
    ∧ ∀ n cd, files (storage w) !! n = Some cd →
        ∃ im, group !! column_index cd = Some im
          ∧ marks_of (storage w') n = marks cd ++ [im.2].
Proof.
  intros (Hix & Hnd & Hnames) Hreq Hrun. unfold write, mbind, check_block in Hrun.
  case_decide as Hvalid; [|done].
  destruct (write_columns block w) as [acc w1| |] eqn:Hcols; try done.
  destruct Hvalid as (Hsize & Hbnd & Hbcols & Hball).
  assert (∀ c n, c ∈ block → n ∈ stream_names (c_name c) (c_type c) →
            n ∈ column_names (storage w)) as Hsub.
  { intros c n Hc Hn. apply Hnames. unfold all_stream_names.
    apply list_elem_of_bind. exists (c_name c, c_type c). split; [done|].
    eapply Forall_forall in Hbcols; done. }
  apply (write_columns_spec (block_rows block)) in Hcols
    as (Hst1 & Hd1 & Hm1 & Hdn1 & (new & Hnew & Hmarks) & Hs1).
  2:{ intros c Hc. by eapply Forall_forall in Hsize. }
  2:{ intros c n Hc Hn. apply index_consistent_keys; eauto. }
  simpl in Hnew. subst new. cbn [fst snd] in *.
  set (L := emitted_names ∅ block) in *.
  unfold writeMarks in Hrun. case_decide as Hlen; [done|].
  assert (length (acc.1) = file_count (storage w1)) as Hlen' by lia. clear Hlen.
  rewrite Hst1 in Hlen'.
  assert (∀ n, n ∈ L ↔ n ∈ column_names (storage w)) as HL.
  { intros n. unfold L. rewrite elem_of_emitted_names. split.
    - intros [_ Hn]. unfold block_names in Hn.
      apply list_elem_of_bind in Hn as (c & Hn & Hc). eauto.
    - intros Hn. split; [apply not_elem_of_empty|].
      apply Hnames in Hn. unfold all_stream_names in Hn.
      apply list_elem_of_bind in Hn as ([cn t] & Hn & Hct). simpl in Hn.
      eapply Forall_forall in Hball; [|done]. simpl in Hball.
      apply list_elem_of_fmap in Hball as (c & -> & Hc).
      assert (c_type c = t) as <-.
      { eapply NoDup_fst_functional; [done| |done].
        eapply Forall_forall in Hbcols; done. }
      unfold block_names. apply list_elem_of_bind. eauto. }
  assert (L ≡ₚ column_names (storage w)) as Hperm.
  { symmetry. apply submseteq_length_Permutation.
    - apply NoDup_submseteq; [by apply index_consistent_NoDup|]. intros n. apply HL.
    - rewrite (Forall2_length _ _ _ Hmarks), Hlen'. by destruct Hix as [-> _]. }
  assert ((acc.1).*1 ≡ₚ seq 0 (file_count (storage w))) as Hidx.
  { assert ((acc.1).*1 = (λ n, column_index (file_of (storage w) n)) <$> L) as ->.
    { apply (Forall2_fmap_eq (λ n, column_index (file_of (storage w) n)) fst).
      eapply Forall2_impl; [done|]. by intros n im (Hi & _). }
    by rewrite Hperm, (index_seq _ Hix). }
  assert ((sort_marks acc.1).*1 = seq 0 (file_count (storage w))) as Hsorted.
  { apply (StronglySorted_unique le).
    - apply (StronglySorted_fmap fst index_le); [done|].
      apply (StronglySorted_merge_sort index_le).
    - apply seq_StronglySorted.
    - unfold sort_marks. by rewrite merge_sort_Permutation. }
  destruct (write_marks_fold (sort_marks acc.1) w1)
    as (w'' & Hrun' & Hlay & Hld & Hss & Hdisk & Hdone & Hms & Hfiles).
  { by rewrite Hst1. }
  { rewrite Hst1. apply Forall_forall. intros im Him.
    assert (im.1 ∈ seq 0 (file_count (storage w))) as Hin.
    { rewrite <- Hsorted. by apply list_elem_of_fmap_2. }
    apply elem_of_seq in Hin. lia. }
  rewrite Hrun' in Hrun. injection Hrun as ->.
  rewrite Hst1 in Hfiles. rewrite Hm1 in Hms.
  assert (length (sort_marks acc.1) = file_count (storage w)) as Hslen.
  { unfold sort_marks. by rewrite merge_sort_Permutation. }
  exists (sort_marks acc.1). split; [done|]. split; [done|]. split.
  - unfold sort_marks. rewrite merge_sort_Permutation.
    eapply Forall2_Forall_r; [done|]. apply Forall_forall.
    intros n _ im (_ & Hr & Ho). split.
    + unfold rows_in_range. rewrite Hr. apply wrap64_range.
    + rewrite (Ho Hreq). apply wrap64_range.
  - intros n cd Hcd.
    assert (column_index cd < file_count (storage w)) as Hlt.
    { destruct Hix as [-> Hix]. eapply lookup_lt_Some, Hix. eauto. }
    destruct (lookup_lt_is_Some_2 (sort_marks acc.1) (column_index cd)) as [im Him];
      [lia|].
    exists im. split; [done|]. unfold marks_of. rewrite (Hfiles n cd Hcd). simpl.
    f_equal. unfold marks_for.
    pose proof (filter_index_seq (sort_marks acc.1) 0 (column_index cd) im) as Hf.
    cbn [Nat.add] in Hf. rewrite Hf; [done| |done].
    by rewrite Hsorted, Hslen.
Qed.

(** ** The marks file and the mark vectors *)

Lemma record_at_write_marks_full (group : MarksForColumns) : ∀ i im,
  group !! i = Some im → Mark_in_range im.2 →
  record_at (group ≫= (λ m, write_mark m.2)) i = im.2.
Proof.
  induction group as [|m group IH]; intros i im Hi Hrange; [done|].
  rewrite bind_cons. destruct i as [|i]; simpl in Hi.
  - injection Hi as ->. unfold record_at. rewrite Nat.mul_0_r, drop_0.
    rewrite take_app_length' by
      (unfold write_mark; by rewrite length_app, !length_le_bytes).
    by apply read_write_mark.
  - rewrite <- (IH i im Hi Hrange). unfold record_at. do 2 f_equal.
    replace (sizeof_Mark * S i) with (length (write_mark m.2) + sizeof_Mark * i).
    + by rewrite drop_app_add'.
    + unfold write_mark. rewrite length_app, !length_le_bytes.
      unfold sizeof_Mark. lia.
Qed.

Lemma records_of_app fc content (group : MarksForColumns) ci im :
  ci < fc →
  length content mod (fc * sizeof_Mark) = 0 →
  length group = fc →
  group !! ci = Some im → Mark_in_range im.2 →
  let content' := content ++ (group ≫= (λ m, write_mark m.2)) in
  length content' mod (fc * sizeof_Mark) = 0
  ∧ records_of content' fc ci (length content' / (fc * sizeof_Mark))
    = records_of content fc ci (length content / (fc * sizeof_Mark)) ++ [im.2].
Proof.
  intros Hci Hmod Hlen Him Hrange content'.
  apply Nat.Div0.div_exact in Hmod.
  set (g := length content / (fc * sizeof_Mark)) in *.
  assert (length content' = S g * (fc * sizeof_Mark)) as Hlen'.
  { unfold content'. rewrite length_app, length_write_marks, Hlen. lia. }
  split.
  { rewrite Hlen'. apply Nat.Div0.mod_mul. }
  assert (length content' / (fc * sizeof_Mark) = S g) as ->.
  { rewrite Hlen'. apply Nat.div_mul. unfold sizeof_Mark. lia. }
  unfold records_of. rewrite seq_S, fmap_app. simpl. f_equal.
  - apply list_fmap_ext. intros i k Hk. apply lookup_seq in Hk as [-> Hk].
    simpl. unfold content'. apply record_at_app_l. unfold sizeof_Mark in *. nia.
  - f_equal. unfold content'.
    rewrite (record_at_app_r _ _ _ (g * fc)) by (unfold sizeof_Mark in *; lia).
    by apply record_at_write_marks_full.
Qed.

Lemma layout_fields st st' :
  layout st' = layout st →
  file_count st' = file_count st ∧ marks_file st' = marks_file st
  ∧ columns st' = columns st ∧ path st' = path st ∧ name st' = name st.
Proof. intros Hl. unfold layout in Hl. by injection Hl. Qed.

Lemma write_marks_content block w w' :
  table_ok (storage w) →
  requests_enumerated →
  write block w = Done tt w' →
  ∃ group : MarksForColumns,
    marks_content w' = marks_content w ++ (group ≫= (λ m, write_mark m.2))
    ∧ wb_path (marks_stream w') = wb_path (marks_stream w)
    ∧ length group = file_count (storage w)
    ∧ Forall (λ im, Mark_in_range im.2) group
    ∧ ∀ n cd, files (storage w) !! n = Some cd →
        ∃ im, group !! column_index cd = Some im
          ∧ marks_of (storage w') n = marks cd ++ [im.2].
Proof.
  intros Hok Hreq Hrun.
  destruct (write_group _ _ _ Hok Hreq Hrun) as (group & Hms & Hlen & Hrange & Hpos).
  apply write_spec in Hrun as (_ & Hlay & _ & Hd & _); [|done].
  destruct (layout_fields _ _ Hlay) as (_ & Hmf & _).
  exists group. split; [|split; [by rewrite Hms|done]].
  unfold marks_content. rewrite Hmf, Hd, Hms. simpl. by rewrite app_assoc.
Qed.

Lemma write_marks_persisted block w w' :
  table_ok (storage w) →
  requests_enumerated →
  marks_persisted w →
  write block w = Done tt w' →
  marks_persisted w'.
Proof.
  intros Hok Hreq [Hmod Hmarks] Hrun.
  destruct (write_marks_content _ _ _ Hok Hreq Hrun)
    as (group & Hcontent & _ & Hlen & Hrange & Hpos).
  apply write_spec in Hrun as (_ & Hlay & _); [|done].
  destruct (layout_fields _ _ Hlay) as (Hfc & _).
  destruct Hok as (Hix & _).
  unfold marks_persisted. rewrite Hfc, Hcontent.
  destruct (decide (file_count (storage w) = 0)) as [Hz|Hpos0].
  { assert (group = []) as -> by (apply nil_length_inv; lia).
    simpl. rewrite app_nil_r. split; [done|]. intros n cd' Hcd'.
    destruct (proj1 (layout_keys _ _ n Hlay) (mk_is_Some _ _ Hcd')) as [cd Hcd].
    exfalso. destruct Hix as [Hfc0 Hix].
    assert (column_names (storage w) !! column_index cd = Some n) as Hn
      by (apply Hix; eauto).
    apply lookup_lt_Some in Hn. lia. }
  assert (∀ n cd, files (storage w) !! n = Some cd →
            column_index cd < file_count (storage w)) as Hlt.
  { intros n cd Hcd. destruct Hix as [-> Hix]. eapply lookup_lt_Some, Hix. eauto. }
  split.
  - destruct (lookup_lt_is_Some_2 group 0) as [im Him]; [lia|].
    eapply (records_of_app _ _ group 0 im); try done; [lia|].
    by eapply Forall_lookup_1 in Hrange.
  - intros n cd' Hcd'.
    destruct (proj1 (layout_keys _ _ n Hlay) (mk_is_Some _ _ Hcd')) as [cd Hcd].
    destruct (Hpos n cd Hcd) as (im & Him & Hm).
    pose proof (layout_lookup _ _ n Hlay) as Hci.
    rewrite Hcd, Hcd' in Hci. simpl in Hci. injection Hci as Hci _.
    unfold marks_of in Hm. rewrite Hcd' in Hm. simpl in Hm.
    rewrite Hm, Hci, (Hmarks n cd Hcd). symmetry.
    eapply (records_of_app _ _ group (column_index cd) im); try done; [by eapply Hlt|].
    by eapply Forall_lookup_1 in Hrange.
Qed.

(** ** The writer of a table, from its making to its end *)

Lemma loadMarks_Done_size (disk : gmap string (list byte)) st st' content :
  loaded_marks st = false →
  disk !! marks_file st = Some content →
  loadMarks disk st = Done tt st' →
  0 < file_count st ∧ length content mod (file_count st * sizeof_Mark) = 0.
Proof.
  intros Hl Hfile Hrun. unfold loadMarks in Hrun. rewrite Hl in Hrun.
  destruct (files_by_index st); [|done]. rewrite Hfile in Hrun.
  case_decide as Hz; [done|]. case_decide as Hmod; [done|].
  split; [unfold sizeof_Mark in Hz; lia|].
  destruct (decide (length content mod (file_count st * sizeof_Mark) = 0)); [done|].
  by destruct Hmod.
Qed.

Lemma loadMarks_returns (disk : gmap string (list byte)) st content :
  index_consistent st →
  loaded_marks st = false →
  0 < file_count st →
  disk !! marks_file st = Some content →
  length content mod (file_count st * sizeof_Mark) = 0 →
  ∃ st', loadMarks disk st = Done tt st'.
Proof.
  intros Hst Hl Hpos Hfile Hmod. unfold loadMarks.
  rewrite Hl, (files_by_index_consistent st Hst), Hfile.
  rewrite decide_False by (unfold sizeof_Mark; lia).
  rewrite decide_False by (intros Hne; by apply Hne).
  rewrite decide_False by apply None_not_in_Some.
  pose proof Hst as [Hfc Hix].
  destruct (read_marks_file_spec (column_names st)
              (length content / (file_count st * sizeof_Mark)) content st
              (length content)) as (st1 & Hrun & _).
  { by apply index_consistent_NoDup. }
  { lia. }
  { rewrite <- Hfc. apply Nat.Div0.div_exact in Hmod. rewrite Hmod at 1.
    unfold sizeof_Mark. lia. }
  { done. }
  exists (set_loaded_marks true st1). unfold mbind. by rewrite Hrun.
Qed.

Lemma data_files_named_layout st st' :
  layout st' = layout st → data_files_named st → data_files_named st'.
Proof.
  intros Hlay Hn n cd' Hcd'.
  destruct (proj1 (layout_keys _ _ n Hlay) (mk_is_Some _ _ Hcd')) as [cd Hcd].
  pose proof (layout_lookup _ _ n Hlay) as Heq. rewrite Hcd, Hcd' in Heq.
  simpl in Heq. injection Heq as _ ->. rewrite (Hn n cd Hcd).
  destruct (layout_fields _ _ Hlay) as (_ & _ & _ & Hp & Hnm).
  unfold table_dir. by rewrite Hp, Hnm.
Qed.

(** A table on which a writer can be made: a descriptor as the constructor
    leaves it, its files in its directory. *)
Lemma new_StorageLog_layout_ok path_ name_ (columns_ : list (string * DataType))
    mcbs st st' :
  new_StorageLog path_ name_ columns_ mcbs = inr st →
  NoDup columns_.*1 →
  layout st' = layout st →
  table_ok st' ∧ data_files_named st'
  ∧ marks_file st' = table_dir st' +:+ DBMS_STORAGE_LOG_MARKS_FILE_NAME
  ∧ max_compress_block_size st' = mcbs.
Proof.
  intros Hnew Hnd Hlay.
  destruct (new_StorageLog_named _ _ _ _ _ Hnew) as (Hn & _ & _ & Hm & Hc).
  destruct (layout_fields _ _ Hlay) as (_ & Hmf & _ & Hp & Hnm).
  split; [|split; [|split]].
  - eapply table_ok_layout; [done|]. by eapply new_StorageLog_table_ok.
  - by eapply data_files_named_layout.
  - rewrite Hmf, Hm. unfold table_dir. by rewrite Hp, Hnm.
  - by rewrite (layout_max_compress_block_size _ _ Hlay).
Qed.

Lemma StorageLog_write_inv path_ name_ (columns_ : list (string * DataType)) mcbs
    st (disk_ : gmap string (list byte)) w st1 :
  new_StorageLog path_ name_ columns_ mcbs = inr st →
  StorageLog_write disk_ st = Done w st1 →
  loadMarks disk_ st = Done tt st1
  ∧ w = new_LogBlockOutputStream st1 disk_
  ∧ layout st1 = layout st
  ∧ marks_persisted w.
Proof.
  intros Hnew Hrun.
  destruct (new_StorageLog_consistent _ _ _ _ _ Hnew) as (Hix & _ & _ & Hld).
  unfold StorageLog_write, mbind in Hrun.
  destruct (loadMarks disk_ st) as [[] st2| |] eqn:Hload; try done.
  injection Hrun as <- <-. split; [done|]. split; [done|].
  destruct (loadMarks_Done_inv _ _ _ Hix Hld Hload) as (Hlay & _ & Hmarks).
  split; [done|].
  destruct (layout_fields _ _ Hlay) as (Hfc & Hmf & _).
  assert (marks_content (new_LogBlockOutputStream st2 disk_)
          = file_content disk_ (marks_file st)) as Hcontent.
  { unfold marks_content. simpl.
    by rewrite app_nil_r, file_content_open_append, Hmf. }
  unfold marks_persisted. rewrite Hcontent. simpl storage. rewrite Hfc.
  unfold file_content.
  destruct (disk_ !! marks_file st) as [content|] eqn:Hfile; simpl.
  - destruct (loadMarks_Done_size _ _ _ _ Hld Hfile Hload) as [_ Hmod].
    split; [done|]. intros n cd2 Hcd2.
    destruct (proj1 (layout_keys _ _ n Hlay) (mk_is_Some _ _ Hcd2)) as [cd Hcd].
    specialize (Hmarks n cd Hcd). unfold marks_of in Hmarks.
    rewrite Hcd2 in Hmarks. simpl in Hmarks.
    rewrite (new_StorageLog_fresh _ _ _ _ _ Hnew _ _ Hcd) in Hmarks.
    pose proof (layout_lookup _ _ n Hlay) as Hci. rewrite Hcd, Hcd2 in Hci.
    simpl in Hci. injection Hci as -> _. done.
  - split; [apply Nat.Div0.mod_0_l|]. intros n cd2 Hcd2.
    destruct (proj1 (layout_keys _ _ n Hlay) (mk_is_Some _ _ Hcd2)) as [cd Hcd].
    specialize (Hmarks n cd Hcd). unfold marks_of in Hmarks.
    rewrite Hcd2 in Hmarks. simpl in Hmarks.
    rewrite (new_StorageLog_fresh _ _ _ _ _ Hnew _ _ Hcd) in Hmarks.
    rewrite Hmarks. rewrite Nat.Div0.div_0_l. done.
Qed.

Lemma write_streams_on_files block w w' :
  table_ok (storage w) →
  requests_enumerated →
  streams_on_files w →
  write block w = Done tt w' →
  streams_on_files w'.
Proof.
  intros Hok Hreq Hon Hrun.
  apply write_spec in Hrun as (_ & Hlay & _ & _ & _ & _ & Hs); [|done].
  specialize (Hs Hreq). intros n s Hn. rewrite Hs in Hn.
  rewrite (layout_column_names _ _ Hlay), (layout_file_of_data_file _ _ n Hlay).
  case_decide as Hin; [|by apply Hon].
  split; [done|]. injection Hn as <-.
  destruct (write_stream_spec (max_compress_block_size (storage w))
              (block_data block n) (stream_at w n)) as (_ & _ & Hp & _).
  unfold write_stream. rewrite Hp. unfold stream_at.
  destruct (streams w !! n) as [s0|] eqn:Hs0; [by apply Hon|done].
Qed.

Lemma write_all_persisted blocks : ∀ w0 w,
  table_ok (storage w0) →
  requests_enumerated →
  streams_flushed w0 →
  streams_on_files w0 →
  marks_persisted w0 →
  write_all blocks w0 = Done tt w →
  layout (storage w) = layout (storage w0)
  ∧ streams_flushed w
  ∧ streams_on_files w
  ∧ marks_persisted w
  ∧ wb_path (marks_stream w) = wb_path (marks_stream w0)
  ∧ done w = done w0
  ∧ ∀ p, file_content (disk w) p = file_content (disk w0) p.
Proof.
  induction blocks as [|block blocks IH]; intros w0 w Hok Hreq Hfl Hon Hmp Hrun.
  { by injection Hrun as <-. }
  unfold write_all in Hrun. rewrite mfold_cons in Hrun.
  destruct (write block w0) as [[] w1| |] eqn:H1; try done.
  destruct (write_flushed _ _ _ Hok Hreq Hfl H1) as [Hfl1 _].
  pose proof (write_streams_on_files _ _ _ Hok Hreq Hon H1) as Hon1.
  pose proof (write_marks_persisted _ _ _ Hok Hreq Hmp H1) as Hmp1.
  destruct (write_marks_content _ _ _ Hok Hreq H1) as (_ & _ & Hpath1 & _).
  apply write_spec in H1 as (_ & Hlay1 & _ & Hd1 & Hdone1 & _); [|done].
  destruct (IH w1 w (table_ok_layout _ _ Hlay1 Hok) Hreq Hfl1 Hon1 Hmp1 Hrun)
    as (Hlay & Hflw & Honw & Hmpw & Hpath & Hdone & Hd).
  split; [congruence|]. split; [done|]. split; [done|]. split; [done|].
  split; [congruence|]. split; [congruence|]. intros p. by rewrite Hd, Hd1.
Qed.

Lemma finalize_disk (s : Stream) (d : gmap string (list byte)) :
  (finalize s d).2
  = <[wb_path (plain s) :=
        file_content d (wb_path (plain s))
        ++ wb_pending (plain (compressed_next s))]> d.
Proof.
  assert (wb_path (plain (compressed_next s)) = wb_path (plain s)) as Hp.
  { unfold compressed_next. by destruct (compressed s). }
  unfold finalize, wb_next. simpl. by rewrite Hp.
Qed.

Lemma finalize_fold (ss : gmap string Stream) (d0 : gmap string (list byte)) :
  (∀ n n' s s', ss !! n = Some s → ss !! n' = Some s' →
     wb_path (plain s) = wb_path (plain s') → n = n') →
  (∀ n s, ss !! n = Some s →
     map_fold (λ _ s d, (finalize s d).2) d0 ss !! wb_path (plain s)
     = Some (file_content d0 (wb_path (plain s))
             ++ wb_pending (plain (compressed_next s))))
  ∧ (∀ p, (∀ n s, ss !! n = Some s → wb_path (plain s) ≠ p) →
       map_fold (λ _ s d, (finalize s d).2) d0 ss !! p = d0 !! p).
Proof.
  apply (map_fold_weak_ind
           (λ d (m : gmap string Stream),
              (∀ n n' s s', m !! n = Some s → m !! n' = Some s' →
                 wb_path (plain s) = wb_path (plain s') → n = n') →
              (∀ n s, m !! n = Some s →
                 d !! wb_path (plain s)
                 = Some (file_content d0 (wb_path (plain s))
                         ++ wb_pending (plain (compressed_next s))))
              ∧ (∀ p, (∀ n s, m !! n = Some s → wb_path (plain s) ≠ p) →
                   d !! p = d0 !! p))).
  { intros _. split; [|done]. intros n s Hn. by rewrite lookup_empty in Hn. }
  intros i x m r Hi IH Hinj.
  assert (∀ n s, m !! n = Some s → wb_path (plain s) ≠ wb_path (plain x)) as Hother.
  { intros n s Hn Heq. assert (n = i) as ->; [|congruence].
    apply (Hinj n i s x); [|by rewrite lookup_insert_eq|done].
    rewrite lookup_insert_ne; [done|]. intros ->. congruence. }
  destruct IH as [IHa IHb].
  { intros n n' s s' Hn Hn'. apply Hinj.
    - rewrite lookup_insert_ne; [done|]. intros ->. congruence.
    - rewrite lookup_insert_ne; [done|]. intros ->. congruence. }
  rewrite finalize_disk. split.
  - intros n s Hn. destruct (decide (n = i)) as [->|Hne].
    + rewrite lookup_insert_eq in Hn. injection Hn as ->.
      rewrite lookup_insert_eq. do 2 f_equal. unfold file_content.
      by rewrite (IHb _ Hother).
    + rewrite lookup_insert_ne in Hn by done.
      rewrite lookup_insert_ne by (symmetry; by apply (Hother n)). by apply (IHa n).
  - intros p Hp. rewrite lookup_insert_ne.
    + apply IHb. intros n s Hn. apply (Hp n).
      rewrite lookup_insert_ne; [done|]. intros ->. congruence.
    + apply (Hp i). by rewrite lookup_insert_eq.
Qed.

Lemma Done_state {S A} (a b : A) (s t : S) : Done a s = Done b t → t = s.
Proof. by intros [= _ ->]. Qed.

Lemma writeSuffix_disk w w' :
  done w = false →
  index_consistent (storage w) →
  data_files_named (storage w) →
  marks_file (storage w)
  = table_dir (storage w) +:+ DBMS_STORAGE_LOG_MARKS_FILE_NAME →
  wb_path (marks_stream w) = marks_file (storage w) →
  streams_on_files w →
  streams_flushed w →
  writeSuffix w = Done tt w' →
  storage w' = storage w ∧ streams w' = ∅ ∧ done w' = true
  ∧ disk w' !! marks_file (storage w) = Some (marks_content w)
  ∧ ∀ n, n ∈ column_names (storage w) →
      file_content (disk w') (data_file (file_of (storage w) n)) = data_content w n.
Proof.
  intros Hdone Hix Hnamed Hmf Hpath Hon Hfl Hrun.
  unfold writeSuffix in Hrun. rewrite Hdone in Hrun. unfold wb_next in Hrun.
  apply Done_state in Hrun as ->. cbn [storage streams done disk].
  split; [done|]. split; [done|]. split; [done|].
  rewrite Hpath.
  set (d1 := <[marks_file (storage w) := _]> (disk w)).
  assert (∀ n s, streams w !! n = Some s →
            wb_path (plain s)
            = table_dir (storage w) +:+ n +:+ DBMS_STORAGE_LOG_DATA_FILE_EXTENSION)
    as Hpaths.
  { intros n s Hn. destruct (Hon n s Hn) as [Hin ->].
    apply (index_consistent_keys _ _ Hix) in Hin as [cd Hcd].
    unfold file_of. rewrite (files_at_present _ _ _ Hcd). simpl. by apply Hnamed. }
  destruct (finalize_fold (streams w) d1) as [Ha Hb].
  { intros n n' s s' Hn Hn'. rewrite (Hpaths n s Hn), (Hpaths n' s' Hn').
    apply data_file_inj. }
  split.
  - rewrite Hb.
    + subst d1. by rewrite lookup_insert_eq.
    + intros n s Hn. rewrite (Hpaths n s Hn), Hmf. apply data_file_not_marks_file.
  - intros n Hin. pose proof Hin as Hin'.
    apply (index_consistent_keys _ _ Hix) in Hin' as [cd Hcd].
    assert (data_file (file_of (storage w) n)
            = table_dir (storage w) +:+ n +:+ DBMS_STORAGE_LOG_DATA_FILE_EXTENSION)
      as Hp.
    { unfold file_of. rewrite (files_at_present _ _ _ Hcd). simpl. by apply Hnamed. }
    assert (file_content d1 (data_file (file_of (storage w) n))
            = file_content (disk w) (data_file (file_of (storage w) n))) as Hd1.
    { unfold file_content. subst d1. rewrite lookup_insert_ne; [done|].
      rewrite Hp, Hmf. intros Heq. symmetry in Heq.
      by apply data_file_not_marks_file in Heq. }
    unfold data_content, stream_at.
    destruct (streams w !! n) as [s|] eqn:Hs.
    + destruct (Hon n s Hs) as [_ Hsp]. destruct (Hfl n s Hs) as (Hc & _).
      unfold file_content at 1. rewrite <- Hsp, (Ha n s Hs). simpl.
      rewrite Hsp, Hd1. unfold compressed_next. by rewrite Hc.
    + unfold file_content at 1. rewrite Hb.
      * fold (file_content d1 (data_file (file_of (storage w) n))).
        rewrite Hd1. unfold fresh_stream. simpl. by rewrite app_nil_r.
      * intros n' s' Hn' Heq. rewrite (Hpaths n' s' Hn'), Hp in Heq.
        apply data_file_inj in Heq. congruence.
Qed.

Lemma writer_run path_ name_ (columns_ : list (string * DataType)) mcbs st
    (disk_ : gmap string (list byte)) st1 w blocks w1 :
  new_StorageLog path_ name_ columns_ mcbs = inr st →
  NoDup columns_.*1 →
  requests_enumerated →
  StorageLog_write disk_ st = Done w st1 →
  write_all blocks w = Done tt w1 →
  layout (storage w1) = layout st
  ∧ table_ok (storage w1)
  ∧ data_files_named (storage w1)
  ∧ marks_file (storage w1)
    = table_dir (storage w1) +:+ DBMS_STORAGE_LOG_MARKS_FILE_NAME
  ∧ streams_flushed w1
  ∧ streams_on_files w1
  ∧ marks_persisted w1
  ∧ wb_path (marks_stream w1) = marks_file (storage w1)
  ∧ done w1 = false
  ∧ ∀ n cd, files st !! n = Some cd →
      data_content w1 n
      = file_content disk_ (data_file cd) ++ blocks_frames mcbs blocks n.
Proof.
  intros Hnew Hnd Hreq Hopen Hrun.
  destruct (StorageLog_write_inv _ _ _ _ _ _ _ _ Hnew Hopen)
    as (_ & -> & Hlay1 & Hmp).
  destruct (new_StorageLog_layout_ok _ _ _ _ _ _ Hnew Hnd Hlay1)
    as (Hok1 & _ & _ & Hc1).
  assert (streams_on_files (new_LogBlockOutputStream st1 disk_)) as Hon.
  { intros n s Hn. simpl in Hn. by rewrite lookup_empty in Hn. }
  destruct (write_all_persisted blocks (new_LogBlockOutputStream st1 disk_) w1
              Hok1 Hreq (new_writer_flushed st1 disk_) Hon Hmp Hrun)
    as (Hlay & Hfl & Honw & Hmpw & Hpath & Hdone & _).
  simpl in Hlay, Hpath, Hdone.
  assert (layout (storage w1) = layout st) as Hlayw by congruence.
  destruct (new_StorageLog_layout_ok _ _ _ _ _ _ Hnew Hnd Hlayw)
    as (Hokw & Hnamed & Hmf & _).
  destruct (layout_fields _ _ Hlay) as (_ & Hmf1 & _).
  repeat (split; [done || congruence|]).
  intros n cd Hcd.
  destruct (proj2 (layout_keys _ _ n Hlay1) (mk_is_Some _ _ Hcd)) as [cd1 Hcd1].
  destruct (write_all_from blocks (new_LogBlockOutputStream st1 disk_) w1 Hok1 Hreq
              (new_writer_flushed st1 disk_) Hrun n cd1 Hcd1) as [_ Hdata].
  rewrite new_writer_data_content in Hdata. simpl in Hdata.
  rewrite Hc1, (layout_file_of_data_file _ _ n Hlay1) in Hdata.
  unfold file_of in Hdata. by rewrite (files_at_present _ _ _ Hcd) in Hdata.
Qed.

(** X7.  The end of a writer.  A writer is made on a table that the
    constructor returned, writes some blocks and is finished with
    [writeSuffix].  Then the data file of every substream holds what it
    held before the writer was made, followed by the frames of the blocks
    for the substream, in the order of the blocks; the writer has no stream
    left and its table keeps its marks; and finishing it once more changes
    nothing. *)
Theorem writeSuffix_spec path_ name_ (columns_ : list (string * DataType)) mcbs st
    (disk_ : gmap string (list byte)) st1 w blocks w1 w2 :
  new_StorageLog path_ name_ columns_ mcbs = inr st →
  NoDup columns_.*1 →
  requests_enumerated →
  StorageLog_write disk_ st = Done w st1 →
  write_all blocks w = Done tt w1 →
  writeSuffix w1 = Done tt w2 →
  (∀ n cd, files st !! n = Some cd →
     file_content (disk w2) (data_file cd)
     = file_content disk_ (data_file cd) ++ blocks_frames mcbs blocks n)
  ∧ streams w2 = ∅
  ∧ storage w2 = storage w1
  ∧ writeSuffix w2 = Done tt w2.
Proof.
  intros Hnew Hnd Hreq Hopen Hrun Hend.
  destruct (writer_run _ _ _ _ _ _ _ _ _ _ Hnew Hnd Hreq Hopen Hrun)
    as (Hlay & Hok & Hnamed & Hmf & Hfl & Hon & _ & Hpath & Hdone & Hdata).
  pose proof Hok as (Hix & _).
  destruct (writeSuffix_disk _ _ Hdone Hix Hnamed Hmf Hpath Hon Hfl Hend)
    as (Hst & Hss & Hdone2 & _ & Hfiles).
  split; [|split; [done|split; [done|]]].
  - intros n cd Hcd. rewrite <- (Hdata n cd Hcd), <- Hfiles.
    + rewrite (layout_file_of_data_file _ _ n Hlay). unfold file_of.
      by rewrite (files_at_present _ _ _ Hcd).
    + apply index_consistent_keys; [done|]. apply (layout_keys _ _ n Hlay). eauto.
  - unfold writeSuffix. by rewrite Hdone2.
Qed.

(** X8.  The size of the marks file.  While a writer, made on a table that
    the constructor returned, writes blocks, the marks file (what is in the
    file and what the marks stream still holds) has
    [file_count * sizeof(Mark)] bytes for every mark of a substream,
    whichever the substream; and this is the size of the file once the
    writer is finished. *)
Theorem marks_file_size path_ name_ (columns_ : list (string * DataType)) mcbs st
    (disk_ : gmap string (list byte)) st1 w blocks w1 :
  new_StorageLog path_ name_ columns_ mcbs = inr st →
  NoDup columns_.*1 →
  requests_enumerated →
  StorageLog_write disk_ st = Done w st1 →
  write_all blocks w = Done tt w1 →
  ∀ n cd, files (storage w1) !! n = Some cd →
    length (marks_content w1) = length (marks cd) * (file_count st * sizeof_Mark)
    ∧ ∀ w2, writeSuffix w1 = Done tt w2 →
        length (file_content (disk w2) (marks_file st))
        = length (marks cd) * (file_count st * sizeof_Mark).
Proof.
  intros Hnew Hnd Hreq Hopen Hrun n cd Hcd.
  destruct (writer_run _ _ _ _ _ _ _ _ _ _ Hnew Hnd Hreq Hopen Hrun)
    as (Hlay & Hok & Hnamed & Hmf & Hfl & Hon & [Hmod Hmarks] & Hpath & Hdone & _).
  destruct (layout_fields _ _ Hlay) as (Hfc & Hmfs & _).
  rewrite Hfc in Hmod, Hmarks.
  assert (length (marks_content w1)
          = length (marks cd) * (file_count st * sizeof_Mark)) as Hsize.
  { rewrite (Hmarks n cd Hcd). unfold records_of. rewrite length_fmap, length_seq.
    apply Nat.Div0.div_exact in Hmod. lia. }
  split; [done|]. intros w2 Hend. pose proof Hok as (Hix & _).
  destruct (writeSuffix_disk _ _ Hdone Hix Hnamed Hmf Hpath Hon Hfl Hend)
    as (_ & _ & _ & Hfile & _).
  unfold file_content. rewrite <- Hmfs, Hfile. done.
Qed.

(** X9.  The marks come back from the marks file.  A writer is made on a
    table that the constructor returned, writes some blocks and is
    finished.  When the table is then constructed anew and loads its marks
    from the files, [loadMarks] returns and every substream has the mark
    vector that it had in the table of the writer.  (With [file_count = 0]
    the size check of [loadMarks] divides by zero.) *)
Theorem marks_reloaded path_ name_ (columns_ : list (string * DataType)) mcbs st
    (disk_ : gmap string (list byte)) st1 w blocks w1 w2 :
  new_StorageLog path_ name_ columns_ mcbs = inr st →
  NoDup columns_.*1 →
  0 < file_count st →
  requests_enumerated →
  StorageLog_write disk_ st = Done w st1 →
  write_all blocks w = Done tt w1 →
  writeSuffix w1 = Done tt w2 →
  ∃ st', loadMarks (disk w2) st = Done tt st'
    ∧ ∀ n, marks_of st' n = marks_of (storage w2) n.
Proof.
  intros Hnew Hnd Hpos Hreq Hopen Hrun Hend.
  destruct (writer_run _ _ _ _ _ _ _ _ _ _ Hnew Hnd Hreq Hopen Hrun)
    as (Hlay & Hok & Hnamed & Hmf & Hfl & Hon & [Hmod Hmarks] & Hpath & Hdone & _).
  destruct (layout_fields _ _ Hlay) as (Hfc & Hmfs & _).
  rewrite Hfc in Hmod, Hmarks. pose proof Hok as (Hix & _).
  destruct (writeSuffix_disk _ _ Hdone Hix Hnamed Hmf Hpath Hon Hfl Hend)
    as (Hst2 & _ & _ & Hfile & _).
  rewrite Hmfs in Hfile.
  destruct (new_StorageLog_consistent _ _ _ _ _ Hnew) as (Hix0 & _ & _ & Hld).
  destruct (loadMarks_returns _ _ _ Hix0 Hld Hpos Hfile Hmod) as [st' Hload].
  exists st'. split; [done|].
  destruct (loadMarks_Done_inv _ _ _ Hix0 Hld Hload) as (Hlay' & _ & Hloaded).
  rewrite Hfile in Hloaded. rewrite Hst2. intros n.
  destruct (files st !! n) as [cd|] eqn:Hcd.
  - rewrite (Hloaded n cd Hcd), (new_StorageLog_fresh _ _ _ _ _ Hnew _ _ Hcd).
    destruct (proj2 (layout_keys _ _ n Hlay) (mk_is_Some _ _ Hcd)) as [cd1 Hcd1].
    unfold marks_of. rewrite Hcd1. simpl. rewrite (Hmarks n cd1 Hcd1).
    pose proof (layout_lookup _ _ n Hlay) as Hci. rewrite Hcd, Hcd1 in Hci.
    simpl in Hci. by injection Hci as -> _.
  - unfold marks_of.
    destruct (files st' !! n) as [cd'|] eqn:Hcd'.
    { destruct (proj1 (layout_keys _ _ n Hlay') (mk_is_Some _ _ Hcd')). congruence. }
    destruct (files (storage w1) !! n) as [cd1|] eqn:Hcd1; [|done].
    destruct (proj1 (layout_keys _ _ n Hlay) (mk_is_Some _ _ Hcd1)). congruence.
Qed.

(** ** A write that fails *)

Global Instance same_marks_refl : Reflexive (same_marks (DataType := DataType)).
Proof. by intros w. Qed.

Global Instance same_marks_trans : Transitive (same_marks (DataType := DataType)).
Proof.
  intros w1 w2 w3 [H1 H2] [H1' H2']. split; [|congruence].
  intros n. by rewrite H1', H1.
Qed.

Lemma keeps_mbind {S A B} (R : S → S → Prop) `{!Transitive R}
    (m : M S A) (k : A → M S B) s :
  keeps R s (m s) → (∀ a s', keeps R s' (k a s')) → keeps R s (mbind m k s).
Proof.
  unfold mbind, keeps. destruct (m s) as [a s1|e s1|]; try done.
  intros H1 Hk. specialize (Hk a s1). destruct (k a s1); try done; by etrans.
Qed.

Lemma keeps_mfold {S A B} (R : S → S → Prop) `{!Reflexive R} `{!Transitive R}
    (f : B → A → M S B) :
  (∀ b x s, keeps R s (f b x s)) → ∀ l b s, keeps R s (mfold f b l s).
Proof.
  intros Hf. induction l as [|x l IH]; intros b s; simpl.
  - reflexivity.
  - apply keeps_mbind; [done|apply Hf|]. intros b' s'. apply IH.
Qed.

Lemma marks_of_file_of st n : marks_of st n = marks (file_of st n).
Proof.
  unfold marks_of, file_of, files_at. by destruct (files st !! n).
Qed.

Lemma mark_callback_keeps name column written out_marks p w :
  keeps same_marks w (mark_callback name column written out_marks p w).
Proof.
  unfold mark_callback. case_decide; [by simpl|].
  unfold mbind at 1.
  destruct (files_at (getFileNameForStream name p) (files (storage w)))
    as [file files'] eqn:Hat.
  set (w1 := set_storage (set_files files' (storage w)) w).
  assert (same_marks w w1) as H1.
  { split; [|done]. intros n. rewrite !marks_of_file_of. subst w1. simpl.
    replace files' with (files_at (getFileNameForStream name p) (files (storage w))).2
      by (by rewrite Hat).
    by rewrite file_of_files_at. }
  unfold mbind, try_emplace_stream.
  destruct (streams w1 !! _) as [s|]; [done|].
  case_decide; [done|]. simpl. unfold mret. simpl.
  by etrans.
Qed.

Lemma serialize_request_keeps name written got req w :
  keeps same_marks w (serialize_request name written got req w).
Proof.
  unfold serialize_request, mbind. rewrite stream_getter_cases.
  case_decide; [done|]. destruct (streams w !! _); by simpl.
Qed.

Lemma flush_callback_keeps name written p w :
  keeps same_marks w (flush_callback name written p w).
Proof.
  unfold flush_callback. case_decide; [by simpl|].
  destruct (streams w !! _); by simpl.
Qed.

Lemma writeData_keeps name type column out_marks written w :
  keeps same_marks w (writeData name type column out_marks written w).
Proof.
  unfold writeData. apply keeps_mbind; [apply _| |].
  { apply keeps_mfold; try apply _. intros. apply mark_callback_keeps. }
  intros om w1. apply keeps_mbind; [apply _| |].
  { apply keeps_mfold; try apply _. intros. apply serialize_request_keeps. }
  intros _ w2. apply keeps_mbind; [apply _| |].
  { apply keeps_mfold; try apply _. intros. apply flush_callback_keeps. }
  intros ws w3. by simpl.
Qed.

Lemma write_columns_keeps block w :
  keeps same_marks w (write_columns block w).
Proof.
  unfold write_columns. apply keeps_mfold; try apply _.
  intros acc c s. apply writeData_keeps.
Qed.

(** X6.  Only [writeMarks] adds marks.  The passes of [writeData] over the
    columns of a block only collect the marks of the block: whether they
    return or one of them raises, every substream has the mark vector it
    had before and the marks stream is as it was.  So a [write] that is
    refused by the check of the block, that raises out of [writeData] for
    a column, or that [writeMarks] refuses for the number of marks, has
    added no mark, in memory or on the way to the marks file. *)
Theorem write_failure_keeps_marks block w :
  (¬ block_valid (storage w) block → ∃ e, write block w = Throw e w)
  ∧ (∀ e w', block_valid (storage w) block →
       write_columns block w = Throw e w' →
       write block w = Throw e w'
       ∧ (∀ n, marks_of (storage w') n = marks_of (storage w) n)
       ∧ marks_stream w' = marks_stream w)
  ∧ (∀ acc w', block_valid (storage w) block →
       write_columns block w = Done acc w' →
       ((∀ n, marks_of (storage w') n = marks_of (storage w) n)
        ∧ marks_stream w' = marks_stream w)
       ∧ (length acc.1 ≠ file_count (storage w') →
          write block w = Throw LOGICAL_ERROR w')).
Proof.
  pose proof (write_columns_keeps block w) as Hkeep.
  unfold write, mbind, check_block. split; [|split].
  - intros Hbad. rewrite decide_False by done. eauto.
  - intros e w' Hvalid Hcols. rewrite decide_True by done.
    rewrite Hcols in Hkeep |- *. by destruct Hkeep.
  - intros acc w' Hvalid Hcols. rewrite decide_True by done.
    rewrite Hcols in Hkeep |- *. destruct Hkeep.
    split; [done|]. intros Hlen. unfold writeMarks. by rewrite decide_True.
Qed.

(** ** The rows of the marks *)

Lemma write_all_rows blocks : ∀ w0 w,
  table_ok (storage w0) →
  write_all blocks w0 = Done tt w →
  layout (storage w) = layout (storage w0)
  ∧ loaded_marks (storage w) = loaded_marks (storage w0)
  ∧ ∀ n cd, files (storage w0) !! n = Some cd →
      rows <$> marks_of (storage w) n
      = (rows <$> marks cd) ++ running_rows (last_rows (marks cd)) blocks.
Proof.
  induction blocks as [|block blocks IH]; intros w0 w Hok Hrun.
  { injection Hrun as <-. split; [done|]. split; [done|]. intros n cd Hcd.
    unfold marks_of. rewrite Hcd. simpl. by rewrite app_nil_r. }
  unfold write_all in Hrun. rewrite mfold_cons in Hrun.
  destruct (write block w0) as [[] w1| |] eqn:H1; try done.
  apply write_spec in H1 as (_ & Hlay1 & Hld1 & _ & _ & Hmarks1 & _); [|done].
  destruct (IH w1 w (table_ok_layout _ _ Hlay1 Hok) Hrun) as (Hlay & Hld & Hrows).
  split; [congruence|]. split; [congruence|]. intros n cd Hcd.
  destruct (Hmarks1 n cd Hcd) as (m & Hm & Hr & _).
  destruct (proj2 (layout_keys _ _ n Hlay1) (mk_is_Some _ _ Hcd)) as [cd1 Hcd1].
  assert (marks cd1 = marks cd ++ [m]) as Hcd1'.
  { unfold marks_of in Hm. by rewrite Hcd1 in Hm. }
  rewrite (Hrows n cd1 Hcd1), Hcd1', last_rows_snoc, fmap_app, <- app_assoc.
  simpl. by rewrite Hr.
Qed.

Lemma length_running_rows blocks : ∀ r0,
  length (running_rows r0 blocks) = length blocks.
Proof. induction blocks as [|b blocks IH]; intros r0; simpl; [done|]. by rewrite IH. Qed.

Lemma total_rows_cons (b : Block (DataType := DataType)) blocks :
  total_rows (b :: blocks) = (Z.of_nat (block_rows b) + total_rows blocks)%Z.
Proof. done. Qed.

Lemma total_rows_take (blocks : list (Block (DataType := DataType))) : ∀ i,
  (0 ≤ total_rows (take i blocks) ≤ total_rows (take (S i) blocks))%Z
  ∧ (total_rows (take i blocks) ≤ total_rows blocks)%Z.
Proof.
  induction blocks as [|b blocks IH]; intros i.
  { rewrite !take_nil. change (total_rows []) with 0%Z. lia. }
  destruct i as [|i].
  - rewrite take_0. cbn [take]. rewrite !total_rows_cons, take_0.
    destruct (IH 0) as [_ H0]. rewrite take_0 in H0.
    change (total_rows []) with 0%Z in *. lia.
  - cbn [take]. rewrite !total_rows_cons. destruct (IH i) as [H1 H2].
    destruct (IH (S i)) as [_ H3]. lia.
Qed.

Lemma running_rows_last blocks : ∀ r0,
  blocks ≠ [] →
  last (running_rows r0 blocks) = Some (wrap64 (r0 + total_rows blocks)).
Proof.
  induction blocks as [|b blocks IH]; intros r0 Hne; [done|].
  cbn [running_rows]. rewrite total_rows_cons.
  destruct blocks as [|b' blocks].
  { simpl. change (total_rows []) with 0%Z. by rewrite Z.add_0_r. }
  rewrite last_cons, IH by done. simpl. f_equal. unfold wrap64.
  rewrite Zplus_mod_idemp_l. f_equal. lia.
Qed.

Lemma running_rows_exact blocks : ∀ r0 i,
  (0 ≤ r0)%Z → (r0 + total_rows blocks < 2 ^ 64)%Z →
  i < length blocks →
  running_rows r0 blocks !! i = Some (r0 + total_rows (take (S i) blocks))%Z.
Proof.
  induction blocks as [|b blocks IH]; intros r0 i Hr0 Hsum Hi; [simpl in Hi; lia|].
  rewrite total_rows_cons in Hsum.
  destruct (total_rows_take blocks 0) as [_ Hpos]. rewrite take_0 in Hpos.
  change (total_rows []) with 0%Z in Hpos.
  cbn [running_rows take]. rewrite total_rows_cons.
  rewrite wrap64_small by lia.
  destruct i as [|i]; simpl.
  - rewrite take_0. change (total_rows []) with 0%Z. f_equal. lia.
  - rewrite IH; [f_equal; lia|lia|lia|simpl in Hi; lia].
Qed.

(** X10.  The rows of the marks of a new table.  A writer is made on a
    table that the constructor returned, over a directory without a marks
    file, and writes blocks whose rows together are fewer than 2^64.  Then
    every substream has one mark for every block, the [rows] of the mark of
    a block is the number of rows of the blocks up to and including it, and
    so the [rows] of the marks never decrease and are in the range of
    [size_t]. *)
Theorem rows_of_written_marks path_ name_ (columns_ : list (string * DataType))
    mcbs st (disk_ : gmap string (list byte)) st1 w blocks w1 :
  new_StorageLog path_ name_ columns_ mcbs = inr st →
  NoDup columns_.*1 →
  disk_ !! marks_file st = None →
  StorageLog_write disk_ st = Done w st1 →
  write_all blocks w = Done tt w1 →
  (total_rows blocks < 2 ^ 64)%Z →
  ∀ n cd, files (storage w1) !! n = Some cd →
    length (marks cd) = length blocks
    ∧ (∀ i m, marks cd !! i = Some m → rows m = total_rows (take (S i) blocks))
    ∧ rows_non_decreasing (marks cd)
    ∧ Forall rows_in_range (marks cd).
Proof.
  intros Hnew Hnd Hfile Hopen Hrun Hsum n cd Hcd.
  destruct (StorageLog_write_inv _ _ _ _ _ _ _ _ Hnew Hopen)
    as (Hload & -> & Hlay1 & _).
  destruct (new_StorageLog_layout_ok _ _ _ _ _ _ Hnew Hnd Hlay1) as (Hok1 & _).
  destruct (new_StorageLog_consistent _ _ _ _ _ Hnew) as (Hix & _ & _ & Hld).
  destruct (loadMarks_Done_inv _ _ _ Hix Hld Hload) as (_ & _ & Hloaded).
  rewrite Hfile in Hloaded.
  destruct (write_all_rows blocks (new_LogBlockOutputStream st1 disk_) w1 Hok1 Hrun)
    as (Hlay & _ & Hrows).
  simpl in Hlay, Hrows.
  destruct (proj1 (layout_keys _ _ n Hlay) (mk_is_Some _ _ Hcd)) as [cd1 Hcd1].
  destruct (proj1 (layout_keys _ _ n Hlay1) (mk_is_Some _ _ Hcd1)) as [cd0 Hcd0].
  assert (marks cd1 = []) as Hempty.
  { specialize (Hloaded n cd0 Hcd0). unfold marks_of in Hloaded.
    rewrite Hcd1 in Hloaded. simpl in Hloaded.
    by rewrite Hloaded, (new_StorageLog_fresh _ _ _ _ _ Hnew _ _ Hcd0). }
  specialize (Hrows n cd1 Hcd1). unfold marks_of in Hrows. rewrite Hcd in Hrows.
  simpl in Hrows. rewrite Hempty in Hrows. simpl in Hrows.
  change (last_rows []) with 0%Z in Hrows.
  assert (length (marks cd) = length blocks) as Hlen.
  { by rewrite <- (length_fmap rows), Hrows, length_running_rows. }
  assert (∀ i m, marks cd !! i = Some m →
            rows m = total_rows (take (S i) blocks)) as Hexact.
  { intros i m Hm.
    assert ((rows <$> marks cd) !! i = Some (rows m)) as Hi
      by (by rewrite list_lookup_fmap, Hm).
    rewrite Hrows, running_rows_exact in Hi; [|lia|lia|].
    - injection Hi as <-. lia.
    - apply lookup_lt_Some in Hm. lia. }
  split; [done|]. split; [done|]. split.
  - intros i a b Ha Hb. rewrite (Hexact _ _ Ha), (Hexact _ _ Hb).
    apply total_rows_take.
  - apply Forall_lookup. intros i m Hm. unfold rows_in_range.
    rewrite (Hexact _ _ Hm).
    destruct (total_rows_take blocks (S i)) as [H1 H2]. lia.
Qed.

(** ** A scan of what a writer has written *)

(** X11.  The scan of a table that was written.  A writer is made on a
    table that the constructor returned (its first column not Nullable),
    over a directory without a marks file, and writes at least one block.
    A scan of the table with one stream then has one reader, which starts
    at mark 0 and may read as many rows as the blocks have together (in
    [size_t]).  The files are not looked at: the marks are those of the
    writer. *)
Theorem read_after_write path_ name_ mcbs st c t rest p ps
    (disk_ disk' : gmap string (list byte)) st1 w blocks w1 cn mbs mrbs :
  new_StorageLog path_ name_ ((c, t) :: rest) mcbs = inr st →
  NoDup ((c, t) :: rest).*1 →
  isNullable t = false →
  enumerateStreams t = p :: ps →
  getFileNameForStream c p ≠ EmptyString →
  disk_ !! marks_file st = None →
  StorageLog_write disk_ st = Done w st1 →
  write_all blocks w = Done tt w1 →
  blocks ≠ [] →
  (Z.of_nat (length blocks) < 2 ^ 64)%Z →
  Forall (λ n, n ∈ ((c, t) :: rest).*1) cn →
  read disk' cn mbs 1 mrbs (storage w1)
  = Done [mkLogBlockInputStream mbs cn 0 (wrap64 (total_rows blocks)) 0 mrbs]
      (storage w1).
Proof.
  intros Hnew Hnd Hnull Hps Hname Hfile Hopen Hrun Hne Hlen Hcn.
  destruct (StorageLog_write_inv _ _ _ _ _ _ _ _ Hnew Hopen)
    as (Hload & -> & Hlay1 & _).
  destruct (new_StorageLog_layout_ok _ _ _ _ _ _ Hnew Hnd Hlay1) as (Hok1 & _).
  destruct (new_StorageLog_consistent _ _ _ _ _ Hnew) as (Hix & Hcols & _ & Hld).
  destruct (loadMarks_Done_inv _ _ _ Hix Hld Hload) as (_ & Hld1 & Hloaded).
  rewrite Hfile in Hloaded.
  destruct (write_all_rows blocks (new_LogBlockOutputStream st1 disk_) w1 Hok1 Hrun)
    as (Hlay & Hldw & Hrows).
  simpl in Hlay, Hldw, Hrows.
  assert (layout (storage w1) = layout st) as Hlayw by congruence.
  destruct (getMarksWithRealRowCount_first _ _ _ _ _ _ _ _ _ _
              Hnew Hlayw Hnull Hps Hname) as [H0 Hmarks].
  set (n := getFileNameForStream c p) in *.
  set (ms := marks_of (storage w1) n) in *.
  assert (is_Some (files st !! n)) as [cd0 Hcd0].
  { apply index_consistent_keys; [done|].
    rewrite <- (layout_column_names _ _ Hlayw). by eapply list_elem_of_lookup_2. }
  destruct (proj2 (layout_keys _ _ n Hlay1) (mk_is_Some _ _ Hcd0)) as [cd1 Hcd1].
  assert (rows <$> ms = running_rows 0 blocks) as Hmr.
  { subst ms. rewrite (Hrows n cd1 Hcd1).
    specialize (Hloaded n cd0 Hcd0). unfold marks_of in Hloaded.
    rewrite Hcd1 in Hloaded. simpl in Hloaded.
    by rewrite Hloaded, (new_StorageLog_fresh _ _ _ _ _ Hnew _ _ Hcd0). }
  assert (length ms = length blocks) as Hm.
  { by rewrite <- (length_fmap rows), Hmr, length_running_rows. }
  assert (0 < length blocks) as Hpos by (destruct blocks; [done|simpl; lia]).
  rewrite (read_plan disk' (storage w1) (storage w1) cn mbs 1 mrbs ms).
  - rewrite Hm. replace (Z.min 1 (Z.of_nat (length blocks))) with 1%Z by lia.
    simpl. do 2 f_equal. unfold planned_reader. rewrite Hm.
    unfold mark_begin_of, mark_end_of, rows_upto. simpl.
    rewrite Z.div_1_r. f_equal.
    replace (((Z.of_nat 0 + 1) * Z.of_nat (length blocks)) `div` 1)%Z
      with (Z.of_nat (length blocks)) by (rewrite Z.div_1_r; lia).
    rewrite decide_True by lia. rewrite Z.sub_0_r.
    replace (Z.to_nat (Z.of_nat (length blocks) - 1)) with (pred (length ms))
      by lia.
    rewrite <- list_lookup_fmap.
    replace (pred (length ms)) with (pred (length (rows <$> ms)))
      by (by rewrite length_fmap).
    rewrite <- last_lookup, Hmr, running_rows_last by done.
    simpl. unfold wrap64. by rewrite Z.mod_mod by lia.
  - lia.
  - rewrite Hm. replace (Z.min 1 (Z.of_nat (length blocks))) with 1%Z by lia. lia.
  - unfold check_names, getColumnsList.
    destruct (layout_fields _ _ Hlayw) as (_ & _ & -> & _).
    by rewrite Hcols, decide_True.
  - apply loadMarks_again. congruence.
  - done.
Qed.



(** ** Renaming *)

Lemma string_app_cons x a b : String x a +:+ b = String x (a +:+ b).
Proof. done. Qed.

Lemma string_app_assoc a b c : (a +:+ b) +:+ c = a +:+ (b +:+ c).
Proof. induction a as [|x a IH]; [done|]. by rewrite !string_app_cons, IH. Qed.

Lemma has_slash_app a b : has_slash (a +:+ b) = has_slash a || has_slash b.
Proof.
  induction a as [|x a IH]; [done|]. rewrite string_app_cons. cbn [has_slash].
  by rewrite IH, orb_assoc.
Qed.

Lemma getFileName_no_slash f : has_slash f = false → getFileName f = f.
Proof. intros Hf. destruct f; [done|]. cbn [getFileName]. by rewrite Hf. Qed.

Lemma getFileName_in_dir d f :
  has_slash f = false → getFileName ((d +:+ "/") +:+ f) = f.
Proof.
  intros Hf. induction d as [|x d IH].
  - change (("" +:+ "/") +:+ f) with (String "/" f). cbn [getFileName has_slash].
    simpl. by apply getFileName_no_slash.
  - rewrite !string_app_cons. cbn [getFileName has_slash].
    rewrite !has_slash_app. cbn [has_slash]. simpl.
    by rewrite (orb_true_r (has_slash d)), orb_true_r.
Qed.

Lemma getFileName_data_file path_ name_ n :
  has_slash n = false →
  getFileName ((path_ +:+ name_ +:+ "/") +:+ n +:+ DBMS_STORAGE_LOG_DATA_FILE_EXTENSION)
  = n +:+ DBMS_STORAGE_LOG_DATA_FILE_EXTENSION.
Proof.
  intros Hn. rewrite <- (string_app_assoc path_ name_ "/").
  apply getFileName_in_dir. rewrite has_slash_app, Hn. done.
Qed.

Lemma addFiles_each_same cols : ∀ sa sb sa',
  index_consistent sa → index_consistent sb →
  column_names sa = column_names sb →
  addFiles_each cols sa = inr sa' →
  ∃ sb', addFiles_each cols sb = inr sb'.
Proof.
  induction cols as [|[n t] cols IH]; intros sa sb sa' Ha Hb Hn Hrun; simpl in *.
  { eauto. }
  unfold addFiles in *. destruct (files sa !! n) eqn:Hfa; [done|].
  destruct (files sb !! n) eqn:Hfb.
  { exfalso. assert (n ∈ column_names sb) as Hin
      by (apply index_consistent_keys; eauto).
    rewrite <- Hn in Hin. apply (index_consistent_keys _ _ Ha) in Hin as [? ?].
    congruence. }
  destruct (foldl_stream_callback n (enumerateStreams t) sa Ha) as [Ha' Hna].
  destruct (foldl_stream_callback n (enumerateStreams t) sb Hb) as [Hb' Hnb].
  eapply IH; [exact Ha'|exact Hb'| |exact Hrun]. by rewrite Hna, Hnb, Hn.
Qed.

Lemma new_StorageLog_elsewhere path_ name_ (columns_ : list (string * DataType))
    mcbs st new_path new_name :
  new_StorageLog path_ name_ columns_ mcbs = inr st →
  ∃ st', new_StorageLog new_path new_name columns_ mcbs = inr st'.
Proof.
  unfold new_StorageLog. destruct columns_ as [|c cols]; [done|].
  unfold getColumnsList. simpl columns.
  destruct (addFiles_each (c :: cols) (mkStorageLog path_ _ _ _ _ _ _ _ _))
    as [|sa'] eqn:Hrun; [done|]. intros _.
  destruct (addFiles_each_same _ _
              (mkStorageLog new_path new_name (c :: cols) mcbs ∅ [] 0
                 EmptyString false) _
              (empty_table_consistent path_ name_ (c :: cols) mcbs)
              (empty_table_consistent new_path new_name (c :: cols) mcbs)
              eq_refl Hrun) as [sb' ->].
  eauto.
Qed.

Lemma rebind_paths_spec path_ name_ (columns_ : list (string * DataType)) mcbs
    st st1 new_path new_name :
  new_StorageLog path_ name_ columns_ mcbs = inr st →
  layout st1 = layout st →
  (∀ n, n ∈ column_names st → has_slash n = false) →
  (∃ st', new_StorageLog new_path new_name columns_ mcbs = inr st'
     ∧ layout (rebind_paths new_path new_name st1) = layout st')
  ∧ (∀ n, marks_of (rebind_paths new_path new_name st1) n = marks_of st1 n)
  ∧ loaded_marks (rebind_paths new_path new_name st1) = loaded_marks st1
  ∧ rebind_paths path_ name_ (rebind_paths new_path new_name st1) = st1.
Proof.
  intros Hnew Hlay Hslash.
  destruct (new_StorageLog_named _ _ _ _ _ Hnew) as (Hnamed & Hp & Hnm & Hmf & Hc).
  destruct (new_StorageLog_consistent _ _ _ _ _ Hnew) as (Hix & Hcols & Hnames & _).
  destruct (layout_fields _ _ Hlay) as (Hfc1 & Hmf1 & Hcols1 & Hp1 & Hnm1).
  pose proof (data_files_named_layout _ _ Hlay Hnamed) as Hnamed1.
  assert (table_dir st1 = path_ +:+ name_ +:+ "/") as Hdir1.
  { unfold table_dir. by rewrite Hp1, Hnm1, Hp, Hnm. }
  assert (∀ n cd, files st1 !! n = Some cd →
            data_file cd
            = (path_ +:+ name_ +:+ "/") +:+ n +:+ DBMS_STORAGE_LOG_DATA_FILE_EXTENSION
            ∧ has_slash n = false) as Hfiles1.
  { intros n cd Hcd. rewrite (Hnamed1 n cd Hcd), Hdir1. split; [done|].
    apply Hslash, index_consistent_keys; [done|]. apply (layout_keys _ _ n Hlay).
    eauto. }
  split; [|split; [|split]].
  - destruct (new_StorageLog_elsewhere _ _ _ _ _ new_path new_name Hnew)
      as [st' Hnew'].
    exists st'. split; [done|].
    destruct (new_StorageLog_named _ _ _ _ _ Hnew')
      as (Hnamed' & Hp' & Hnm' & Hmf' & Hc').
    destruct (new_StorageLog_consistent _ _ _ _ _ Hnew')
      as (Hix' & Hcols' & Hnames' & _).
    assert (table_dir st' = new_path +:+ new_name +:+ "/") as Hdir'.
    { unfold table_dir. by rewrite Hp', Hnm'. }
    unfold layout, rebind_paths. cbn [path name columns max_compress_block_size files
      column_names file_count marks_file].
    rewrite Hp', Hnm', Hcols', Hc', Hmf', Hdir', Hcols1, Hcols.
    rewrite (layout_max_compress_block_size _ _ Hlay), Hc.
    rewrite (layout_column_names _ _ Hlay), Hnames, <- Hnames'.
    destruct Hix' as [Hfc' Hpos']. rewrite Hfc1, Hfc'.
    destruct Hix as [Hfc Hpos]. rewrite Hfc, Hnames, <- Hnames'.
    do 3 f_equal. f_equal. apply map_eq. intros n. rewrite !lookup_fmap.
    destruct (files st1 !! n) as [cd1|] eqn:Hcd1; simpl.
    + destruct (Hfiles1 n cd1 Hcd1) as [Hdf Hn].
      destruct (proj1 (layout_keys _ _ n Hlay) (mk_is_Some _ _ Hcd1)) as [cd Hcd].
      assert (column_names st' !! column_index cd = Some n) as Hi'.
      { rewrite Hnames', <- Hnames. apply Hpos. eauto. }
      apply Hpos' in Hi' as (cd' & Hcd' & Hci'). rewrite Hcd'. simpl.
      rewrite (Hnamed' n cd' Hcd'), Hdir', Hci', Hdf, getFileName_data_file by done.
      pose proof (layout_lookup _ _ n Hlay) as Heq. rewrite Hcd, Hcd1 in Heq.
      simpl in Heq. by injection Heq as -> _.
    + destruct (files st' !! n) as [cd'|] eqn:Hcd'; [|done]. exfalso.
      assert (n ∈ column_names st) as Hin.
      { rewrite Hnames, <- Hnames'.
        apply (index_consistent_keys st'); [by split|eauto]. }
      apply (index_consistent_keys _ _ (conj Hfc Hpos)) in Hin.
      apply (layout_keys _ _ n Hlay) in Hin as [? ?]. congruence.
  - intros n. unfold marks_of, rebind_paths. simpl. rewrite lookup_fmap.
    by destruct (files st1 !! n).
  - done.
  - unfold rebind_paths. cbn [path name columns max_compress_block_size files
      column_names file_count marks_file loaded_marks].
    assert ((λ file, mkColumnData (column_index file)
                       ((path_ +:+ name_ +:+ "/") +:+ getFileName (data_file file))
                       (marks file))
              <$> ((λ file, mkColumnData (column_index file)
                              ((new_path +:+ new_name +:+ "/")
                               +:+ getFileName (data_file file)) (marks file))
                     <$> files st1)
            = files st1) as ->.
    { apply map_eq. intros n. rewrite !lookup_fmap.
      destruct (files st1 !! n) as [cd1|] eqn:Hcd1; [|done]. simpl.
      destruct (Hfiles1 n cd1 Hcd1) as [Hdf Hn].
      rewrite Hdf, !getFileName_data_file by done. rewrite <- Hdf. by destruct cd1. }
    assert (marks_file st1
            = (path_ +:+ name_ +:+ "/") +:+ DBMS_STORAGE_LOG_MARKS_FILE_NAME)
      as Hm1.
    { rewrite Hmf1, Hmf. unfold table_dir. by rewrite Hp, Hnm. }
    rewrite <- Hm1. clear -Hp Hnm Hp1 Hnm1.
    assert (path st1 = path_) as <- by congruence.
    assert (name st1 = name_) as <- by congruence.
    by destruct st1.
Qed.

(** X13.  Renaming a table.  A table that the constructor returned, with
    whatever marks it has since, is renamed; no substream name holds a '/'.
    When the move of the directory raises, [rename] raises the same
    exception and the descriptor is as it was.  When the move returns,
    [rename] returns, and the descriptor is, apart from the marks and
    [loaded_marks], which it keeps, the descriptor that the constructor
    returns for the new path and name; and renaming it back, when the move
    back returns, gives the descriptor as it was. *)
Theorem rename_spec (renameTo : string → string → M (gmap string (list byte)) unit)
    path_ name_ (columns_ : list (string * DataType)) mcbs st st1
    new_path new_name disk_ :
  new_StorageLog path_ name_ columns_ mcbs = inr st →
  layout st1 = layout st →
  (∀ n, n ∈ column_names st → has_slash n = false) →
  (∀ e disk',
     renameTo (path_ +:+ name_) (new_path +:+ new_name) disk_ = Throw e disk' →
     rename renameTo new_path new_name (st1, disk_) = Throw e (st1, disk'))
  ∧ (∀ disk',
       renameTo (path_ +:+ name_) (new_path +:+ new_name) disk_ = Done tt disk' →
       ∃ st2,
         rename renameTo new_path new_name (st1, disk_) = Done tt (st2, disk')
         ∧ (∃ st', new_StorageLog new_path new_name columns_ mcbs = inr st'
              ∧ layout st2 = layout st')
         ∧ (∀ n, marks_of st2 n = marks_of st1 n)
         ∧ loaded_marks st2 = loaded_marks st1
         ∧ ∀ disk'',
             renameTo (new_path +:+ new_name) (path_ +:+ name_) disk'
             = Done tt disk'' →
             rename renameTo path_ name_ (st2, disk') = Done tt (st1, disk'')).
Proof.
  intros Hnew Hlay Hslash.
  destruct (rebind_paths_spec _ _ _ _ _ _ new_path new_name Hnew Hlay Hslash)
    as (Hcons & Hmarks & Hld & Hback).
  destruct (new_StorageLog_named _ _ _ _ _ Hnew) as (_ & Hp & Hnm & _).
  destruct (layout_fields _ _ Hlay) as (_ & _ & _ & Hp1 & Hnm1).
  assert (path st1 +:+ name st1 = path_ +:+ name_) as Hfrom by congruence.
  split.
  - intros e disk' Hmove. unfold rename. cbn [fst snd]. by rewrite Hfrom, Hmove.
  - intros disk' Hmove. exists (rebind_paths new_path new_name st1).
    split; [unfold rename; cbn [fst snd]; by rewrite Hfrom, Hmove|].
    split; [done|]. split; [done|]. split; [done|].
    intros disk'' Hmove'. unfold rename. cbn [fst snd].
    change (path (rebind_paths new_path new_name st1)) with new_path.
    change (name (rebind_paths new_path new_name st1)) with new_name.
    by rewrite Hmove', Hback.
Qed.

(** ** The readers of a scan and the mark vectors *)


(** ** A valid block raises no logical error *)

Lemma mark_callback_no_logical_error name column written out_marks p w :
  is_Some (files (storage w) !! getFileNameForStream name p) →
  never_raises LOGICAL_ERROR (mark_callback name column written out_marks p w).
Proof.
  intros [cd Hcd]. unfold mark_callback. case_decide; [done|].
  unfold mbind at 1. rewrite (files_at_present _ _ _ Hcd).
  rewrite set_files_id, set_storage_id. unfold mbind, try_emplace_stream.
  destruct (streams w !! _); [done|]. by case_decide.
Qed.

Lemma writeData_marks_no_logical_error name column written ps : ∀ out_marks w,
  (∀ p, p ∈ ps → is_Some (files (storage w) !! getFileNameForStream name p)) →
  never_raises LOGICAL_ERROR
    (mfold (mark_callback name column written) out_marks ps w).
Proof.
  induction ps as [|p ps IH]; intros out_marks w Hps; [done|].
  rewrite mfold_cons.
  pose proof (mark_callback_no_logical_error name column written out_marks p w
                (Hps p (list_elem_of_here _ _))) as Hhead.
  destruct (mark_callback name column written out_marks p w)
    as [om1 w1| |] eqn:H1; [|done..].
  apply mark_callback_covered in H1 as [Hst _];
    [|apply Hps, list_elem_of_here].
  apply IH. intros p' Hp'. rewrite Hst. apply Hps. by apply list_elem_of_further.
Qed.

Lemma writeData_serialize_returns name written reqs : ∀ got w,
  (∀ req, req ∈ reqs →
     getFileNameForStream name req.1 ∈ written
     ∨ is_Some (streams w !! getFileNameForStream name req.1)) →
  ∃ got' w', mfold (serialize_request name written) got reqs w = Done got' w'.
Proof.
  induction reqs as [|req reqs IH]; intros got w Hreqs; [by eexists _, _|].
  rewrite mfold_cons.
  assert (∃ got1 w1, serialize_request name written got req w = Done got1 w1)
    as (got1 & w1 & H1).
  { unfold serialize_request, mbind. rewrite stream_getter_cases.
    case_decide as Hw; [by eexists _, _|].
    destruct (Hreqs req) as [?|[s Hs]]; [apply list_elem_of_here|done|].
    rewrite Hs. by eexists _, _. }
  rewrite H1. apply serialize_request_got in H1 as (_ & _ & _ & _ & _ & Hs).
  apply IH. intros req' Hreq'.
  destruct (Hreqs req') as [?|Hsome]; [by apply list_elem_of_further|by left|].
  right. rewrite Hs. destruct (getter_answer name written req.1); [|done].
  destruct Hsome as [s' Hs'].
  destruct (decide (s = getFileNameForStream name req'.1)) as [->|Hne].
  - rewrite lookup_alter_eq, Hs'. by eexists.
  - rewrite lookup_alter_ne by done. eauto.
Qed.

Lemma writeData_flush_returns name ps : ∀ written w,
  (∀ p, p ∈ ps →
     getFileNameForStream name p ∈ written
     ∨ is_Some (streams w !! getFileNameForStream name p)) →
  ∃ written' w', mfold (flush_callback name) written ps w = Done written' w'.
Proof.
  induction ps as [|p ps IH]; intros written w Hps; [by eexists _, _|].
  rewrite mfold_cons.
  assert (∃ written1 w1, flush_callback name written p w = Done written1 w1)
    as (written1 & w1 & H1).
  { unfold flush_callback. case_decide as Hw; [by eexists _, _|].
    destruct (Hps p) as [?|[s Hs]]; [apply list_elem_of_here|done|].
    rewrite Hs. by eexists _, _. }
  rewrite H1. apply flush_callback_written in H1 as (-> & _ & _ & _ & _ & Hs).
  apply IH. intros p' Hp'.
  destruct (Hps p') as [?|Hsome]; [by apply list_elem_of_further| |].
  { left. apply elem_of_union. by right. }
  right. rewrite Hs. case_decide; [done|]. destruct Hsome as [s' Hs'].
  destruct (decide (getFileNameForStream name p = getFileNameForStream name p'))
    as [Heq|Hne].
  - rewrite Heq, lookup_alter_eq, Hs'. by eexists.
  - rewrite lookup_alter_ne by done. eauto.
Qed.

Lemma writeData_no_logical_error c out_marks written w :
  requests_enumerated →
  (∀ n, n ∈ stream_names (c_name c) (c_type c) → is_Some (files (storage w) !! n)) →
  never_raises LOGICAL_ERROR
    (writeData (c_name c) (c_type c) (c_column c) out_marks written w).
Proof.
  intros Hreq Hfiles. unfold writeData.
  pose proof (writeData_marks_no_logical_error (c_name c) (c_column c) written
                (enumerateStreams (c_type c)) out_marks w) as Hmarks.
  unfold mbind at 1. unfold writeData_marks at 1.
  destruct (mfold _ out_marks (enumerateStreams (c_type c)) w)
    as [om1 w1|e w1|] eqn:H1.
  2,3: apply Hmarks; intros p Hp; apply Hfiles; unfold stream_names;
       by apply list_elem_of_fmap_2.
  clear Hmarks.
  apply (writeData_marks_covered _ (c_type c)) in H1 as (Hst1 & _ & _ & Hs1);
    [|done].
  destruct (writeData_serialize_returns (c_name c) written
              (serializeBinaryBulkWithMultipleStreams (c_type c) (c_column c))
              [] w1) as (got & w2 & H2).
  { intros req Hr. destruct (decide (getFileNameForStream (c_name c) req.1 ∈ written));
      [by left|right].
    rewrite Hs1, decide_True; [by eexists|]. split; [|done].
    unfold stream_names. apply list_elem_of_fmap_2. by eapply Hreq. }
  unfold mbind at 1. unfold writeData_serialize at 1. rewrite H2.
  pose proof (writeData_serialize_streams _ _ _ _ _ _ _ H2) as Hs2.
  destruct (writeData_flush_returns (c_name c) (enumerateStreams (c_type c))
              written w2) as (written' & w3 & H3).
  { intros p Hp. destruct (decide (getFileNameForStream (c_name c) p ∈ written));
      [by left|right].
    rewrite Hs2, decide_False by done. rewrite Hs1, decide_True; [by eexists|].
    split; [|done]. unfold stream_names. by apply list_elem_of_fmap_2. }
  unfold mbind. unfold writeData_flush. by rewrite H3.
Qed.

Lemma write_columns_no_logical_error block : ∀ acc w,
  requests_enumerated →
  (∀ c n, c ∈ block → n ∈ stream_names (c_name c) (c_type c) →
     is_Some (files (storage w) !! n)) →
  never_raises LOGICAL_ERROR
    (mfold (λ acc column,
              writeData (c_name column) (c_type column) (c_column column) acc.1 acc.2)
       acc block w).
Proof.
  induction block as [|c block IH]; intros acc w Hreq Hfiles; [done|].
  rewrite mfold_cons.
  pose proof (writeData_no_logical_error c acc.1 acc.2 w Hreq) as Hhead.
  destruct (writeData _ _ _ _ _ w) as [[om1 ws1] w1| |] eqn:H1.
  2,3: apply Hhead; intros n Hn; apply (Hfiles c n); [apply list_elem_of_here|done].
  apply writeData_spec in H1 as (Hst & _).
  2:{ intros n Hn. apply (Hfiles c n); [apply list_elem_of_here|done]. }
  apply IH; [done|]. intros c' n Hc' Hn. rewrite Hst.
  apply (Hfiles c' n); [by apply list_elem_of_further|done].
Qed.

Lemma emitted_names_NoDup block : ∀ written,
  (∀ c, c ∈ block → NoDup (stream_names (c_name c) (c_type c))) →
  NoDup (emitted_names written block).
Proof.
  induction block as [|c block IH]; intros written Hnd; [constructor|].
  cbn [emitted_names]. apply NoDup_app. split; [|split].
  - apply NoDup_filter, Hnd, list_elem_of_here.
  - intros n Hn Hn'. apply emitted_names_not_written in Hn'.
    apply list_elem_of_filter in Hn as [_ Hn]. apply Hn'.
    apply elem_of_union. left. by apply elem_of_list_to_set.
  - apply IH. intros c' Hc'. apply Hnd. by apply list_elem_of_further.
Qed.

(** X15.  A valid block raises no logical error.  On a table as the
    constructor leaves it, when the data types name the files of their
    substreams without repetition and their serializers ask only for their
    own substreams, a [write] of a block that passes the check raises
    neither of the two LOGICAL_ERRORs: every stream that the getter and the
    last pass of [writeData] look for was created, and once the columns are
    written the number of marks collected is [file_count].  Nor does
    [writeMarks] index [column_names] out of range. *)
Theorem write_no_logical_error block w :
  table_ok (storage w) →
  requests_enumerated →
  (∀ c t, (c, t) ∈ columns (storage w) → NoDup (stream_names c t)) →
  block_valid (storage w) block →
  (∀ w', write block w ≠ Throw LOGICAL_ERROR w')
  ∧ write block w ≠ Undefined
  ∧ ∀ acc w1, write_columns block w = Done acc w1 →
      length acc.1 = file_count (storage w1).
Proof.
  intros (Hix & Hnd & Hnames) Hreq Hnodup Hvalid.
  pose proof Hvalid as (Hsize & Hbnd & Hbcols & Hball).
  assert (∀ c n, c ∈ block → n ∈ stream_names (c_name c) (c_type c) →
            n ∈ column_names (storage w)) as Hsub.
  { intros c n Hc Hn. apply Hnames. unfold all_stream_names.
    apply list_elem_of_bind. exists (c_name c, c_type c). split; [done|].
    eapply Forall_forall in Hbcols; done. }
  assert (∀ c n, c ∈ block → n ∈ stream_names (c_name c) (c_type c) →
            is_Some (files (storage w) !! n)) as Hcov.
  { intros c n Hc Hn. apply index_consistent_keys; eauto. }
  assert (∀ acc w1, write_columns block w = Done acc w1 →
            length acc.1 = file_count (storage w1)
            ∧ ∃ w', writeMarks acc.1 w1 = Done tt w') as Hcount.
  { intros acc w1 Hcols.
    apply (write_columns_spec (block_rows block)) in Hcols
      as (Hst1 & _ & _ & _ & (new & Hnew & Hmarks) & _); [|
      intros c Hc; by eapply Forall_forall in Hsize|done].
    simpl in Hnew. subst new. cbn [fst snd] in *.
    set (L := emitted_names ∅ block) in *.
    assert (∀ n, n ∈ L ↔ n ∈ column_names (storage w)) as HL.
    { intros n. unfold L. rewrite elem_of_emitted_names. split.
      - intros [_ Hn]. unfold block_names in Hn.
        apply list_elem_of_bind in Hn as (c & Hn & Hc). eauto.
      - intros Hn. split; [apply not_elem_of_empty|].
        apply Hnames in Hn. unfold all_stream_names in Hn.
        apply list_elem_of_bind in Hn as ([cn t] & Hn & Hct). simpl in Hn.
        eapply Forall_forall in Hball; [|done]. simpl in Hball.
        apply list_elem_of_fmap in Hball as (c & -> & Hc).
        assert (c_type c = t) as <-.
        { eapply NoDup_fst_functional; [done| |done].
          eapply Forall_forall in Hbcols; done. }
        unfold block_names. apply list_elem_of_bind. eauto. }
    assert (L ≡ₚ column_names (storage w)) as Hperm.
    { apply NoDup_Permutation; [|by apply index_consistent_NoDup|done].
      apply emitted_names_NoDup. intros c Hc. apply Hnodup.
      eapply Forall_forall in Hbcols; done. }
    assert (length acc.1 = file_count (storage w1)) as Hlen.
    { rewrite Hst1, <- (Forall2_length _ _ _ Hmarks), Hperm.
      by destruct Hix as [-> _]. }
    split; [done|]. unfold writeMarks. rewrite decide_False by lia.
    destruct (write_marks_fold (sort_marks acc.1) w1) as (w' & Hrun & _).
    { by rewrite Hst1. }
    { unfold sort_marks. rewrite merge_sort_Permutation, Hst1.
      eapply Forall2_Forall_r; [done|]. apply Forall_forall.
      intros n Hn im (Hi & _). rewrite Hi. apply HL in Hn.
      apply (index_consistent_keys _ _ Hix) in Hn as [cd Hcd].
      unfold file_of. rewrite (files_at_present _ _ _ Hcd). simpl.
      destruct Hix as [-> Hix]. eapply lookup_lt_Some, Hix. eauto. }
    eauto. }
  pose proof (write_columns_no_logical_error block ([], ∅) w Hreq Hcov) as Hcols.
  fold (write_columns block) in Hcols.
  assert (never_raises LOGICAL_ERROR (write block w)) as Hwrite.
  { unfold write, mbind, check_block. rewrite decide_True by done.
    destruct (write_columns block w) as [acc w1|e w1|] eqn:Hrun; [|done..].
    destruct (Hcount acc w1 eq_refl) as [_ [w' ->]]. done. }
  split; [|split].
  - intros w' Hrun. rewrite Hrun in Hwrite. by apply Hwrite.
  - intros Hrun. by rewrite Hrun in Hwrite.
  - intros acc w1 Hrun. by apply Hcount.
Qed.

End Properties.

(** * The scenarios *)

Import Scenario.

Ltac by_compute := apply (bool_decide_unpack _); vm_compute; exact I.


Lemma log_types_requests_enumerated : requests_enumerated (DataType := LogType).
Proof.
  intros t c req Hreq. simpl in *. unfold log_serialize in Hreq.
  destruct t, c; simpl in *;
    repeat (apply elem_of_cons in Hreq as [->|Hreq]);
    try (by apply elem_of_nil in Hreq); simpl.
  - apply list_elem_of_here.
  - apply list_elem_of_here.
  - apply list_elem_of_here.
  - apply list_elem_of_further, list_elem_of_here.
Qed.

Lemma table_constructed_S1 :
  new_StorageLog "/db/"%string "T"%string columns_S1 1024 = inr (table columns_S1).
Proof. vm_compute. reflexivity. Qed.

Lemma table_constructed_S2 :
  new_StorageLog "/db/"%string "T"%string columns_S2 1024 = inr (table columns_S2).
Proof. vm_compute. reflexivity. Qed.

Lemma table_constructed_S3 :
  new_StorageLog "/db/"%string "T"%string columns_S3 1024 = inr (table columns_S3).
Proof. vm_compute. reflexivity. Qed.

Lemma table_ok_S1 : table_ok (table columns_S1).
Proof.
  eapply new_StorageLog_table_ok; [apply table_constructed_S1|]. by_compute.
Qed.

Lemma table_ok_S3 : table_ok (table columns_S3).
Proof.
  eapply new_StorageLog_table_ok; [apply table_constructed_S3|]. by_compute.
Qed.

(** S1-S3 of the spec on the model: the marks after the first block, and
    the readers of S2. *)
Example marks_S1 : marks_of (storage writer_S1_1) "a" = [mkMark 3 0].
Proof. vm_compute. reflexivity. Qed.

Example marks_S3 :
  marks_of (storage (after (write block_S3) (writer columns_S3 ∅))) "arr.size0"
  = [mkMark 3 0]
  ∧ marks_of (storage (after (write block_S3) (writer columns_S3 ∅))) "arr"
    = [mkMark 3 0].
Proof. split; vm_compute; reflexivity. Qed.

Example readers_S2 :
  ∃ st, read disk_S2 ["a"%string; "b"%string] 65536 2 1048576 (table columns_S2)
        = Done [mkLogBlockInputStream 65536 ["a"%string; "b"%string] 0 2 0 1048576;
                mkLogBlockInputStream 65536 ["a"%string; "b"%string] 1 1 0 1048576]
            st.
Proof. eexists. vm_compute. reflexivity. Qed.

(** ** C9, C10: the constructor *)


Lemma new_StorageLog_substream_name_clash_witness :
  NoDup ["a"%string; "a.size0"%string]
  ∧ "a.size0"%string ∈ all_stream_names [("a"%string, TArray 4)]
  ∧ new_StorageLog "/db/"%string "T"%string
      [("a"%string, TArray 4); ("a.size0"%string, UInt64)] 1024
    = inl DUPLICATE_COLUMN.
Proof.
  split; [by_compute|].
  assert ("a.size0"%string ∈ all_stream_names [("a"%string, TArray 4)]) as Hin
    by by_compute.
  split; [done|].
  exact (new_StorageLog_substream_name_clash "/db/"%string "T"%string 1024
           [("a"%string, TArray 4)] [] "a.size0"%string UInt64 Hin).
Defined.


(** ** C5: loadMarks (S4) *)

Lemma table_consistent_S1 : index_consistent (table columns_S1).
Proof. apply table_ok_S1. Qed.

Lemma loadMarks_spec_witness :
  index_consistent (table columns_S1)
  ∧ 0 < file_count (table columns_S1)
  ∧ loadMarks {[marks_file (table columns_S1) := replicate 15 x00]}
      (table columns_S1)
    = Throw SIZES_OF_MARKS_FILES_ARE_INCONSISTENT (table columns_S1)
  ∧ loadMarks ∅ (table columns_S1)
    = Done tt (set_loaded_marks true (table columns_S1)).
Proof.
  assert (0 < file_count (table columns_S1)) as Hpos by by_compute.
  split; [exact table_consistent_S1|]. split; [exact Hpos|].
  destruct (loadMarks_spec {[marks_file (table columns_S1) := replicate 15 x00]}
              (table columns_S1) table_consistent_S1 Hpos) as (_ & _ & Hbad & _).
  destruct (loadMarks_spec ∅ (table columns_S1) table_consistent_S1 Hpos)
    as (_ & Hnone & _).
  split.
  - apply (Hbad (replicate 15 x00)); [reflexivity| |by_compute].
    apply lookup_singleton_eq.
  - apply Hnone; [reflexivity|apply lookup_empty].
Defined.

(** ** C2, C3: the scan of S2 *)

Lemma marks_S2_non_decreasing : rows_non_decreasing marks_S2.
Proof.
  intros [|[|i]] a b Ha Hb; simpl in *; try done.
  injection Ha as <-. injection Hb as <-. simpl. lia.
Qed.

Lemma marks_S2_in_range : Forall rows_in_range marks_S2.
Proof. repeat constructor; unfold rows_in_range; simpl; by_compute. Qed.

Lemma read_spec_witness :
  ∃ readers,
    read disk_S2 ["a"%string; "b"%string] 65536 2 1048576 (table columns_S2)
    = Done readers loaded_S2
    ∧ length readers = 2
    ∧ readers !! 1
      = Some (mkLogBlockInputStream 65536 ["a"%string; "b"%string] 1 1 0 1048576).
Proof.
  destruct (read_spec disk_S2 (table columns_S2) loaded_S2
              ["a"%string; "b"%string] 65536 2 1048576 marks_S2)
    as (readers & Hrun & Hlen & Hr).
  - by_compute.
  - by_compute.
  - vm_compute. reflexivity.
  - vm_compute. reflexivity.
  - vm_compute. reflexivity.
  - exists readers. split; [exact Hrun|]. split; [exact Hlen|].
    destruct (readers !! 1) as [r|] eqn:H1.
    + rewrite (Hr 1 r H1). vm_compute. reflexivity.
    + apply lookup_ge_None in H1. rewrite Hlen in H1. vm_compute in H1. lia.
Defined.

Lemma read_partition_witness :
  ∃ readers,
    read disk_S2 ["a"%string; "b"%string] 65536 2 1048576 (table columns_S2)
    = Done readers loaded_S2
    ∧ concat (slice_of 2 2 <$> seq 0 2) = [0; 1]
    ∧ Zsum (rows_limit <$> readers) = 3%Z.
Proof.
  destruct (read_partition disk_S2 (table columns_S2) loaded_S2
              ["a"%string; "b"%string] 65536 2 1048576 marks_S2)
    as (readers & Hrun & Hlen & Hcover & Hr & Hsum).
  - by_compute.
  - by_compute.
  - by_compute.
  - exact marks_S2_non_decreasing.
  - exact marks_S2_in_range.
  - vm_compute. reflexivity.
  - vm_compute. reflexivity.
  - vm_compute. reflexivity.
  - exists readers. split; [exact Hrun|]. split; [exact Hcover|].
    exact (Hsum (mkMark 3 17) eq_refl).
Defined.

(** ** C1, C8: writeData on the column of S1 *)

Lemma writeData_marks_spec_witness :
  block_valid (table columns_S1) block_S1
  ∧ writeData_marks "a"%string UInt64 (ColumnNumbers [1; 2; 3]%Z) [] ∅
      (writer columns_S1 ∅)
    = Done [(0, mkMark 3 0)] writer_S1_marked
  ∧ ∃ s, streams writer_S1_marked !! "a"%string = Some s
      ∧ offset (mkMark 3 0)
        = wrap64 (plain_offset s + Z.of_nat (wb_count (plain s)))
      ∧ plain_offset s
        = Z.of_nat (length (file_content (disk (writer columns_S1 ∅))
                              "/db/T/a.bin"%string))
      ∧ wb_count (plain s) = 0.
Proof.
  assert (block_valid (table columns_S1) block_S1) as Hvalid by by_compute.
  assert (writeData_marks "a"%string UInt64 (ColumnNumbers [1; 2; 3]%Z) [] ∅
            (writer columns_S1 ∅)
          = Done [(0, mkMark 3 0)] writer_S1_marked) as Hrun
    by (vm_compute; reflexivity).
  split; [exact Hvalid|]. split; [exact Hrun|].
  destruct (writeData_marks_spec (table columns_S1) block_S1
              (mkColumnWithTypeAndName "a"%string UInt64
                 (ColumnNumbers [1; 2; 3]%Z))
              [] ∅ (writer columns_S1 ∅) [(0, mkMark 3 0)] writer_S1_marked
              Hvalid (list_elem_of_here _ _) Hrun) as (new & Hnew & Hall).
  simpl in Hnew. subst new.
  match type of Hall with
  | Forall2 _ ?l _ => change l with [[] : SubstreamPath] in Hall
  end.
  apply Forall2_cons_1 in Hall as [(_ & _ & _ & s & Hs & Ho & _ & Hopen) _].
  exists s. split; [exact Hs|]. split; [exact Ho|]. exact Hopen.
Defined.

Lemma stream_getter_spec_witness :
  ∃ w1 w2,
    writeData_marks "a"%string UInt64 (ColumnNumbers [1; 2; 3]%Z) [] ∅
      (writer columns_S1 ∅) = Done [(0, mkMark 3 0)] w1
    ∧ writeData_serialize "a"%string UInt64 (ColumnNumbers [1; 2; 3]%Z) ∅ w1
      = Done [Some "a"%string] w2.
Proof.
  destruct (stream_getter_spec "a"%string UInt64 (ColumnNumbers [1; 2; 3]%Z) [] ∅
              (writer columns_S1 ∅) [(0, mkMark 3 0)] {["a"%string]}
              writer_S1_written)
    as (w1 & w2 & H1 & H2 & _).
  - vm_compute. reflexivity.
  - exists w1, w2. split; [exact H1|]. exact H2.
Defined.

(** C8 as the spec words it fails: when the serializer asks twice for the
    same substream while it writes one column, the second request gets the
    buffer again, not null. *)
Lemma stream_getter_second_request :
  serialize_request "a"%string ∅ [] ([], le_bytes 8 1) writer_S1_marked
  = Done [Some "a"%string] writer_S1_requested
  ∧ stream_getter "a"%string ∅ [] writer_S1_requested
    = Done (Some "a"%string) writer_S1_requested
  ∧ stream_getter "a"%string ∅ [] writer_S1_requested
    ≠ Done None writer_S1_requested.
Proof.
  assert (stream_getter "a"%string ∅ [] writer_S1_requested
          = Done (Some "a"%string) writer_S1_requested) as Hsecond
    by (vm_compute; reflexivity).
  split; [vm_compute; reflexivity|]. split; [exact Hsecond|].
  rewrite Hsecond. discriminate.
Qed.

(** ** C6: writeMarks on the table of S3 *)

Lemma writer_consistent_S3 : index_consistent (storage (writer columns_S3 ∅)).
Proof.
  apply (index_consistent_layout (table columns_S3)); [|apply table_ok_S3].
  vm_compute. reflexivity.
Qed.

Lemma writeMarks_spec_witness :
  writeMarks [(0, mkMark 3 0)] (writer columns_S3 ∅)
  = Throw LOGICAL_ERROR (writer columns_S3 ∅)
  ∧ ∃ w' sorted,
      writeMarks [(1, mkMark 3 7); (0, mkMark 3 5)] (writer columns_S3 ∅)
      = Done tt w'
      ∧ sorted ≡ₚ [(1, mkMark 3 7); (0, mkMark 3 5)]
      ∧ StronglySorted (λ a b : nat * Mark, a.1 ≤ b.1) sorted
      ∧ marks_stream w'
        = wb_write
            (sorted ≫= (λ m, le_bytes 8 (rows m.2) ++ le_bytes 8 (offset m.2)))
            (marks_stream (writer columns_S3 ∅)).
Proof.
  split.
  - apply (writeMarks_spec [(0, mkMark 3 0)] (writer columns_S3 ∅)). by_compute.
  - destruct (writeMarks_spec [(1, mkMark 3 7); (0, mkMark 3 5)]
                (writer columns_S3 ∅)) as (_ & _ & Hok).
    destruct Hok as (w' & sorted & Hrun & Hperm & Hsorted & Hstream & _).
    + vm_compute. reflexivity.
    + exact writer_consistent_S3.
    + by_compute.
    + exists w', sorted. split; [exact Hrun|]. split; [exact Hperm|].
      split; [exact Hsorted|]. exact Hstream.
Defined.

(** ** C7: the lock-step on the table of S3 *)



(** ** C4: marks and data file of S1 *)

Lemma writer_table_ok_S1 : table_ok (storage (writer columns_S1 ∅)).
Proof.
  apply (table_ok_layout (table columns_S1)); [|apply table_ok_S1].
  vm_compute. reflexivity.
Qed.

Lemma mark_offset_is_block_start_witness :
  ∃ m,
    marks_of (storage writer_S1_2) "a"%string !! 1 = Some m
    ∧ length (marks_of (storage writer_S1_2) "a"%string) = 2
    ∧ offset m = wrap64 (Z.of_nat (length (data_content writer_S1_1 "a"%string)))
    ∧ data_content writer_S1_2 "a"%string
      = data_content writer_S1_1 "a"%string
        ++ frames_of 1024 [] (block_data block_S1 "a"%string).
Proof.
  destruct (mark_offset_is_block_start (storage (writer columns_S1 ∅)) ∅
              [block_S1] block_S1 writer_S1_1 writer_S1_2
              writer_table_ok_S1 log_types_requests_enumerated)
    with (n := "a"%string)
         (cd := mkColumnData 0 "/db/T/a.bin"%string [])
    as (m & Hm & Hlen & Ho & Hc).
  - vm_compute. reflexivity.
  - vm_compute. reflexivity.
  - vm_compute. reflexivity.
  - exists m. split; [exact Hm|]. split; [exact Hlen|]. split; [exact Ho|].
    exact Hc.
Defined.

(** C4 as the spec words it fails on S1: the mark of the first block has
    offset 0, while the data file is 25 bytes long after the frames of that
    block, which is where the frames of the second block begin (and what the
    mark of the second block records). *)
Lemma mark_offset_not_next_block_start :
  write block_S1 (writer columns_S1 ∅) = Done tt writer_S1_1
  ∧ write block_S1 writer_S1_1 = Done tt writer_S1_2
  ∧ marks_of (storage writer_S1_2) "a"%string = [mkMark 3 0; mkMark 6 25]
  ∧ Z.of_nat (length (data_content writer_S1_1 "a"%string)) = 25%Z
  ∧ ∃ m, marks_of (storage writer_S1_2) "a"%string !! 0 = Some m
      ∧ offset m ≠ Z.of_nat (length (data_content writer_S1_1 "a"%string)).
Proof.
  split; [vm_compute; reflexivity|]. split; [vm_compute; reflexivity|].
  split; [vm_compute; reflexivity|]. split; [vm_compute; reflexivity|].
  exists (mkMark 3 0). split; [vm_compute; reflexivity|].
  vm_compute. discriminate.
Qed.

(** ** X1, X13: the files of the table of S3, and the table renamed *)

Lemma new_StorageLog_data_files_witness :
  marks_file (table columns_S3) = "/db/T/__marks.mrk"%string
  ∧ (∀ n cd, files (table columns_S3) !! n = Some cd →
       data_file cd ≠ "/db/T/__marks.mrk"%string)
  ∧ ∀ cd cd', files (table columns_S3) !! "arr.size0"%string = Some cd →
      files (table columns_S3) !! "arr"%string = Some cd' →
      data_file cd ≠ data_file cd'.
Proof.
  destruct (new_StorageLog_data_files "/db/"%string "T"%string columns_S3 1024
              (table columns_S3) table_constructed_S3) as (Hm & Hd & Hinj).
  split; [exact Hm|]. split.
  - intros n cd Hcd. destruct (Hd n cd Hcd) as [_ Hne]. rewrite Hm in Hne.
    exact Hne.
  - intros cd cd' Hcd Hcd' Heq. specialize (Hinj _ _ _ _ Hcd Hcd' Heq).
    discriminate Hinj.
Defined.

Lemma rename_spec_witness :
  rename move_directory "/db2/"%string "U"%string
    (storage writer_S3_2, <["/db2/U/x.bin"%string := []]> disk_S3)
  = Throw CANNOT_OPEN_FILE
      (storage writer_S3_2, <["/db2/U/x.bin"%string := []]> disk_S3)
  ∧ ∃ st2 disk' disk'',
      rename move_directory "/db2/"%string "U"%string (storage writer_S3_2, disk_S3)
      = Done tt (st2, disk')
      ∧ disk' !! "/db2/U/arr.bin"%string = disk_S3 !! "/db/T/arr.bin"%string
      ∧ data_file <$> files st2 !! "arr"%string = Some "/db2/U/arr.bin"%string
      ∧ (∀ n, marks_of st2 n = marks_of (storage writer_S3_2) n)
      ∧ rename move_directory "/db/"%string "T"%string (st2, disk')
        = Done tt (storage writer_S3_2, disk'').
Proof.
  assert (∀ n, n ∈ column_names (table columns_S3) → has_slash n = false) as Hslash.
  { intros n Hn.
    change (column_names (table columns_S3))
      with ["arr.size0"%string; "arr"%string] in Hn.
    apply elem_of_cons in Hn as [->|Hn]; [reflexivity|].
    apply elem_of_cons in Hn as [->|Hn]; [reflexivity|].
    by apply elem_of_nil in Hn. }
  assert (layout (storage writer_S3_2) = layout (table columns_S3)) as Hlay
    by (vm_compute; reflexivity).
  split.
  - destruct (rename_spec move_directory "/db/"%string "T"%string columns_S3 1024
                (table columns_S3) (storage writer_S3_2) "/db2/"%string "U"%string
                (<["/db2/U/x.bin"%string := []]> disk_S3)
                table_constructed_S3 Hlay Hslash) as [Hrefused _].
    apply Hrefused. vm_compute. reflexivity.
  - destruct (rename_spec move_directory "/db/"%string "T"%string columns_S3 1024
                (table columns_S3) (storage writer_S3_2) "/db2/"%string "U"%string
                disk_S3 table_constructed_S3 Hlay Hslash) as [_ Hmoved].
    destruct (move_directory "/db/T" "/db2/U" disk_S3) as [[] disk'| |] eqn:Hmove;
      [|vm_compute in Hmove; discriminate Hmove..].
    destruct (Hmoved disk' Hmove) as (st2 & Hrun & _ & Hmarks & _ & Hback).
    destruct (move_directory "/db2/U" "/db/T" disk') as [[] disk''| |] eqn:Hmove';
      [|vm_compute in Hmove; injection Hmove as <-;
        vm_compute in Hmove'; discriminate Hmove'..].
    exists st2, disk', disk''. split; [exact Hrun|].
    split; [vm_compute in Hmove; injection Hmove as <-; vm_compute; reflexivity|].
    split.
    { unfold rename in Hrun. cbn [fst snd] in Hrun.
      change (path (storage writer_S3_2) +:+ name (storage writer_S3_2))
        with "/db/T"%string in Hrun.
      change ("/db2/" +:+ "U") with "/db2/U"%string in Hrun.
      rewrite Hmove in Hrun. injection Hrun as <-. vm_compute. reflexivity. }
    split; [exact Hmarks|]. apply Hback. exact Hmove'.
Defined.

(** ** X2-X4, X14: the marks that count the rows, and scans *)

Lemma table_ok_S2 : table_ok (table columns_S2).
Proof.
  eapply new_StorageLog_table_ok; [apply table_constructed_S2|]. by_compute.
Qed.

Lemma getMarksWithRealRowCount_first_stream_witness :
  ∃ cd, files (storage writer_S3_2) !! "arr.size0"%string = Some cd
    ∧ column_index cd = 0
    ∧ getMarksWithRealRowCount (storage writer_S3_2)
      = Done (marks cd) (storage writer_S3_2)
    ∧ marks cd = [mkMark 3 0; mkMark 6 25].
Proof.
  destruct (getMarksWithRealRowCount_first_stream "/db/"%string "T"%string 1024
              (table columns_S3) (storage writer_S3_2) "arr"%string (TArray 4) []
              [ArraySizes] [[ArrayElements]])
    as (cd & Hcd & Hi & Hrun).
  - exact table_constructed_S3.
  - vm_compute. reflexivity.
  - reflexivity.
  - reflexivity.
  - vm_compute. discriminate.
  - exists cd. split; [exact Hcd|]. split; [exact Hi|]. split; [exact Hrun|].
    vm_compute in Hcd. injection Hcd as <-. reflexivity.
Defined.


Lemma read_again_witness :
  read disk_S2 ["a"%string; "b"%string] 65536 2 1048576 (table columns_S2)
  = Done [mkLogBlockInputStream 65536 ["a"%string; "b"%string] 0 2 0 1048576;
          mkLogBlockInputStream 65536 ["a"%string; "b"%string] 1 1 0 1048576]
      loaded_S2
  ∧ loaded_marks loaded_S2 = true
  ∧ read ∅ ["a"%string; "b"%string] 65536 2 1048576 loaded_S2
    = Done [mkLogBlockInputStream 65536 ["a"%string; "b"%string] 0 2 0 1048576;
            mkLogBlockInputStream 65536 ["a"%string; "b"%string] 1 1 0 1048576]
        loaded_S2.
Proof.
  assert (read disk_S2 ["a"%string; "b"%string] 65536 2 1048576 (table columns_S2)
          = Done [mkLogBlockInputStream 65536 ["a"%string; "b"%string] 0 2 0 1048576;
                  mkLogBlockInputStream 65536 ["a"%string; "b"%string] 1 1 0 1048576]
              loaded_S2) as Hrun by (vm_compute; reflexivity).
  split; [exact Hrun|].
  apply (read_again disk_S2 ∅ (table columns_S2) loaded_S2
           ["a"%string; "b"%string] 65536 2 1048576); [|exact Hrun].
  apply table_ok_S2.
Defined.


(** ** X5, X12: the marks of two blocks of S1 and S3, and where a reader
    starts *)

Lemma writer_table_ok_S3 : table_ok (storage (writer columns_S3 ∅)).
Proof.
  apply (table_ok_layout (table columns_S3)); [|apply table_ok_S3].
  vm_compute. reflexivity.
Qed.

Lemma write_all_marks_witness :
  marks_of (storage writer_S3_2) "arr"%string = [mkMark 3 0; mkMark 6 13]
  ∧ data_content writer_S3_2 "arr"%string
    = blocks_frames 1024 [block_S3; block_S3] "arr"%string.
Proof.
  destruct (write_all_marks (storage (writer columns_S3 ∅)) ∅ [block_S3; block_S3]
              writer_S3_2 writer_table_ok_S3 log_types_requests_enumerated)
    with (n := "arr"%string) (cd := mkColumnData 1 "/db/T/arr.bin"%string [])
    as [Hmarks Hdata].
  - vm_compute. reflexivity.
  - vm_compute. reflexivity.
  - split.
    + rewrite Hmarks. vm_compute. reflexivity.
    + rewrite Hdata. reflexivity.
Defined.


(** ** X6, X15: a block that is refused, and a block that is valid *)

Lemma write_failure_keeps_marks_witness :
  write block_S3 writer_S3_miscounted = Throw LOGICAL_ERROR writer_S3_refused
  ∧ streams writer_S3_refused ≠ streams writer_S3_miscounted
  ∧ (∀ n, marks_of (storage writer_S3_refused) n
          = marks_of (storage writer_S3_miscounted) n)
  ∧ marks_stream writer_S3_refused = marks_stream writer_S3_miscounted.
Proof.
  destruct (write_failure_keeps_marks block_S3 writer_S3_miscounted)
    as (_ & _ & Hcount).
  destruct (Hcount ([(0, mkMark 3 0); (1, mkMark 3 0)],
                    {["arr.size0"%string; "arr"%string]}) writer_S3_refused)
    as [[Hmarks Hstream] Hrun].
  - by_compute.
  - vm_compute. reflexivity.
  - split; [apply Hrun; vm_compute; lia|].
    split; [|split; [exact Hmarks|exact Hstream]].
    intros Heq. apply (f_equal (λ m, m !! "arr"%string)) in Heq.
    vm_compute in Heq. discriminate Heq.
Defined.

Lemma write_no_logical_error_witness :
  (∀ w', write block_S1 (writer columns_S1 ∅) ≠ Throw LOGICAL_ERROR w')
  ∧ write block_S1 (writer columns_S1 ∅) ≠ Undefined
  ∧ ∀ acc w1, write_columns block_S1 (writer columns_S1 ∅) = Done acc w1 →
      length acc.1 = file_count (storage w1).
Proof.
  apply (write_no_logical_error block_S1 (writer columns_S1 ∅) writer_table_ok_S1
           log_types_requests_enumerated).
  - intros c t Hin.
    change (columns (storage (writer columns_S1 ∅)))
      with [("a"%string, UInt64)] in Hin.
    apply list_elem_of_singleton in Hin. injection Hin as -> ->. by_compute.
  - by_compute.
Defined.

(** ** X7-X11: the writer of S2, finished, and the table read again *)

Lemma table_opened_S2 :
  StorageLog_write ∅ (table columns_S2)
  = Done (writer columns_S2 ∅) (storage (writer columns_S2 ∅)).
Proof. vm_compute. reflexivity. Qed.

Lemma written_S2 :
  write_all [block_S2_1; block_S2_2] (writer columns_S2 ∅) = Done tt writer_S2_2.
Proof. vm_compute. reflexivity. Qed.

Lemma finished_S2 : writeSuffix writer_S2_2 = Done tt writer_S2_closed.
Proof. vm_compute. reflexivity. Qed.

Lemma columns_S2_NoDup : NoDup columns_S2.*1.
Proof. by_compute. Qed.

Lemma writeSuffix_spec_witness :
  file_content (disk writer_S2_closed) "/db/T/b.bin"%string
  = blocks_frames 1024 [block_S2_1; block_S2_2] "b"%string
  ∧ streams writer_S2_closed = ∅
  ∧ writeSuffix writer_S2_closed = Done tt writer_S2_closed.
Proof.
  destruct (writeSuffix_spec "/db/"%string "T"%string columns_S2 1024
              (table columns_S2) ∅ (storage (writer columns_S2 ∅))
              (writer columns_S2 ∅) [block_S2_1; block_S2_2] writer_S2_2
              writer_S2_closed table_constructed_S2 columns_S2_NoDup
              log_types_requests_enumerated table_opened_S2 written_S2 finished_S2)
    as (Hfiles & Hstreams & _ & Hagain).
  split; [|split; [exact Hstreams|exact Hagain]].
  apply (Hfiles "b"%string (mkColumnData 1 "/db/T/b.bin"%string [])).
  vm_compute. reflexivity.
Defined.

Lemma marks_file_size_witness :
  length (marks_content writer_S2_2) = 64
  ∧ length (file_content (disk writer_S2_closed) "/db/T/__marks.mrk"%string) = 64.
Proof.
  destruct (marks_file_size "/db/"%string "T"%string columns_S2 1024
              (table columns_S2) ∅ (storage (writer columns_S2 ∅))
              (writer columns_S2 ∅) [block_S2_1; block_S2_2] writer_S2_2
              table_constructed_S2 columns_S2_NoDup
              log_types_requests_enumerated table_opened_S2 written_S2
              "a"%string
              (mkColumnData 0 "/db/T/a.bin"%string [mkMark 2 0; mkMark 3 17]))
    as [Hsize Hfile].
  - vm_compute. reflexivity.
  - split; [exact Hsize|]. exact (Hfile writer_S2_closed finished_S2).
Defined.

Lemma marks_reloaded_witness :
  ∃ st', loadMarks (disk writer_S2_closed) (table columns_S2) = Done tt st'
    ∧ marks_of st' "b"%string = [mkMark 2 0; mkMark 3 6].
Proof.
  destruct (marks_reloaded "/db/"%string "T"%string columns_S2 1024
              (table columns_S2) ∅ (storage (writer columns_S2 ∅))
              (writer columns_S2 ∅) [block_S2_1; block_S2_2] writer_S2_2
              writer_S2_closed table_constructed_S2 columns_S2_NoDup)
    as (st' & Hload & Hmarks).
  - by_compute.
  - exact log_types_requests_enumerated.
  - exact table_opened_S2.
  - exact written_S2.
  - exact finished_S2.
  - exists st'. split; [exact Hload|]. rewrite (Hmarks "b"%string).
    vm_compute. reflexivity.
Defined.

Lemma rows_of_written_marks_witness :
  ∃ cd, files (storage writer_S2_2) !! "b"%string = Some cd
    ∧ length (marks cd) = 2
    ∧ rows <$> marks cd = [2; 3]%Z
    ∧ rows_non_decreasing (marks cd).
Proof.
  exists (mkColumnData 1 "/db/T/b.bin"%string [mkMark 2 0; mkMark 3 6]).
  destruct (rows_of_written_marks "/db/"%string "T"%string columns_S2 1024
              (table columns_S2) ∅ (storage (writer columns_S2 ∅))
              (writer columns_S2 ∅) [block_S2_1; block_S2_2] writer_S2_2
              table_constructed_S2 columns_S2_NoDup (lookup_empty _)
              table_opened_S2 written_S2)
    with (n := "b"%string)
         (cd := mkColumnData 1 "/db/T/b.bin"%string [mkMark 2 0; mkMark 3 6])
    as (Hlen & _ & Hmono & _).
  - by_compute.
  - vm_compute. reflexivity.
  - split; [vm_compute; reflexivity|]. split; [exact Hlen|].
    split; [reflexivity|exact Hmono].
Defined.

Lemma read_after_write_witness :
  read ∅ ["a"%string; "b"%string] 65536 1 1048576 (storage writer_S2_2)
  = Done [mkLogBlockInputStream 65536 ["a"%string; "b"%string] 0 3 0 1048576]
      (storage writer_S2_2).
Proof.
  assert (wrap64 (total_rows [block_S2_1; block_S2_2]) = 3%Z) as Hrows
    by (vm_compute; reflexivity).
  rewrite <- Hrows.
  apply (read_after_write "/db/"%string "T"%string 1024 (table columns_S2)
           "a"%string UInt64 [("b"%string, TString)] [] [] ∅ ∅
           (storage (writer columns_S2 ∅)) (writer columns_S2 ∅)
           [block_S2_1; block_S2_2] writer_S2_2 ["a"%string; "b"%string]
           65536 1048576).
  - exact table_constructed_S2.
  - exact columns_S2_NoDup.
  - reflexivity.
  - reflexivity.
  - vm_compute. discriminate.
  - apply lookup_empty.
  - exact table_opened_S2.
  - exact written_S2.
  - discriminate.
  - by_compute.
  - by_compute.
Defined.
